(** * Topological feature extraction (apps/ml-api/src/tda): a shallow embedding

    The Python modules [persistence.py], [simplicial.py], [timeseries.py],
    [vectorize.py] and [layout.py] are embedded as Rocq functions.  Python
    exceptions become an explicit outcome type, dictionaries become finite
    maps, and the external numeric libraries (NumPy, ripser, GUDHI) are
    interfaces whose operations the embedded code calls. *)

From Stdlib Require Import ZArith QArith Qabs List Bool Lia.
From Stdlib Require Import Strings.String Strings.Ascii.
From stdpp Require Import base tactics option list gmap sets strings pretty sorting relations.

Local Open Scope Z_scope.
Local Open Scope string_scope.

(** ** Python outcomes *)

(** The exceptions the embedded code can raise. *)
Inductive exn : Type :=
| ValueError
| KeyError
| IndexError
| LinAlgError.

(** The outcome of running a Python function: a value, a raised exception,
    or (for the model of a [while] loop only) an exhausted step budget. *)
Inductive res (A : Type) : Type :=
| Ok (a : A)
| Raise (e : exn)
| OutOfFuel.
Arguments Ok {A} a.
Arguments Raise {A} e.
Arguments OutOfFuel {A}.

Global Instance res_bind : MBind res := fun A B (k : A -> res B) (c : res A) =>
  match c with
  | Ok a => k a
  | Raise e => Raise e
  | OutOfFuel => OutOfFuel
  end.

Global Instance res_ret : MRet res := fun A a => Ok a.

(** [for x in xs: body], threading the loop state through the outcome monad. *)
Fixpoint for_each {A S : Type} (xs : list A) (body : A -> S -> res S) (s : S) : res S :=
  match xs with
  | [] => Ok s
  | x :: xs' => s' ← body x s; for_each xs' body s'
  end.

(** [d[k]] on a dictionary: [KeyError] when the key is absent. *)
Definition getitem {V : Type} (d : gmap string V) (k : string) : res V :=
  match d !! k with
  | Some v => Ok v
  | None => Raise KeyError
  end.

(** [l[i]] on a list with a non-negative index: [IndexError] out of range. *)
Definition list_getitem {A : Type} (l : list A) (i : Z) : res A :=
  if decide (0 <= i) then
    match l !! Z.to_nat i with
    | Some a => Ok a
    | None => Raise IndexError
    end
  else
    match l !! Z.to_nat (Z.of_nat (length l) + i) with
    | Some a => if decide (0 <= Z.of_nat (length l) + i) then Ok a else Raise IndexError
    | None => Raise IndexError
    end.

(** [range(start, stop, step)] for a non-zero step; Python raises
    [ValueError] for step 0. *)
Definition py_range (start stop step : Z) : res (list Z) :=
  if decide (step = 0) then Raise ValueError
  else if decide (0 < step) then
    Ok (map (fun k => start + k * step) (seqZ 0 ((stop - start + step - 1) / step)))
  else
    Ok (map (fun k => start + k * step) (seqZ 0 ((start - stop - step - 1) / (- step)))).

(** [range(n)]. *)
Definition py_range1 (n : Z) : list Z := seqZ 0 n.

(** [s[a:b]] on a list, with Python's clamping of slice bounds. *)
Definition slice_bound (len i : Z) : Z :=
  if decide (i < 0) then Z.max 0 (len + i) else Z.min i len.

Definition py_slice {A : Type} (l : list A) (a b : Z) : list A :=
  let len := Z.of_nat (length l) in
  let a' := slice_bound len a in
  let b' := slice_bound len b in
  take (Z.to_nat (b' - a')) (drop (Z.to_nat a') l).

(** [f"H{dim}"] *)
Definition Hkey (dim : Z) : string := "H" +:+ pretty dim.

(** ** The numeric interface (NumPy) *)

(** Floating-point numbers and the NumPy reductions the code calls are taken
    as an interface: the embedded functions are written against it, and every
    theorem below holds for each implementation of it. *)
Class NumPy : Type := {
  float : Type;
  (** a decimal literal of the source, such as [0.8] or [1e-10] *)
  float_lit : Q -> float;
  (** [float(i)] for an integer [i] *)
  float_of_Z : Z -> float;
  (** [int(x)]: truncation toward zero *)
  int_of_float : float -> Z;
  np_inf : float;
  fadd : float -> float -> float;
  fsub : float -> float -> float;
  fmul : float -> float -> float;
  fdiv : float -> float -> float;
  fneg : float -> float;
  (** [a != b], [a < b], [a > b] on floats *)
  fneb : float -> float -> bool;
  fltb : float -> float -> bool;
  fgtb : float -> float -> bool;
  np_isfinite : float -> bool;
  np_log : float -> float;
  np_sqrt : float -> float;
  np_abs : float -> float;
  np_sum : list float -> float;
  np_mean : list float -> float;
  np_std : list float -> float;
  np_median : list float -> float;
  np_max : list float -> float;
  np_min : list float -> float;
  (** [np.percentile(a, q)] *)
  np_percentile : list float -> Z -> float;
  (** two-dimensional arrays handed over by the caller *)
  ndarray : Type;
  (** [a.shape[0]] *)
  shape0 : ndarray -> Z;
  (** [a[np.ix_(idx, idx)]] *)
  np_ix : ndarray -> list Z -> ndarray;
  (** [np.corrcoef(rows)] and [np.cov(rows)], one variable per row *)
  np_corrcoef : list (list float) -> ndarray;
  np_cov : list (list float) -> ndarray;
  (** an elementwise operation on a two-dimensional array *)
  nd_map : (float -> float) -> ndarray -> ndarray;
  (** [np.fill_diagonal(a, x)], as the array it leaves in [a] *)
  np_fill_diagonal : ndarray -> float -> ndarray;
  (** [np.eye(n)], [a * x], [a + b] *)
  np_eye : Z -> ndarray;
  nd_scale : ndarray -> float -> ndarray;
  nd_add : ndarray -> ndarray -> ndarray;
  (** [np.linalg.inv(a)]: [LinAlgError] on a singular matrix *)
  np_linalg_inv : ndarray -> res ndarray;
  (** [v @ a] and [v @ w] *)
  np_vecmat : list float -> ndarray -> list float;
  np_dot : list float -> list float -> float;
}.

(** A persistence diagram: rows [(birth, death)], [death] possibly [np.inf]. *)
Definition diagram `{NumPy} : Type := list (float * float).

(** The values stored in a statistics dictionary. *)
Inductive value `{NumPy} : Type :=
| VInt (z : Z)
| VFloat (x : float).

(** NumPy's conversion of a Python number to a float array element. *)
Definition as_float `{NumPy} (v : value) : float :=
  match v with
  | VInt z => float_of_Z z
  | VFloat x => x
  end.

(** ** persistence.py *)

(** The keyword arguments [compute_persistence] builds for [ripser]. *)
Record ripser_kwargs `{NumPy} : Type := {
  kw_maxdim : Z;
  kw_distance_matrix : bool;
  kw_thresh : option float;
  kw_n_perm : option Z;
}.

(** The external persistence back ends.  [ripser a kw] is
    [ripser(a, **kw)["dgms"]]; [gudhi_sparse_rips a sparse max_dimension dim]
    is [persistence_intervals_in_dimension(dim)] of the simplex tree GUDHI
    builds with [RipsComplex(distance_matrix=a, sparse=sparse)] and
    [create_simplex_tree(max_dimension)]; [np_random_choice g n size] is
    [np.random.choice(n, size, replace=False)] on generator state [g]. *)
Class Backends `{NumPy} : Type := {
  ripser : ndarray -> ripser_kwargs -> list diagram;
  (** ripser returns one diagram per dimension [0..maxdim] *)
  ripser_dgms_length : forall a kw,
    0 <= kw_maxdim kw -> length (ripser a kw) = Z.to_nat (kw_maxdim kw + 1);
  gudhi_sparse_rips : ndarray -> float -> Z -> Z -> diagram;
  (** [persistence_intervals_in_dimension(dim)] of the simplex tree of
      [gudhi.AlphaComplex(points)] *)
  gudhi_alpha : list (float * float) -> Z -> diagram;
  rng : Type;
  np_random_choice : rng -> Z -> Z -> list Z * rng;
}.

(** The dictionary [compute_persistence] returns; ["method"] is only set by
    the multi-subsample path. *)
Record persistence_result `{NumPy} : Type := {
  diagrams : gmap string diagram;
  stats : gmap string (gmap string value);
  num_points : Z;
  method : option string;
}.

Section Persistence.
Context `{BE : Backends}.

Definition eps : float := float_lit (1 # 10000000000).

(** Lines 66-81 (and, identically, 163-178): the statistics of the finite
    lifespans of one dimension. *)
Definition lifespan_stats (lifespans : list float) : gmap string value :=
  if decide (0 < Z.of_nat (length lifespans)) then
    let normed := map (fun l => fdiv l (fadd (np_sum lifespans) eps)) lifespans in
    let entropy :=
      fneg (np_sum (map (fun p => fmul p (np_log (fadd p eps))) normed)) in
    <["count" := VInt (Z.of_nat (length lifespans))]>
    (<["mean_lifespan" := VFloat (np_mean lifespans)]>
    (<["std_lifespan" := VFloat (np_std lifespans)]>
    (<["median_lifespan" := VFloat (np_median lifespans)]>
    (<["max_lifespan" := VFloat (np_max lifespans)]>
    (<["iqr_lifespan" :=
        VFloat (fsub (np_percentile lifespans 75) (np_percentile lifespans 25))]>
    (<["entropy" := VFloat entropy]> ∅))))))
  else
    <["count" := VInt 0]> ∅.

(** Lines 59-60: the finite rows of a ripser diagram and their lifespans. *)
Definition finite_rows (dgm : diagram) : diagram :=
  if decide (0 < Z.of_nat (length dgm)) then
    filter (fun p => fneb (snd p) np_inf = true) dgm
  else [].

Definition lifespans_of (finite : diagram) : list float :=
  if decide (0 < Z.of_nat (length finite)) then
    map (fun p => fsub (snd p) (fst p)) finite
  else [].

Definition compute_persistence (distance_matrix : ndarray) (max_dim : Z)
    (threshold : option float) (n_perm : option Z) : res persistence_result :=
  let kwargs := {| kw_maxdim := max_dim; kw_distance_matrix := true;
                   kw_thresh := threshold; kw_n_perm := n_perm |} in
  let result := ripser distance_matrix kwargs in
  '(dgms, sts) ←
    for_each (py_range1 (max_dim + 1))
      (fun dim '(dgms, sts) =>
         let key := Hkey dim in
         dgm ← list_getitem result dim;
         let finite := finite_rows dgm in
         let lifespans := lifespans_of finite in
         Ok (<[key := dgm]> dgms, <[key := lifespan_stats lifespans]> sts))
      (∅, ∅);
  Ok {| diagrams := dgms; stats := sts;
        num_points := shape0 distance_matrix; method := None |}.

Definition _gudhi_sparse_persistence (distance_matrix : ndarray) (max_dim : Z)
    : res persistence_result :=
  let st := gudhi_sparse_rips distance_matrix (float_lit (3 # 10)) (max_dim + 1) in
  '(dgms, sts) ←
    for_each (py_range1 (max_dim + 1))
      (fun dim '(dgms, sts) =>
         let key := Hkey dim in
         let intervals := st dim in
         if decide (length intervals = 0%nat) then
           Ok (<[key := []]> dgms, <[key := <["count" := VInt 0]> ∅]> sts)
         else
           let finite := filter (fun p => np_isfinite (snd p) = true) intervals in
           let lifespans := lifespans_of finite in
           Ok (<[key := intervals]> dgms, <[key := lifespan_stats lifespans]> sts))
      (∅, ∅);
  Ok {| diagrams := dgms; stats := sts;
        num_points := shape0 distance_matrix; method := None |}.

(** [v > z] for a dictionary value [v] and an integer literal [z]. *)
Definition value_gtb (v : value) (z : Z) : bool :=
  match v with
  | VInt c => bool_decide (z < c)
  | VFloat x => fgtb x (float_of_Z z)
  end.

(** [[s[field] for s in sub_stats]] as the float array NumPy makes of it. *)
Definition field_column (field : string) (sub_stats : list (gmap string value))
    : res (list float) :=
  mapM (fun s => v ← getitem s field; Ok (as_float v)) sub_stats.

(** Lines 205-208: the inner loop of one subsample. *)
Definition collect_stats (max_dim : Z) (result : persistence_result)
    (all_stats : gmap string (list (gmap string value)))
    : res (gmap string (list (gmap string value))) :=
  for_each (py_range1 (max_dim + 1))
    (fun dim all_stats =>
       let key := Hkey dim in
       st ← getitem (stats result) key;
       c ← getitem st "count";
       if value_gtb c 0 then
         l ← getitem all_stats key;
         Ok (<[key := (l ++ [st])%list]> all_stats)
       else Ok all_stats)
    all_stats.

(** Lines 219-236: the aggregate of the statistics collected for one key. *)
Definition aggregate_stats (sub_stats : list (gmap string value))
    (subsample_size num_subsamples : Z) : res (gmap string value) :=
  if decide (0 < Z.of_nat (length sub_stats)) then
    counts ← field_column "count" sub_stats;
    means ← field_column "mean_lifespan" sub_stats;
    stds ← field_column "std_lifespan" sub_stats;
    medians ← field_column "median_lifespan" sub_stats;
    maxs ← field_column "max_lifespan" sub_stats;
    iqrs ← field_column "iqr_lifespan" sub_stats;
    entropies ← field_column "entropy" sub_stats;
    Ok (<["count" := VInt (int_of_float (np_mean counts))]>
       (<["mean_lifespan" := VFloat (np_mean means)]>
       (<["std_lifespan" := VFloat (np_mean stds)]>
       (<["median_lifespan" := VFloat (np_mean medians)]>
       (<["max_lifespan" := VFloat (np_max maxs)]>
       (<["iqr_lifespan" := VFloat (np_mean iqrs)]>
       (<["entropy" := VFloat (np_mean entropies)]>
       (<["num_subsamples" := VInt num_subsamples]>
       (<["subsample_size" := VInt subsample_size]> ∅)))))))))
  else
    Ok (<["count" := VInt 0]> ∅).

(** Lines 200-208: the subsampling loop; the generator state is threaded
    through the iterations. *)
Definition subsample_loop (distance_matrix : ndarray) (max_dim : Z)
    (subsample_size num_subsamples : Z) (g : rng)
    (all_stats : gmap string (list (gmap string value)))
    : res (gmap string (list (gmap string value)) * rng) :=
  let n := shape0 distance_matrix in
  for_each (py_range1 num_subsamples)
    (fun _ '(all_stats, g) =>
       let '(indices, g') := np_random_choice g n (Z.min subsample_size n) in
       let sub_matrix := np_ix distance_matrix indices in
       result ← compute_persistence sub_matrix max_dim (Some (float_lit (8 # 10))) None;
       all_stats' ← collect_stats max_dim result all_stats;
       Ok (all_stats', g'))
    (all_stats, g).

Definition _multi_subsample_persistence (distance_matrix : ndarray) (max_dim : Z)
    (subsample_size num_subsamples : Z) (g : rng) : res (persistence_result * rng) :=
  let n := shape0 distance_matrix in
  let all_stats : gmap string (list (gmap string value)) :=
    foldl (fun acc d => <[Hkey d := []]> acc) ∅ (py_range1 (max_dim + 1)) in
  '(all_stats, g') ←
    subsample_loop distance_matrix max_dim subsample_size num_subsamples g all_stats;
  '(dgms, sts) ←
    for_each (py_range1 (max_dim + 1))
      (fun dim '(dgms, sts) =>
         let key := Hkey dim in
         sub_stats ← getitem all_stats key;
         agg ← aggregate_stats sub_stats subsample_size num_subsamples;
         Ok (<[key := []]> dgms, <[key := agg]> sts))
      (∅, ∅);
  Ok ({| diagrams := dgms; stats := sts; num_points := n;
         method := Some "multi_subsample" |}, g').

(** Lines 90-134.  The generator state is only used, and only changed, by
    the multi-subsample branch. *)
Definition compute_persistence_scaled (distance_matrix : ndarray) (max_dim : Z)
    (g : rng) : res (persistence_result * rng) :=
  let n := shape0 distance_matrix in
  if decide (n <= 3000) then
    r ← compute_persistence distance_matrix max_dim (Some (float_lit (8 # 10))) None;
    Ok (r, g)
  else if decide (n <= 10000) then
    result_h01 ← compute_persistence distance_matrix 1 (Some (float_lit (8 # 10))) None;
    result_h2 ← compute_persistence distance_matrix 2 (Some (float_lit (5 # 10)))
                  (Some (Z.min n 2000));
    d2 ← getitem (diagrams result_h2) "H2";
    s2 ← getitem (stats result_h2) "H2";
    Ok ({| diagrams := <["H2" := d2]> (diagrams result_h01);
           stats := <["H2" := s2]> (stats result_h01);
           num_points := num_points result_h01;
           method := method result_h01 |}, g)
  else if decide (n <= 50000) then
    r ← _gudhi_sparse_persistence distance_matrix max_dim;
    Ok (r, g)
  else
    _multi_subsample_persistence distance_matrix max_dim 2000 20 g.

End Persistence.

(** ** vectorize.py *)

Section Vectorize.
Context `{NP : NumPy}.

Definition FEATURES_PER_DIM : Z := 12.
Definition NUM_DIMS : Z := 3.
Definition TOTAL_FEATURES : Z := FEATURES_PER_DIM * NUM_DIMS.

(** [[0.0] * FEATURES_PER_DIM] *)
Definition zero_block : list float :=
  replicate (Z.to_nat FEATURES_PER_DIM) (float_lit 0).

(** Lines 41-42: the finite lifespans of a non-empty diagram. *)
Definition finite_lifespans (dgm : diagram) : list float :=
  filter (fun l => np_isfinite l = true) (map (fun p => fsub (snd p) (fst p)) dgm).

(** Lines 48-64: the twelve statistics of a non-empty array of lifespans. *)
Definition stat_block (lifespans : list float) : list float :=
  let normed := map (fun l => fdiv l (fadd (np_sum lifespans) (float_lit (1 # 10000000000))))
                    lifespans in
  let entropy :=
    fneg (np_sum (map (fun p => fmul p (np_log (fadd p (float_lit (1 # 10000000000)))))
                      normed)) in
  [ float_of_Z (Z.of_nat (length lifespans));
    np_mean lifespans;
    np_std lifespans;
    np_median lifespans;
    fsub (np_percentile lifespans 75) (np_percentile lifespans 25);
    np_max lifespans;
    fsub (np_max lifespans) (np_min lifespans);
    entropy;
    np_percentile lifespans 10;
    np_percentile lifespans 25;
    np_percentile lifespans 75;
    np_percentile lifespans 90 ].

(** The body of the loop over ["H0"], ["H1"], ["H2"] (lines 35-64). *)
Definition dim_block (diagrams : gmap string diagram) (dim : string) : list float :=
  let dgm := default [] (diagrams !! dim) in
  if decide (length dgm = 0%nat) then zero_block
  else
    let lifespans := finite_lifespans dgm in
    if decide (length lifespans = 0%nat) then zero_block
    else stat_block lifespans.

Definition persistence_statistics (diagrams : gmap string diagram) : list float :=
  foldl (fun features dim => (features ++ dim_block diagrams dim)%list)
        [] ["H0"; "H1"; "H2"].

End Vectorize.

(** ** timeseries.py *)

(** A two-dimensional array of the code as the list of its rows; the
    transpose takes the number of columns, so that an array without rows
    keeps its shape. *)
Definition transpose `{NumPy} (ncols : Z) (rows : list (list float)) : list (list float) :=
  map (fun j => map (fun row => nth (Z.to_nat j) row (float_lit 0)) rows)
      (py_range1 ncols).

(** [np.zeros((rows, cols))]; NumPy refuses a negative dimension. *)
Definition np_zeros `{NumPy} (rows cols : Z) : res (list (list float)) :=
  if decide (rows < 0 \/ cols < 0) then Raise ValueError
  else Ok (replicate (Z.to_nat rows) (replicate (Z.to_nat cols) (float_lit 0))).

(** [a[:, i] = col]: the column must have one entry per row, or a single
    entry that is broadcast; NumPy raises [ValueError] otherwise. *)
Definition set_column `{NumPy} (a : list (list float)) (i : Z) (col : list float)
    : res (list (list float)) :=
  if decide (length col = length a) then
    Ok (zip_with (fun row x => <[Z.to_nat i := x]> row) a col)
  else
    match col with
    | [x] => Ok (map (fun row => <[Z.to_nat i := x]> row) a)
    | _ => Raise ValueError
    end.

(** One anomalous window reported by [detect_anomalies_tada]. *)
Record anomaly `{NumPy} : Type := {
  position : Z;
  mahalanobis_score : float;
  severity : string;
  fv_mean_lifespan : float;
  fv_std_lifespan : float;
  fv_max_lifespan : float;
  fv_num_components : Z;
}.

Section Timeseries.
Context `{BE : Backends}.

Definition takens_embedding (time_series : list float) (delay dimension : Z)
    : res (list (list float)) :=
  let n := Z.of_nat (length time_series) in
  let num_points := n - (dimension - 1) * delay in
  if decide (num_points <= 0) then Raise ValueError
  else
    embedded ← np_zeros num_points dimension;
    for_each (py_range1 dimension)
      (fun i embedded =>
         set_column embedded i (py_slice time_series (i * delay) (i * delay + num_points)))
      embedded.

(** Lines 239-262: the topological features of the window starting at
    [start]. *)
Definition window_features (data : list (list float)) (n_channels : Z)
    (window_size start : Z) : res (list float) :=
  let window := py_slice data start (start + window_size) in
  let corr := np_corrcoef (transpose n_channels window) in
  let dist := nd_map (fun c => fsub (float_lit 1) (np_abs c)) corr in
  let dist := np_fill_diagonal dist (float_lit 0) in
  dgm ← list_getitem
          (ripser dist {| kw_maxdim := 0; kw_distance_matrix := true;
                          kw_thresh := None; kw_n_perm := None |}) 0;
  let lifespans := map (fun p => fsub (snd p) (fst p)) dgm in
  let lifespans := filter (fun l => np_isfinite l = true) lifespans in
  if decide (0 < Z.of_nat (length lifespans)) then
    Ok [ np_mean lifespans; np_std lifespans; np_max lifespans;
         float_of_Z (Z.of_nat (length lifespans)) ]
  else
    Ok (replicate 4 (float_lit 0)).

(** Lines 238-262: the sliding-window pass, giving [topo_features] and
    [positions]. *)
Definition sliding_windows (data : list (list float)) (n_channels T : Z)
    (window_size step : Z) : res (list (list float) * list Z) :=
  starts ← py_range 0 (T - window_size) step;
  for_each starts
    (fun start '(topo_features, positions) =>
       features ← window_features data n_channels window_size start;
       Ok ((topo_features ++ [features])%list,
           (positions ++ [start + window_size / 2])%list))
    ([], []).

(** Lines 267-298: the Gaussian fit and the flagging of the windows. *)
Definition flag_anomalies (topo_features : list (list float)) (positions : list Z)
    : res (list anomaly) :=
  let features_matrix := topo_features in
  let mean := map np_mean (transpose 4 features_matrix) in
  let cov := np_cov (transpose 4 features_matrix) in
  let cov := nd_add cov (nd_scale (np_eye (shape0 cov)) (float_lit (1 # 1000000))) in
  cov_inv ← np_linalg_inv cov;
  for_each (zip (py_range1 (Z.of_nat (length features_matrix))) features_matrix)
    (fun '(i, feat) anomalies =>
       let diff := zip_with fsub feat mean in
       let maha := np_sqrt (np_dot (np_vecmat diff cov_inv) diff) in
       if fgtb maha (float_lit 3) then
         pos ← list_getitem positions i;
         f0 ← list_getitem feat 0;
         f1 ← list_getitem feat 1;
         f2 ← list_getitem feat 2;
         f3 ← list_getitem feat 3;
         Ok (anomalies ++
             [ {| position := pos;
                  mahalanobis_score := maha;
                  severity := if fgtb maha (float_lit 5) then "high" else "medium";
                  fv_mean_lifespan := f0;
                  fv_std_lifespan := f1;
                  fv_max_lifespan := f2;
                  fv_num_components := int_of_float f3 |} ])%list
       else Ok anomalies)
    [].

(** [booking_channels] is a dictionary from channel name to series: the
    list of its items, in insertion order. *)
Definition detect_anomalies_tada (booking_channels : list (string * list float))
    (window_size step : Z) : res (list anomaly) :=
  let channel_names := map fst booking_channels in
  let n_channels := Z.of_nat (length channel_names) in
  if decide (n_channels < 2) then Ok []
  else
    let T := foldr Z.min
               (Z.of_nat (length (snd (hd ("", []) booking_channels))))
               (map (fun kv => Z.of_nat (length (snd kv))) booking_channels) in
    (* np.column_stack: row t holds the t-th sample of every channel *)
    let data := transpose T (map (fun kv => py_slice (snd kv) 0 T) booking_channels) in
    '(topo_features, positions) ←
      sliding_windows data n_channels T window_size step;
    if decide (Z.of_nat (length topo_features) < 10) then Ok []
    else flag_anomalies topo_features positions.

End Timeseries.

(** ** layout.py *)

(** A furniture item: ["x"] and ["y"] are required, ["width"] and ["depth"]
    are read with [item.get(_, 2.0)]. *)
Record furniture_item `{NumPy} : Type := {
  item_x : float;
  item_y : float;
  item_width : option float;
  item_depth : option float;
}.

Record dead_space `{NumPy} : Type := {
  birth_radius : float;
  death_radius : float;
  ds_persistence : float;
  approx_diameter_ft : float;
  ds_severity : string;
}.

Record floor_plan_analysis `{NumPy} : Type := {
  dead_spaces : list dead_space;
  coverage_score : float;
  connectivity_score : float;
  persistence_diagram_H0 : diagram;
  persistence_diagram_H1 : diagram;
  num_furniture_points : Z;
}.

Section Layout.
Context `{BE : Backends}.

(** Lines 186-197: the shoelace formula. *)
Definition _polygon_area (vertices : list (float * float)) : res float :=
  let n := Z.of_nat (length vertices) in
  if decide (n < 3) then Ok (float_lit 0)
  else
    area ←
      for_each (py_range1 n)
        (fun i area =>
           let j := (i + 1) `mod` n in
           vi ← list_getitem vertices i;
           vj ← list_getitem vertices j;
           let area := fadd area (fmul (fst vi) (snd vj)) in
           let area := fsub area (fmul (fst vj) (snd vi)) in
           Ok area)
        (float_lit 0);
    Ok (fdiv (np_abs area) (float_lit 2)).

(** Lines 49-63: the centre and the four corners of every item. *)
Definition furniture_points (furniture_positions : list furniture_item)
    : list (float * float) :=
  flat_map
    (fun item =>
       let cx := item_x item in
       let cy := item_y item in
       let w := default (float_lit 2) (item_width item) in
       let d := default (float_lit 2) (item_depth item) in
       [ (cx, cy);
         (fsub cx (fdiv w (float_lit 2)), fsub cy (fdiv d (float_lit 2)));
         (fadd cx (fdiv w (float_lit 2)), fsub cy (fdiv d (float_lit 2)));
         (fsub cx (fdiv w (float_lit 2)), fadd cy (fdiv d (float_lit 2)));
         (fadd cx (fdiv w (float_lit 2)), fadd cy (fdiv d (float_lit 2))) ])
    furniture_positions.

(** Python's [min(a, b)] on floats: [b] when [b < a], else [a]. *)
Definition py_min (a b : float) : float := if fltb b a then b else a.

Definition analyze_floor_plan_topology (furniture_positions : list furniture_item)
    (room_boundary : list (float * float))
    (dead_space_threshold_ft connectivity_threshold_ft : float)
    : res floor_plan_analysis :=
  let points := furniture_points furniture_positions in
  if decide (Z.of_nat (length points) < 4) then
    Ok {| dead_spaces := [];
          coverage_score := float_lit 0;
          connectivity_score := float_lit 0;
          persistence_diagram_H0 := [];
          persistence_diagram_H1 := [];
          num_furniture_points := Z.of_nat (length points) |}
  else
    let h0 := gudhi_alpha points 0 in
    let h1 := gudhi_alpha points 1 in
    let alpha_threshold := fmul dead_space_threshold_ft dead_space_threshold_ft in
    let dead :=
      flat_map
        (fun bd =>
           let birth := fst bd in
           let death := snd bd in
           let persistence := fsub death birth in
           if fneb death np_inf && fgtb persistence alpha_threshold then
             [ {| birth_radius := np_sqrt birth;
                  death_radius := np_sqrt death;
                  ds_persistence := np_sqrt persistence;
                  approx_diameter_ft := fmul (float_lit 2) (np_sqrt death);
                  ds_severity :=
                    if fgtb persistence (fmul alpha_threshold (float_lit 2))
                    then "high" else "medium" |} ]
           else [])
        h1 in
    room_area ← _polygon_area room_boundary;
    let covered_area :=
      foldl fadd (float_of_Z 0)
        (map (fun item => fmul (default (float_lit 2) (item_width item))
                               (default (float_lit 2) (item_depth item)))
             furniture_positions) in
    let coverage :=
      if fgtb room_area (float_of_Z 0)
      then py_min (fdiv covered_area room_area) (float_lit 1)
      else float_lit 0 in
    let h0_lifespans :=
      filter (fun l => np_isfinite l = true) (map (fun p => fsub (snd p) (fst p)) h0) in
    let conn_threshold_sq := fmul connectivity_threshold_ft connectivity_threshold_ft in
    let long_lived_h0 :=
      Z.of_nat (length (filter (fun l => fgtb l conn_threshold_sq = true) h0_lifespans)) in
    let connectivity :=
      fdiv (float_lit 1) (fadd (float_lit 1) (float_of_Z long_lived_h0)) in
    Ok {| dead_spaces := dead;
          coverage_score := coverage;
          connectivity_score := connectivity;
          persistence_diagram_H0 := h0;
          persistence_diagram_H1 := h1;
          num_furniture_points := Z.of_nat (length points) |}.

End Layout.

(** *** Comparing two layouts *)

(** The distances of the [persim] library. *)
Class Persim `{NumPy} : Type := {
  wasserstein_distance : diagram -> diagram -> float;
  bottleneck : diagram -> diagram -> float;
}.

Record layout_comparison `{NumPy} : Type := {
  topological_distance : gmap string float;
  analysis_a : floor_plan_analysis;
  analysis_b : floor_plan_analysis;
}.

Section LayoutCompare.
Context `{BE : Backends} `{PD : !Persim}.

(** Lines 164-172: the rows with a finite death of a diagram. *)
Definition finite_death_rows (dgm : diagram) : diagram :=
  if decide (0 < Z.of_nat (length dgm)) then
    filter (fun p => np_isfinite (snd p) = true) dgm
  else [].

(** Lines 160-177: the distance stored for one dimension. *)
Definition layout_distance (dgm_a dgm_b : diagram) : float :=
  let dgm_a := finite_death_rows dgm_a in
  let dgm_b := finite_death_rows dgm_b in
  if decide (0 < Z.of_nat (length dgm_a) \/ 0 < Z.of_nat (length dgm_b)) then
    wasserstein_distance dgm_a dgm_b
  else float_lit 0.

(** Lines 133-183; both analyses take the default thresholds 6.0 and 3.0. *)
Definition compare_layouts_topologically (layout_a layout_b : list furniture_item)
    (room_boundary : list (float * float)) : res layout_comparison :=
  a ← analyze_floor_plan_topology layout_a room_boundary (float_lit 6) (float_lit 3);
  b ← analyze_floor_plan_topology layout_b room_boundary (float_lit 6) (float_lit 3);
  let distances : gmap string float :=
    <["H1" := layout_distance (persistence_diagram_H1 a) (persistence_diagram_H1 b)]>
    (<["H0" := layout_distance (persistence_diagram_H0 a) (persistence_diagram_H0 b)]> ∅) in
  Ok {| topological_distance := distances; analysis_a := a; analysis_b := b |}.

End LayoutCompare.

(** *** vectorize.py: distances and images *)

(** [np.linspace(a, b, n)] for a non-negative number of samples, and
    [np.exp]. *)
Class NumPyGrid `{NumPy} : Type := {
  np_linspace : float -> float -> Z -> list float;
  np_linspace_length : forall a b n, 0 <= n -> length (np_linspace a b n) = Z.to_nat n;
  np_exp : float -> float;
}.

Section VectorizeMore.
Context `{NP : NumPy} `{PD : !Persim} `{NG : !NumPyGrid}.

(** vectorize.py, lines 152-169: the distance stored for one dimension. *)
Definition bottleneck_distance (dgm_a dgm_b : diagram) : float :=
  let dgm_a := finite_death_rows dgm_a in
  let dgm_b := finite_death_rows dgm_b in
  if decide (0 < Z.of_nat (length dgm_a) \/ 0 < Z.of_nat (length dgm_b)) then
    bottleneck dgm_a dgm_b
  else float_lit 0.

(** vectorize.py, lines 139-171. *)
Definition bottleneck_features (diagrams_a diagrams_b : gmap string diagram)
    : gmap string float :=
  foldl (fun distances dim =>
           <[dim := bottleneck_distance (default [] (diagrams_a !! dim))
                                        (default [] (diagrams_b !! dim))]> distances)
        ∅ ["H0"; "H1"; "H2"].

(** Python's [max(a, b)] on floats: [b] when [b > a], else [a]. *)
Definition py_max (a b : float) : float := if fgtb b a then b else a.

(** vectorize.py, lines 123-134: what the point [(b_k, p_k)] adds to
    the image. *)
Definition add_kernel (b_grid p_grid : list float) (p_range sigma : float)
    (weight_fn : string) (img : list (list float)) (bp : float * float)
    : list (list float) :=
  let b_k := fst bp in
  let p_k := snd bp in
  let w := if decide (weight_fn = "linear") then fdiv p_k p_range else float_lit 1 in
  let g :=
    map (fun b =>
           map (fun p =>
                  np_exp (fdiv (fneg (fadd (fmul (fsub b b_k) (fsub b b_k))
                                           (fmul (fsub p p_k) (fsub p p_k))))
                               (fmul (float_of_Z 2) (fmul sigma sigma))))
               p_grid)
        b_grid in
  zip_with (zip_with (fun x y => fadd x (fmul w y))) img g.

(** vectorize.py, lines 69-136.  [np.zeros] and [np.linspace] refuse a
    negative resolution with [ValueError]. *)
Definition persistence_image (diagram : diagram) (resolution : Z) (sigma : float)
    (weight_fn : string) : res (list (list float)) :=
  if decide (length diagram = 0%nat) then np_zeros resolution resolution
  else
    let points :=
      filter (fun bp => np_isfinite (snd bp) = true)
             (map (fun p => (fst p, fsub (snd p) (fst p))) diagram) in
    let births := map fst points in
    let persistences := map snd points in
    if decide (length births = 0%nat) then np_zeros resolution resolution
    else
      let b_min := np_min births in
      let b_max := np_max births in
      let p_min := float_lit 0 in
      let p_max := np_max persistences in
      let b_range := py_max (fsub b_max b_min) (float_lit (1 # 1000000)) in
      let p_range := py_max (fsub p_max p_min) (float_lit (1 # 1000000)) in
      let b_min := fsub b_min (fmul (float_lit (1 # 10)) b_range) in
      let b_max := fadd b_max (fmul (float_lit (1 # 10)) b_range) in
      let p_max := fadd p_max (fmul (float_lit (1 # 10)) p_range) in
      if decide (resolution < 0) then Raise ValueError
      else
        let b_grid := np_linspace b_min b_max resolution in
        let p_grid := np_linspace p_min p_max resolution in
        img ← np_zeros resolution resolution;
        Ok (foldl (add_kernel b_grid p_grid p_range sigma weight_fn) img points).

End VectorizeMore.

(** *** Periodicity and regime changes *)

(** [ripser_cloud cloud maxdim] is [ripser(cloud, maxdim=maxdim)["dgms"]]
    for a point cloud, given as the list of its points.  Nothing is assumed
    of the list it returns: lines 90 and 162 index it without a guard. *)
Class PointClouds `{NumPy} : Type := {
  ripser_cloud : list (list float) -> Z -> list diagram;
}.

(** [sorted(l, key=key, reverse=True)] for a float key: whatever the keys
    are, the result is a rearrangement of [l]. *)
Class PySort `{NumPy} : Type := {
  sorted_desc : forall {A : Type}, (A -> float) -> list A -> list A;
  sorted_desc_perm : forall {A : Type} (key : A -> float) (l : list A),
    sorted_desc key l ≡ₚ l;
}.

(** One candidate period reported by [detect_periodicity_sw1pers]. *)
Record periodicity `{NumPy} : Type := {
  period_days : Z;
  pd_persistence : float;
  pd_confidence : float;
  pd_label : string;
}.

(** One change point reported by [detect_regime_changes]. *)
Record change_point `{NumPy} : Type := {
  cp_position : Z;
  cp_severity : float;
  norm_before : float;
  norm_after : float;
}.

(** Lines 301-313. *)
Definition _period_label (days : Z) : string :=
  if decide (days <= 7) then "weekly"
  else if decide (days <= 14) then "biweekly"
  else if decide (days <= 31) then "monthly"
  else if decide (days <= 93) then "quarterly"
  else if decide (days <= 366) then "annual"
  else pretty days +:+ "-day".

Section TimeseriesMore.
Context `{BE : Backends} `{PC : !PointClouds} `{PS : !PySort}.

(** Lines 82-112: the body of the loop over the candidate periods. *)
Definition periodicity_of_window (ts : list float) (window : Z)
    (results : list periodicity) : res (list periodicity) :=
  if decide (Z.of_nat (length ts) < 3 * window) then Ok results
  else
    cloud ← takens_embedding ts window 2;
    dgm ← list_getitem (ripser_cloud cloud 1) 1;
    if decide (length dgm = 0%nat) then
      Ok (results ++ [ {| period_days := window;
                          pd_persistence := float_lit 0;
                          pd_confidence := float_lit 0;
                          pd_label := _period_label window |} ])%list
    else
      let lifespans := map (fun p => fsub (snd p) (fst p)) dgm in
      let max_persistence := np_max lifespans in
      let confidence :=
        fdiv max_persistence (fadd (np_mean lifespans) (float_lit (1 # 10000000000))) in
      Ok (results ++ [ {| period_days := window;
                          pd_persistence := max_persistence;
                          pd_confidence := py_min (fdiv confidence (float_lit 5)) (float_lit 1);
                          pd_label := _period_label window |} ])%list.

(** Lines 54-114.  [window_sizes] is [None] or a list; [.min()] of an empty
    array raises [ValueError]. *)
Definition detect_periodicity_sw1pers (time_series : list float)
    (window_sizes : option (list Z)) : res (list periodicity) :=
  let window_sizes := default [7; 14; 30; 90; 365] window_sizes in
  if decide (time_series = []) then Raise ValueError
  else
    let ts_min := np_min time_series in
    let ts_max := np_max time_series in
    let ts :=
      map (fun x => fdiv (fsub x ts_min)
                         (fadd (fsub ts_max ts_min) (float_lit (1 # 10000000000))))
          time_series in
    results ← for_each window_sizes (periodicity_of_window ts) [];
    Ok (sorted_desc pd_persistence results).

(** [np.diff(a)] *)
Definition np_diff (a : list float) : list float :=
  zip_with (fun x y => fsub y x) a (tail a).

(** Lines 143-170: the norm appended for the window that starts at [start].
    A [ValueError] of the embedding is caught (lines 155-160); the one of
    [.min()] on an empty window is not. *)
Definition window_norm (time_series : list float) (window_size start : Z) : res float :=
  let window := py_slice time_series start (start + window_size) in
  if decide (window = []) then Raise ValueError
  else
    let w_min := np_min window in
    let w_max := np_max window in
    if fltb (fsub w_max w_min) (float_lit (1 # 10000000000)) then Ok (float_lit 0)
    else
      let w_norm := map (fun x => fdiv (fsub x w_min) (fsub w_max w_min)) window in
      let delay := Z.max 1 (window_size / 7) in
      match takens_embedding w_norm delay 2 with
      | Raise ValueError => Ok (float_lit 0)
      | Raise e => Raise e
      | OutOfFuel => OutOfFuel
      | Ok cloud =>
          dgm ← list_getitem (ripser_cloud cloud 1) 1;
          if decide (length dgm = 0%nat) then Ok (float_lit 0)
          else
            let lifespans := map (fun p => fsub (snd p) (fst p)) dgm in
            let lifespans := filter (fun l => np_isfinite l = true) lifespans in
            Ok (np_sum (map (fun l => fmul l l) lifespans))
      end.

(** Lines 117-196. *)
Definition detect_regime_changes (time_series : list float) (window_size step : Z)
    : res (list change_point) :=
  starts ← py_range 0 (Z.of_nat (length time_series) - window_size) step;
  '(norms, positions) ←
    for_each starts
      (fun start '(norms, positions) =>
         norm ← window_norm time_series window_size start;
         Ok ((norms ++ [norm])%list, (positions ++ [start + window_size / 2])%list))
      ([], []);
  if decide (Z.of_nat (length norms) < 3) then Ok []
  else
    let diff := map np_abs (np_diff norms) in
    let threshold := fadd (np_mean diff) (fmul (float_of_Z 2) (np_std diff)) in
    if fltb threshold (float_lit (1 # 10000000000)) then Ok []
    else
      let change_indices :=
        map fst (filter (fun p => fgtb (snd p) threshold = true)
                        (zip (py_range1 (Z.of_nat (length diff))) diff)) in
      mapM (fun i =>
              pos ← list_getitem positions i;
              d ← list_getitem diff i;
              before ← list_getitem norms i;
              after ← list_getitem norms (i + 1);
              Ok {| cp_position := pos;
                    cp_severity := fdiv d threshold;
                    norm_before := before;
                    norm_after := after |})
           change_indices.

End TimeseriesMore.

(** ** simplicial.py *)

(** Python does not specify the order in which a [set] is iterated.  The
    order is an interface: any enumeration of the elements, each once. *)
Class SetOrder : Type := {
  set_iter : forall {A : Type} `{Countable A}, gset A -> list A;
  set_iter_perm : forall {A : Type} `{Countable A} (X : gset A),
    set_iter X ≡ₚ elements X;
}.

(** The order of Python's [str] comparison ([sorted] on strings). *)
Definition str_le (a b : string) : Prop := String.leb a b = true.

Global Instance str_le_dec (a b : string) : Decision (str_le a b).
Proof. unfold str_le. apply _. Defined.

(** [tuple(sorted(s))] *)
Definition sorted (s : list string) : list string := merge_sort str_le s.

(** [itertools.combinations(l, k)], in the order the iterator yields them. *)
Fixpoint combinations {A : Type} (l : list A) (k : nat) : list (list A) :=
  match k with
  | O => [[]]
  | S k' =>
      match l with
      | [] => []
      | x :: l' => (map (cons x) (combinations l' k') ++ combinations l' k)%list
      end
  end.

(** The binomial coefficient, by Pascal's rule. *)
Fixpoint choose (n k : nat) : nat :=
  match k with
  | O => 1
  | S k' =>
      match n with
      | O => 0
      | S n' => choose n' k' + choose n' k
      end
  end.

(** A booking: ["venue_id"] and ["event_id"] are required, ["vendor_ids"]
    and ["timeslot_id"] are read with [booking.get]. *)
Record booking : Type := {
  venue_id : string;
  event_id : string;
  vendor_ids : option (list string);
  timeslot_id : option string;
}.

(** Lines 43-50: the entities of one booking, venue, event and timeslot
    first, then the vendors. *)
Definition all_entities (b : booking) : list string :=
  let venue := "venue:" +:+ venue_id b in
  let event := "event:" +:+ event_id b in
  let timeslot := "timeslot:" +:+ default "default" (timeslot_id b) in
  let vendors := map (fun vid => "vendor:" +:+ vid) (default [] (vendor_ids b)) in
  ([venue; event; timeslot] ++ vendors)%list.

(** [d[k].extend(xs)] on a [defaultdict(list)]. *)
Definition extend {A : Type} (d : gmap Z (list A)) (k : Z) (xs : list A) : gmap Z (list A) :=
  <[k := (default [] (d !! k) ++ xs)%list]> d.

(** [max(d.keys()) if d else 0] *)
Definition max_key {A : Type} (d : gmap Z A) : Z :=
  match elements (dom d) with
  | [] => 0
  | k :: ks => foldr Z.max k ks
  end.

(** [d.get(k, [])] *)
Definition get_list {A : Type} (d : gmap Z (list A)) (k : Z) : list A :=
  default [] (d !! k).

Section Simplicial.
Context `{SO : SetOrder}.

(** Lines 183-187: [find] with path halving.  The budget bounds the number
    of iterations of the [while] loop. *)
Fixpoint find (fuel : nat) (parent : gmap string string) (x : string)
    : res (string * gmap string string) :=
  match fuel with
  | O => OutOfFuel
  | S fuel' =>
      px ← getitem parent x;
      if decide (px ≠ x) then
        ppx ← getitem parent px;
        let parent := <[x := ppx]> parent in
        x' ← getitem parent x;
        find fuel' parent x'
      else Ok (x, parent)
  end.

(** Lines 189-192. *)
Definition union (fuel : nat) (parent : gmap string string) (a b : string)
    : res (gmap string string) :=
  '(ra, parent) ← find fuel parent a;
  '(rb, parent) ← find fuel parent b;
  if decide (ra ≠ rb) then Ok (<[ra := rb]> parent) else Ok parent.

(** Lines 179-199: the number of connected components. *)
Definition count_components (fuel : nat) (k_simplices edges : list (list string)) : res Z :=
  s0 ← mapM (fun s => list_getitem s 0) k_simplices;
  let vertices : gset string := list_to_set s0 in
  let parent : gmap string string := set_to_map (fun v => (v, v)) vertices in
  parent ←
    for_each edges
      (fun edge parent =>
         if decide (length edge = 2%nat) then
           a ← list_getitem edge 0;
           b ← list_getitem edge 1;
           union fuel parent a b
         else Ok parent)
      parent;
  '(roots, _) ←
    for_each (set_iter vertices)
      (fun v '(roots, parent) =>
         '(r, parent) ← find fuel parent v;
         Ok ({[r]} ∪ roots, parent))
      ((∅ : gset string), parent);
  Ok (Z.of_nat (size roots)).

Definition _compute_betti_numbers (fuel : nat) (simplices_by_dim : gmap Z (list (list string)))
    : res (gmap string Z) :=
  let max_dim := max_key simplices_by_dim in
  for_each (py_range1 (max_dim + 1))
    (fun k betti =>
       let key := "beta_" +:+ pretty k in
       let k_simplices := get_list simplices_by_dim k in
       if decide (k_simplices = []) then Ok (<[key := 0]> betti)
       else if decide (k = 0) then
         let edges := get_list simplices_by_dim 1 in
         components ← count_components fuel k_simplices edges;
         Ok (<[key := components]> betti)
       else
         let n_k := Z.of_nat (length k_simplices) in
         let n_k_plus_1 := Z.of_nat (length (get_list simplices_by_dim (k + 1))) in
         let n_k_minus_1 := Z.of_nat (length (get_list simplices_by_dim (k - 1))) in
         Ok (<[key := Z.max 0 (n_k - n_k_minus_1 - n_k_plus_1)]> betti))
    ∅.

(** Lines 42-65: what one booking adds to [entities] and [simplices_by_dim]. *)
Definition add_booking (b : booking)
    (st : gset string * gmap Z (list (list string)))
    : gset string * gmap Z (list (list string)) :=
  let '(entities, simplices_by_dim) := st in
  let ents := all_entities b in
  let entities := foldl (fun acc e => {[e]} ∪ acc) entities ents in
  let simplices_by_dim := extend simplices_by_dim 1 (combinations ents 2) in
  let simplices_by_dim := extend simplices_by_dim 2 (combinations ents 3) in
  let simplices_by_dim :=
    if decide (4 <= Z.of_nat (length ents))
    then extend simplices_by_dim 3 (combinations ents 4)
    else simplices_by_dim in
  (entities, simplices_by_dim).

(** Lines 39-65: [entities] and [simplices_by_dim] after the loop over the
    bookings, before deduplication. *)
Definition raw_simplices (bookings : list booking)
    : gset string * gmap Z (list (list string)) :=
  foldl (fun st b => add_booking b st) (∅, ∅) bookings.

(** Lines 39-74: the simplices per dimension, deduplicated, with the
    vertices stored under dimension 0. *)
Definition booking_simplices (bookings : list booking)
    : gset string * gmap Z (list (list string)) :=
  let '(entities, simplices_by_dim) := foldl (fun st b => add_booking b st) (∅, ∅) bookings in
  let simplices_by_dim :=
    (fun l => set_iter (list_to_set (map sorted l) : gset (list string)))
      <$> simplices_by_dim in
  let simplices_by_dim := <[0 := map (fun e => [e]) (set_iter entities)]> simplices_by_dim in
  (entities, simplices_by_dim).

End Simplicial.

(** *** The Hodge summary *)

(** [np.sort(a)]: a rearrangement of [a]. *)
Class NumPySort `{NumPy} : Type := {
  np_sort : list float -> list float;
  np_sort_perm : forall l, np_sort l ≡ₚ l;
}.

(** The dictionary [_hodge_analysis_simplified] returns: ["patterns"] is
    only set by the early returns, the two counts only by the last one. *)
Record hodge_analysis `{NumPy} : Type := {
  gradient_strength : float;
  curl_detected : bool;
  patterns : option (list string);
  num_triangles : option Z;
  num_tetrahedra : option Z;
}.

(** Lines 229-231: [venue_counts[venue] += 1] on a [defaultdict(int)], the
    dictionary as the list of its items in insertion order. *)
Definition count_venue (venue_counts : list (string * Z)) (venue : string)
    : list (string * Z) :=
  if decide (venue ∈ map fst venue_counts) then
    map (fun kc => if decide (fst kc = venue) then (fst kc, snd kc + 1) else kc) venue_counts
  else (venue_counts ++ [(venue, 1)])%list.

Definition venue_counts_of (bookings : list booking) : list (string * Z) :=
  foldl (fun venue_counts b => count_venue venue_counts (venue_id b)) [] bookings.

(** The number of bookings counted. *)
Definition sum_counts (venue_counts : list (string * Z)) : Z :=
  foldr Z.add 0 (map snd venue_counts).

Section Hodge.
Context `{NP : NumPy} `{NS : !NumPySort}.

Definition hodge_nothing : hodge_analysis :=
  {| gradient_strength := float_lit 0; curl_detected := false;
     patterns := Some []; num_triangles := None; num_tetrahedra := None |}.

(** Lines 214-253. *)
Definition _hodge_analysis_simplified (simplices_by_dim : gmap Z (list (list string)))
    (bookings : list booking) : hodge_analysis :=
  let venue_counts := venue_counts_of bookings in
  if decide (venue_counts = []) then hodge_nothing
  else
    let counts := map (fun kc => float_of_Z (snd kc)) venue_counts in
    let total := np_sum counts in
    if negb (fneb total (float_of_Z 0)) then hodge_nothing
    else
      let sorted_counts := np_sort counts in
      let n := Z.of_nat (length sorted_counts) in
      let index := map float_of_Z (seqZ 1 n) in
      let gini :=
        fsub (fdiv (fmul (float_of_Z 2) (np_sum (zip_with fmul index sorted_counts)))
                   (fmul (float_of_Z n) (np_sum sorted_counts)))
             (fdiv (float_of_Z (n + 1)) (float_of_Z n)) in
      {| gradient_strength := if fgtb gini (float_lit 0) then gini else float_lit 0;
         curl_detected := bool_decide (0 < Z.of_nat (length (get_list simplices_by_dim 2)));
         patterns := None;
         num_triangles := Some (Z.of_nat (length (get_list simplices_by_dim 2)));
         num_tetrahedra := Some (Z.of_nat (length (get_list simplices_by_dim 3))) |}.

End Hodge.

(** *** The complex *)

(** The dictionary [build_booking_simplicial_complex] returns. *)
Record complex_result `{NumPy} : Type := {
  simplices : gmap Z (list (list string));
  counts : gmap string Z;
  num_entities : Z;
  betti_numbers : gmap string Z;
  hodge : hodge_analysis;
}.

Section Complex.
Context `{SO : SetOrder} `{NP : NumPy} `{NS : !NumPySort}.

(** Lines 23-94. *)
Definition build_booking_simplicial_complex (fuel : nat) (bookings : list booking)
    : res complex_result :=
  let '(entities, simplices_by_dim) := booking_simplices bookings in
  betti ← _compute_betti_numbers fuel simplices_by_dim;
  let hodge := _hodge_analysis_simplified simplices_by_dim bookings in
  Ok {| simplices := simplices_by_dim;
        counts := kmap (fun dim : Z => "dim_" +:+ pretty dim)
                       ((fun simps => Z.of_nat (length simps)) <$> simplices_by_dim);
        num_entities := Z.of_nat (size entities);
        betti_numbers := betti;
        hodge := hodge |}.

End Complex.

(** *** Vendor and venue affinities *)

(** One entry of ["affinities"]. *)
Record affinity `{NumPy} : Type := {
  af_venue_id : string;
  af_vendor_id : string;
  affinity_score : float;
  booking_count : Z;
}.

(** The dictionary [analyze_vendor_venue_affinities] returns: ["patterns"]
    is only set by the early return, the last three entries only by the
    other one. *)
Record affinity_report `{NumPy} : Type := {
  affinities : list affinity;
  af_patterns : option (list string);
  num_venues : option Z;
  num_vendors : option Z;
  density : option float;
}.

(** Lines 113-118: what one booking adds to [venue_vendor_counts],
    [vendor_set] and [venue_set]. *)
Definition count_booking (b : booking)
    (st : gmap (string * string) Z * gset string * gset string)
    : gmap (string * string) Z * gset string * gset string :=
  let '(venue_vendor_counts, vendor_set, venue_set) := st in
  let venue_set := {[venue_id b]} ∪ venue_set in
  let '(venue_vendor_counts, vendor_set) :=
    foldl (fun '(venue_vendor_counts, vendor_set) vid =>
             (<[(venue_id b, vid) :=
                  default 0 (venue_vendor_counts !! (venue_id b, vid)) + 1]>
                venue_vendor_counts,
              {[vid]} ∪ vendor_set))
          (venue_vendor_counts, vendor_set) (default [] (vendor_ids b)) in
  (venue_vendor_counts, vendor_set, venue_set).

(** The (venue, vendor) pairs of the bookings, one per listed vendor, and
    how often a pair occurs. *)
Definition venue_vendor_pairs (bookings : list booking) : list (string * string) :=
  flat_map (fun b => map (fun vid => (venue_id b, vid)) (default [] (vendor_ids b)))
           bookings.

Definition pair_count (bookings : list booking) (venue vendor : string) : Z :=
  Z.of_nat (length (filter (fun p => p = (venue, vendor)) (venue_vendor_pairs bookings))).

Section Affinities.
Context `{SO : SetOrder} `{NP : NumPy} `{PS : !PySort}.

(** Lines 97-156. *)
Definition analyze_vendor_venue_affinities (bookings : list booking) : affinity_report :=
  let '(venue_vendor_counts, vendor_set, venue_set) :=
    foldl (fun st b => count_booking b st) (∅, ∅, ∅) bookings in
  let venues := sorted (set_iter venue_set) in
  let vendors := sorted (set_iter vendor_set) in
  if decide (venues = [] \/ vendors = []) then
    {| affinities := []; af_patterns := Some [];
       num_venues := None; num_vendors := None; density := None |}
  else
    let affinity_matrix :=
      map (fun v =>
             map (fun vd => float_of_Z (default 0 (venue_vendor_counts !! (v, vd))))
                 vendors)
          venues in
    let row_sums :=
      map (fun row => let s := np_sum row in
                      if negb (fneb s (float_of_Z 0)) then float_lit 1 else s)
          affinity_matrix in
    let normalized :=
      zip_with (fun row s => map (fun x => fdiv x s) row) affinity_matrix row_sums in
    let found :=
      flat_map
        (fun '(venue, (row, nrow)) =>
           flat_map
             (fun '(vendor, (x, nx)) =>
                if fgtb nx (float_lit (1 # 10)) then
                  [ {| af_venue_id := venue; af_vendor_id := vendor;
                       affinity_score := nx; booking_count := int_of_float x |} ]
                else [])
             (zip vendors (zip row nrow)))
        (zip venues (zip affinity_matrix normalized)) in
    let found := sorted_desc affinity_score found in
    let nonzero :=
      length (filter (fun x => fneb x (float_of_Z 0) = true) (concat affinity_matrix)) in
    {| affinities := take 50 found;
       af_patterns := None;
       num_venues := Some (Z.of_nat (length venues));
       num_vendors := Some (Z.of_nat (length vendors));
       density :=
         Some (fdiv (float_of_Z (Z.of_nat nonzero))
                    (float_of_Z (Z.of_nat (length venues) * Z.of_nat (length vendors)))) |}.

End Affinities.

(** *** The finite lifespans of a diagram

    The notion the statistics of the vectorizer are compared with, read off
    the diagram one feature at a time: the lifespan of a feature is its death
    minus its birth, and the finite lifespans of a diagram are the lifespans
    of its features that are finite numbers, in the order of the diagram. *)
Fixpoint lifespans_that_are_finite `{NumPy} (dgm : diagram) : list float :=
  match dgm with
  | [] => []
  | (birth, death) :: dgm' =>
      if np_isfinite (fsub death birth)
      then fsub death birth :: lifespans_that_are_finite dgm'
      else lifespans_that_are_finite dgm'
  end.

(** *** Connected components of a graph

    The notion the Betti number [beta_0] is compared with: the graph has the
    vertex set [V], and an edge between [a] and [b] for every pair [(a, b)] of
    the list of edges. *)
Definition edge_rel (edges : list (list string)) (a b : string) : Prop :=
  [a; b] ∈ edges.

(** Two vertices are connected when a chain of edges, taken in either
    direction, leads from one to the other. *)
Definition connected (edges : list (list string)) : relation string :=
  rtsc (edge_rel edges).

(** The graph has [n] connected components: there are [n] vertices, one in
    every component and no two in the same one. *)
Definition num_components (V : gset string) (edges : list (list string)) (n : Z) : Prop :=
  exists reps : list string,
    Z.of_nat (length reps) = n /\ NoDup reps /\
    (forall r, r ∈ reps -> r ∈ V) /\
    (forall v, v ∈ V -> exists r, r ∈ reps /\ connected edges v r) /\
    (forall r1 r2, r1 ∈ reps -> r2 ∈ reps -> connected edges r1 r2 -> r1 = r2).

(** The forest the dictionary [parent] of the union-find encodes: [r] is the
    root of the tree of [x]. *)
Inductive root_of (parent : gmap string string) : string -> string -> Prop :=
| root_here (r : string) :
    parent !! r = Some r -> root_of parent r r
| root_step (x px r : string) :
    parent !! x = Some px -> px ≠ x -> root_of parent px r -> root_of parent x r.

(** [parent] is a forest over its own keys: parents are keys, and a height
    [h], at most [n], increases strictly from a key to its parent. *)
Definition forest (parent : gmap string string) (h : string -> nat) (n : nat) : Prop :=
  (forall x p, parent !! x = Some p -> is_Some (parent !! p)) /\
  (forall x p, parent !! x = Some p -> p ≠ x -> (h x < h p)%nat) /\
  (forall x, (h x <= n)%nat).

(** Two keys are in the same tree. *)
Definition same_tree (parent : gmap string string) (x y : string) : Prop :=
  exists r, root_of parent x r /\ root_of parent y r.

(** ** A reference implementation of the interfaces

    Exact rational arithmetic extended with infinities stands in for the
    floating-point numbers, so that the embedded functions can be run on
    concrete inputs.  The theorems of the development are proved for every
    implementation of the interfaces; this one provides the concrete runs. *)
Module Ref.

Inductive qfloat : Type :=
| Fin (q : Q)
| Inf (negative : bool)
| NaN.

Definition qf_add (a b : qfloat) : qfloat :=
  match a, b with
  | Fin x, Fin y => Fin (Qred (x + y))
  | Fin _, Inf s | Inf s, Fin _ => Inf s
  | Inf s, Inf t => if Bool.eqb s t then Inf s else NaN
  | _, _ => NaN
  end.

Definition qf_neg (a : qfloat) : qfloat :=
  match a with
  | Fin x => Fin (Qred (- x))
  | Inf s => Inf (negb s)
  | NaN => NaN
  end.

Definition qf_sub (a b : qfloat) : qfloat := qf_add a (qf_neg b).

Definition qf_sign (x : Q) : comparison := (Qnum x ?= 0)%Z.

Definition qf_mul (a b : qfloat) : qfloat :=
  match a, b with
  | Fin x, Fin y => Fin (Qred (x * y))
  | Fin x, Inf s | Inf s, Fin x =>
      match qf_sign x with
      | Eq => NaN
      | Gt => Inf s
      | Lt => Inf (negb s)
      end
  | Inf s, Inf t => Inf (xorb s t)
  | _, _ => NaN
  end.

Definition qf_div (a b : qfloat) : qfloat :=
  match a, b with
  | Fin x, Fin y =>
      match qf_sign y, qf_sign x with
      | Eq, Eq => NaN
      | Eq, Gt => Inf false
      | Eq, Lt => Inf true
      | _, _ => Fin (Qred (x / y))
      end
  | Fin _, Inf _ => Fin 0
  | Inf s, Fin y => match qf_sign y with Lt => Inf (negb s) | _ => Inf s end
  | _, _ => NaN
  end.

Definition qf_ltb (a b : qfloat) : bool :=
  match a, b with
  | Fin x, Fin y => negb (Qle_bool y x)
  | Fin _, Inf s => negb s
  | Inf s, Fin _ => s
  | Inf s, Inf t => s && negb t
  | _, _ => false
  end.

Definition qf_eqb (a b : qfloat) : bool :=
  match a, b with
  | Fin x, Fin y => Qeq_bool x y
  | Inf s, Inf t => Bool.eqb s t
  | _, _ => false
  end.

Definition qf_isfinite (a : qfloat) : bool :=
  match a with Fin _ => true | _ => false end.

Definition qf_abs (a : qfloat) : qfloat :=
  match a with
  | Fin x => Fin (Qred (Qabs x))
  | Inf _ => Inf false
  | NaN => NaN
  end.

(** Square root to six decimals, and the logarithm through the first terms
    of its series in [(x-1)/(x+1)]. *)
Definition qf_sqrt (a : qfloat) : qfloat :=
  match a with
  | Fin x =>
      match qf_sign x with
      | Lt => NaN
      | _ => Fin (Qred (Z.sqrt (Qnum x * 1000000000000 / Z.pos (Qden x)) # 1000000))
      end
  | Inf false => Inf false
  | _ => NaN
  end.

Definition qf_log (a : qfloat) : qfloat :=
  match a with
  | Fin x =>
      match qf_sign x with
      | Lt => NaN
      | Eq => Inf true
      | Gt =>
          let y := ((x - 1) / (x + 1))%Q in
          Fin (Qred (2 * (y + y * y * y / 3 + y * y * y * y * y / 5)))
      end
  | Inf false => Inf false
  | _ => NaN
  end.

(** Truncation toward zero. *)
Definition qf_int (a : qfloat) : Z :=
  match a with
  | Fin x => Z.quot (Qnum x) (Z.pos (Qden x))
  | _ => 0
  end.

Definition qf_sum (l : list qfloat) : qfloat := foldl qf_add (Fin 0) l.

Definition qf_mean (l : list qfloat) : qfloat :=
  qf_div (qf_sum l) (Fin (inject_Z (Z.of_nat (length l)))).

Definition qf_std (l : list qfloat) : qfloat :=
  let m := qf_mean l in
  qf_sqrt (qf_mean (map (fun x => qf_mul (qf_sub x m) (qf_sub x m)) l)).

Definition qf_max (l : list qfloat) : qfloat :=
  match l with
  | [] => NaN
  | x :: l' => foldl (fun acc y => if qf_ltb acc y then y else acc) x l'
  end.

Definition qf_min (l : list qfloat) : qfloat :=
  match l with
  | [] => NaN
  | x :: l' => foldl (fun acc y => if qf_ltb y acc then y else acc) x l'
  end.

Definition qf_le (a b : qfloat) : Prop := qf_ltb b a = false.

Global Instance qf_le_dec (a b : qfloat) : Decision (qf_le a b).
Proof. unfold qf_le. apply _. Defined.

(** Linear interpolation between the order statistics, as
    [np.percentile] does by default. *)
Definition qf_percentile (l : list qfloat) (q : Z) : qfloat :=
  let s := merge_sort qf_le l in
  let n := Z.of_nat (length s) in
  let pos := Qred (inject_Z q / 100 * inject_Z (n - 1)) in
  let lo := Z.div (Qnum pos) (Z.pos (Qden pos)) in
  let frac := Qred (pos - inject_Z lo) in
  match s !! Z.to_nat lo, s !! Z.to_nat (lo + 1) with
  | Some a, Some b => qf_add a (qf_mul (Fin frac) (qf_sub b a))
  | Some a, None => a
  | _, _ => NaN
  end.

Definition qf_median (l : list qfloat) : qfloat := qf_percentile l 50.

(** A square array: its size and its entries. *)
Record qarray : Type := {
  qa_n : Z;
  qa_at : Z -> Z -> qfloat;
}.

Definition qa_ix (a : qarray) (idx : list Z) : qarray :=
  {| qa_n := Z.of_nat (length idx);
     qa_at := fun i j => qa_at a (nth (Z.to_nat i) idx 0) (nth (Z.to_nat j) idx 0) |}.

Definition qa_cov (rows : list (list qfloat)) : qarray :=
  {| qa_n := Z.of_nat (length rows);
     qa_at := fun i j =>
       let x := nth (Z.to_nat i) rows [] in
       let y := nth (Z.to_nat j) rows [] in
       let mx := qf_mean x in
       let my := qf_mean y in
       qf_div (qf_sum (zip_with (fun a b => qf_mul (qf_sub a mx) (qf_sub b my)) x y))
              (Fin (inject_Z (Z.of_nat (length x) - 1))) |}.

Definition qa_corrcoef (rows : list (list qfloat)) : qarray :=
  let c := qa_cov rows in
  {| qa_n := qa_n c;
     qa_at := fun i j =>
       qf_div (qa_at c i j) (qf_sqrt (qf_mul (qa_at c i i) (qa_at c j j))) |}.

Definition qa_rows (a : qarray) : list (list qfloat) :=
  map (fun i => map (fun j => qa_at a i j) (seqZ 0 (qa_n a))) (seqZ 0 (qa_n a)).

Definition qa_of_rows (rows : list (list qfloat)) : qarray :=
  {| qa_n := Z.of_nat (length rows);
     qa_at := fun i j => nth (Z.to_nat j) (nth (Z.to_nat i) rows []) NaN |}.

(** Gauss-Jordan elimination on the rows of [a | I]; [None] when no pivot
    is found in a column. *)
Fixpoint gauss_jordan (cols : list nat) (m : list (list qfloat)) : option (list (list qfloat)) :=
  match cols with
  | [] => Some m
  | c :: cols' =>
      let is_pivot (ir : nat * list qfloat) :=
        (c <=? fst ir)%nat && negb (qf_eqb (nth c (snd ir) NaN) (Fin 0))
                            && qf_isfinite (nth c (snd ir) NaN) in
      match filter (fun ir => is_pivot ir = true) (imap (fun i r => (i, r)) m) with
      | [] => None
      | (p, prow) :: _ =>
          let prow := map (fun x => qf_div x (nth c prow NaN)) prow in
          let swapped := <[c := prow]> (<[p := nth c m []]> m) in
          let cleared :=
            imap (fun i r =>
                    if (i =? c)%nat then r
                    else zip_with (fun x y => qf_sub x (qf_mul (nth c r NaN) y)) r prow)
                 swapped in
          gauss_jordan cols' cleared
      end
  end.

Definition qa_inv (a : qarray) : res qarray :=
  let n := Z.to_nat (qa_n a) in
  let aug :=
    imap (fun i r =>
            (r ++ map (fun j => if (i =? j)%nat then Fin 1 else Fin 0) (seq 0 n))%list)
         (qa_rows a) in
  match gauss_jordan (seq 0 n) aug with
  | Some m => Ok (qa_of_rows (map (drop n) m))
  | None => Raise LinAlgError
  end.

Global Instance numpy : NumPy := {|
  float := qfloat;
  float_lit := fun q => Fin (Qred q);
  float_of_Z := fun z => Fin (inject_Z z);
  int_of_float := qf_int;
  np_inf := Inf false;
  fadd := qf_add;
  fsub := qf_sub;
  fmul := qf_mul;
  fdiv := qf_div;
  fneg := qf_neg;
  fneb := fun a b => negb (qf_eqb a b);
  fltb := qf_ltb;
  fgtb := fun a b => qf_ltb b a;
  np_isfinite := qf_isfinite;
  np_log := qf_log;
  np_sqrt := qf_sqrt;
  np_abs := qf_abs;
  np_sum := qf_sum;
  np_mean := qf_mean;
  np_std := qf_std;
  np_median := qf_median;
  np_max := qf_max;
  np_min := qf_min;
  np_percentile := qf_percentile;
  ndarray := qarray;
  shape0 := qa_n;
  np_ix := qa_ix;
  np_corrcoef := qa_corrcoef;
  np_cov := qa_cov;
  nd_map := fun f a => {| qa_n := qa_n a; qa_at := fun i j => f (qa_at a i j) |};
  np_fill_diagonal := fun a x =>
    {| qa_n := qa_n a; qa_at := fun i j => if decide (i = j) then x else qa_at a i j |};
  np_eye := fun n =>
    {| qa_n := n; qa_at := fun i j => if decide (i = j) then Fin 1 else Fin 0 |};
  nd_scale := fun a x => {| qa_n := qa_n a; qa_at := fun i j => qf_mul (qa_at a i j) x |};
  nd_add := fun a b =>
    {| qa_n := qa_n a; qa_at := fun i j => qf_add (qa_at a i j) (qa_at b i j) |};
  np_linalg_inv := qa_inv;
  np_vecmat := fun v a =>
    map (fun j => qf_sum (imap (fun i x => qf_mul x (qa_at a (Z.of_nat i) j)) v))
        (seqZ 0 (qa_n a));
  np_dot := fun v w => qf_sum (zip_with qf_mul v w);
|}.

(** Stand-ins for the persistence back ends.  The dimension-0 diagram is
    that of the first two points of the array (one component dies at their
    distance, one never dies); higher dimensions have no features. *)
Definition two_point_diagram (a : qarray) (dim : Z) : list (qfloat * qfloat) :=
  if decide (dim = 0) then [ (Fin 0, qa_at a 0 1); (Fin 0, Inf false) ] else [].

Definition ref_ripser (a : qarray) (kw : @ripser_kwargs numpy) : list (list (qfloat * qfloat)) :=
  map (two_point_diagram a) (seqZ 0 (kw_maxdim kw + 1)).

(** The generator state is a counter [g]; draw number [g] takes every
    [(g+1)]-th index. *)
Definition ref_choice (g : Z) (n size : Z) : list Z * Z :=
  (map (fun i => (i * (g + 1)) `mod` n) (seqZ 0 size), g + 1).

Lemma ref_ripser_length (a : qarray) (kw : @ripser_kwargs numpy) :
  0 <= kw_maxdim kw -> length (ref_ripser a kw) = Z.to_nat (kw_maxdim kw + 1).
Proof. intros _. unfold ref_ripser. by rewrite length_map, length_seqZ. Qed.

Global Instance backends : @Backends numpy := {|
  ripser := ref_ripser;
  ripser_dgms_length := ref_ripser_length;
  gudhi_sparse_rips := fun a _ _ dim => two_point_diagram a dim;
  gudhi_alpha := fun _ dim => if decide (dim = 0) then [ (Fin 0, Inf false) ] else [];
  rng := Z;
  np_random_choice := ref_choice;
|}.

(** A sample input: [n] equally spaced points on a segment of length 1,
    as their distance matrix. *)
Definition line (n : Z) : @ndarray numpy :=
  {| qa_n := n; qa_at := fun i j => Fin (Qred (Qabs (inject_Z (i - j)) / inject_Z n)) |}.

(** A sample series: the values 1, ..., 5. *)
Definition sample_series : list (@float numpy) :=
  [Fin 1; Fin 2; Fin 3; Fin 4; Fin 5].

(** The initial state of the generator in the sample runs. *)
Definition seed0 : @rng numpy backends := 0.

(** A relation with two vendors: five entities. *)
Definition two_vendor_booking : booking :=
  {| venue_id := "hall"; event_id := "gala";
     vendor_ids := Some ["catering"; "music"]; timeslot_id := None |}.

(** A relation with one vendor: four entities. *)
Definition one_vendor_booking : booking :=
  {| venue_id := "hall"; event_id := "gala";
     vendor_ids := Some ["catering"]; timeslot_id := Some "friday" |}.

(** Two booking channels of fifteen samples: the first alternates between
    0 and 1, the second follows it but for sample 12. *)
Definition online_channel : list (@float numpy) :=
  map (fun i => Fin (inject_Z (i `mod` 2))) (seqZ 0 15).

Definition phone_channel : list (@float numpy) :=
  <[12%nat := Fin 1]> online_channel.

(** A relation at another venue. *)
Definition barn_booking : booking :=
  {| venue_id := "barn"; event_id := "fair";
     vendor_ids := Some ["music"]; timeslot_id := None |}.

(** Sample diagrams: two features of finite lifespan and one that never dies
    in dimension 0, a single feature that never dies in dimension 1, no
    diagram for dimension 2. *)
Definition sample_diagrams : gmap string (@diagram numpy) :=
  {[ "H0" := [ (Fin 0, Fin 1); (Fin 0, Fin 3); (Fin 0, Inf false) ];
     "H1" := [ (Fin 1, Inf false) ] ]}.

(** Reference versions of the remaining interfaces. *)
(** Stand-in for ripser on a point cloud.  It returns the diagrams of the
    dimensions asked for, but none beyond dimension [n - 2] for a cloud of
    [n] points.  Every diagram holds one feature, born at 0, that dies at
    the distance between the first and the last point of the cloud (the sum
    of their coordinate differences); the diagram of dimension 0 also holds
    one that never dies. *)
Definition cloud_span (cloud : list (list qfloat)) : qfloat :=
  qf_sum (zip_with (fun x y => qf_abs (qf_sub x y))
                   (default [] (head cloud)) (default [] (last cloud))).

Definition ref_ripser_cloud (cloud : list (list qfloat)) (maxdim : Z)
    : list (list (qfloat * qfloat)) :=
  map (fun dim => (Fin 0, cloud_span cloud)
                  :: (if decide (dim = 0) then [ (Fin 0, Inf false) ] else []))
      (seqZ 0 (Z.min (maxdim + 1) (Z.of_nat (length cloud) - 1))).

Global Instance point_clouds : @PointClouds numpy := {|
  ripser_cloud := ref_ripser_cloud;
|}.

(** A series of three samples. *)
Definition short_series : list (@float numpy) := [Fin 1; Fin 2; Fin 3].

(** A series with a late jump: nine samples at 1, then 2, then 1. *)
Definition jump_series : list (@float numpy) :=
  (replicate 9 (Fin 1) ++ [Fin 2; Fin 1])%list.

Global Instance py_sort : @PySort numpy := {|
  sorted_desc := fun A key l => merge_sort (fun a b => qf_le (key b) (key a)) l;
  sorted_desc_perm := fun A key l =>
    merge_sort_Permutation (fun a b => qf_le (key b) (key a)) l;
|}.

Global Instance numpy_sort : @NumPySort numpy := {|
  np_sort := merge_sort qf_le;
  np_sort_perm := merge_sort_Permutation qf_le;
|}.

Global Instance persim : @Persim numpy := {|
  wasserstein_distance := fun a b =>
    qf_abs (qf_sub (qf_sum (map (fun p => qf_sub (snd p) (fst p)) a))
                   (qf_sum (map (fun p => qf_sub (snd p) (fst p)) b)));
  bottleneck := fun a b =>
    qf_abs (qf_sub (qf_max (map (fun p => qf_sub (snd p) (fst p)) a))
                   (qf_max (map (fun p => qf_sub (snd p) (fst p)) b)));
|}.

Global Instance numpy_grid : @NumPyGrid numpy := {|
  np_linspace := fun a b n =>
    map (fun i => qf_add a (qf_mul (Fin (inject_Z i))
                                   (qf_div (qf_sub b a) (Fin (inject_Z (n - 1))))))
        (seqZ 0 n);
  np_linspace_length := fun a b n _ =>
    eq_trans (length_map _ _) (length_seqZ 0 n);
  np_exp := fun x => x;
|}.

(** Sets are iterated in the order of [elements]. *)
Global Instance set_order : SetOrder := {|
  set_iter := fun A _ _ X => elements X;
  set_iter_perm := fun A _ _ X => reflexivity (elements X);
|}.

End Ref.

(** * Properties *)

(** ** Loops and dictionaries *)

Lemma Hkey_inj : Inj (=) (=) Hkey.
Proof.
  intros x y Hxy. unfold Hkey in Hxy. simpl in Hxy.
  injection Hxy as Hxy. by apply (inj pretty).
Qed.

(** A loop whose body succeeds on every element is a left fold. *)
Lemma for_each_pure {A S : Type} (xs : list A) (body : A -> S -> res S)
    (step : S -> A -> S) (s : S) :
  (forall x s', x ∈ xs -> body x s' = Ok (step s' x)) ->
  for_each xs body s = Ok (foldl step s xs).
Proof.
  revert s. induction xs as [|x xs IH]; intros s Hbody; simpl; [done|].
  rewrite Hbody by left. simpl. apply IH.
  intros y s' Hy. apply Hbody. by right.
Qed.

(** A fold that stores [val x] under [key x] for every [x] of a list. *)
Lemma lookup_foldl_insert {A V : Type} (key : A -> string) (val : A -> V)
    (xs : list A) (m : gmap string V) (k : string) :
  (forall x, x ∈ xs -> key x ≠ k) ->
  foldl (fun acc x => <[key x := val x]> acc) m xs !! k = m !! k.
Proof.
  revert m. induction xs as [|x xs IH]; intros m Hk; simpl; [done|].
  rewrite IH by (intros y Hy; apply Hk; by right).
  apply lookup_insert_ne, Hk. by left.
Qed.

Lemma lookup_foldl_insert_elem {A V : Type} (key : A -> string) (val : A -> V)
    (xs : list A) (m : gmap string V) (x : A) :
  Inj (=) (=) key -> x ∈ xs ->
  foldl (fun acc x => <[key x := val x]> acc) m xs !! key x = Some (val x).
Proof.
  intros Hinj. induction xs as [|y xs IH] using rev_ind; intros Hx.
  - by apply elem_of_nil in Hx.
  - rewrite foldl_snoc. destruct (decide (key y = key x)) as [Heq|Hne].
    + apply Hinj in Heq as ->. apply lookup_insert_eq.
    + rewrite lookup_insert_ne by done. apply IH.
      apply elem_of_app in Hx as [?|Hx%list_elem_of_singleton]; [done|].
      by subst.
Qed.

(** Two dictionaries filled by the same loop are two folds. *)
Lemma foldl_pair {A B C : Type} (f : B -> A -> B) (g : C -> A -> C)
    (xs : list A) (b : B) (c : C) :
  foldl (fun '(b, c) x => (f b x, g c x)) (b, c) xs = (foldl f b xs, foldl g c xs).
Proof. revert b c. induction xs as [|x xs IH]; intros b c; simpl; [done|]. apply IH. Qed.

Lemma elem_of_py_range1 (n d : Z) : d ∈ py_range1 n <-> 0 <= d < n.
Proof. unfold py_range1. rewrite elem_of_seqZ. lia. Qed.

Lemma getitem_Some {V : Type} (d : gmap string V) (k : string) (v : V) :
  d !! k = Some v -> getitem d k = Ok v.
Proof. intros Hd. unfold getitem. by rewrite Hd. Qed.

Lemma list_getitem_Some {A : Type} (l : list A) (i : Z) (a : A) :
  0 <= i -> l !! Z.to_nat i = Some a -> list_getitem l i = Ok a.
Proof. intros Hi Hl. unfold list_getitem. rewrite decide_True by done. by rewrite Hl. Qed.

(** ** persistence.py *)

Section PersistenceFacts.
Context `{BE : Backends}.

(** The arguments [compute_persistence] hands to ripser. *)
Definition rips_kwargs (max_dim : Z) (threshold : option float) (n_perm : option Z)
    : ripser_kwargs :=
  {| kw_maxdim := max_dim; kw_distance_matrix := true;
     kw_thresh := threshold; kw_n_perm := n_perm |}.

(** The diagram ripser reports for dimension [d]. *)
Definition rips_diagram (a : ndarray) (max_dim : Z) (threshold : option float)
    (n_perm : option Z) (d : Z) : diagram :=
  default [] (ripser a (rips_kwargs max_dim threshold n_perm) !! Z.to_nat d).

(** The statistics dictionary of a ripser diagram. *)
Definition rips_stats (dgm : diagram) : gmap string value :=
  lifespan_stats (lifespans_of (finite_rows dgm)).

Lemma ripser_lookup (a : ndarray) (max_dim : Z) th np (d : Z) :
  0 <= d <= max_dim ->
  ripser a (rips_kwargs max_dim th np) !! Z.to_nat d
  = Some (rips_diagram a max_dim th np d).
Proof.
  intros Hd. unfold rips_diagram.
  destruct (ripser a (rips_kwargs max_dim th np) !! Z.to_nat d) eqn:E; [done|].
  apply lookup_ge_None in E.
  rewrite ripser_dgms_length in E by (simpl; lia). simpl in E. lia.
Qed.

(** [compute_persistence] always returns: every requested dimension gets
    the diagram ripser reports and the statistics of its finite lifespans,
    and no other key is set. *)
Lemma compute_persistence_spec (a : ndarray) (max_dim : Z) th np :
  exists r,
    compute_persistence a max_dim th np = Ok r /\
    num_points r = shape0 a /\ method r = None /\
    (forall d, 0 <= d <= max_dim ->
       diagrams r !! Hkey d = Some (rips_diagram a max_dim th np d) /\
       stats r !! Hkey d = Some (rips_stats (rips_diagram a max_dim th np d))) /\
    (forall k, (forall d, 0 <= d <= max_dim -> Hkey d ≠ k) ->
       diagrams r !! k = None /\ stats r !! k = None).
Proof.
  unfold compute_persistence. fold (rips_kwargs max_dim th np).
  erewrite (for_each_pure _ _
    (fun '(dgms, sts) dim =>
       (<[Hkey dim := rips_diagram a max_dim th np dim]> dgms,
        <[Hkey dim := rips_stats (rips_diagram a max_dim th np dim)]> sts))).
  2:{ intros d [dgms sts] Hd%elem_of_py_range1.
      rewrite (list_getitem_Some _ _ (rips_diagram a max_dim th np d));
        [done|lia|apply ripser_lookup; lia]. }
  rewrite foldl_pair. simpl. eexists. split; [done|]. simpl.
  split; [done|]. split; [done|]. split.
  - intros d Hd. split.
    + apply (lookup_foldl_insert_elem Hkey (rips_diagram a max_dim th np)).
      * apply Hkey_inj.
      * apply elem_of_py_range1. lia.
    + apply (lookup_foldl_insert_elem Hkey
               (fun d => rips_stats (rips_diagram a max_dim th np d))).
      * apply Hkey_inj.
      * apply elem_of_py_range1. lia.
  - intros k Hk. split.
    + rewrite (lookup_foldl_insert Hkey (rips_diagram a max_dim th np)); [done|].
      intros d Hd%elem_of_py_range1. apply Hk. lia.
    + rewrite (lookup_foldl_insert Hkey
                 (fun d => rips_stats (rips_diagram a max_dim th np d))); [done|].
      intros d Hd%elem_of_py_range1. apply Hk. lia.
Qed.

(** The statistics dictionary of a diagram of the sparse path, whose
    finite rows are selected with [np.isfinite]. *)
Definition sparse_stats (intervals : diagram) : gmap string value :=
  lifespan_stats (lifespans_of (filter (fun p => np_isfinite (snd p) = true) intervals)).

Lemma gudhi_sparse_spec (a : ndarray) (max_dim : Z) :
  let st := gudhi_sparse_rips a (float_lit (3 # 10)) (max_dim + 1) in
  exists r,
    _gudhi_sparse_persistence a max_dim = Ok r /\
    num_points r = shape0 a /\ method r = None /\
    (forall d, 0 <= d <= max_dim ->
       diagrams r !! Hkey d = Some (st d) /\
       stats r !! Hkey d = Some (sparse_stats (st d))) /\
    (forall k, (forall d, 0 <= d <= max_dim -> Hkey d ≠ k) ->
       diagrams r !! k = None /\ stats r !! k = None).
Proof.
  intros st. unfold _gudhi_sparse_persistence. fold st.
  erewrite (for_each_pure _ _
    (fun '(dgms, sts) dim =>
       (<[Hkey dim := st dim]> dgms, <[Hkey dim := sparse_stats (st dim)]> sts))).
  2:{ intros d [dgms sts] _. destruct (decide (length (st d) = 0%nat)) as [E|E]; [|done].
      apply nil_length_inv in E. unfold sparse_stats. by rewrite E. }
  rewrite foldl_pair. simpl. eexists. split; [done|]. simpl.
  split; [done|]. split; [done|]. split.
  - intros d Hd. split.
    + apply (lookup_foldl_insert_elem Hkey st); [apply Hkey_inj|].
      apply elem_of_py_range1. lia.
    + apply (lookup_foldl_insert_elem Hkey (fun d => sparse_stats (st d)));
        [apply Hkey_inj|].
      apply elem_of_py_range1. lia.
  - intros k Hk. split.
    + rewrite (lookup_foldl_insert Hkey st); [done|].
      intros d Hd%elem_of_py_range1. apply Hk. lia.
    + rewrite (lookup_foldl_insert Hkey (fun d => sparse_stats (st d))); [done|].
      intros d Hd%elem_of_py_range1. apply Hk. lia.
Qed.

(** C1.  The strategy of [compute_persistence_scaled] is chosen from the
    point count [n] alone.  For [n <= 3000] every requested dimension holds
    the diagram of one exact ripser run at threshold 0.8.  For
    [3001 <= n <= 10000] dimensions 0 and 1 come from a ripser run with
    [maxdim=1] at threshold 0.8, and dimension 2 (diagram and statistics)
    from a run with [maxdim=2] at threshold 0.5 on a greedy permutation of
    [min(n, 2000)] points, and the result holds nothing else.  For
    [10001 <= n <= 50000] every requested dimension holds the diagram of
    the sparse Rips complex with slack 0.3. *)
Theorem scaled_strategy_by_point_count (a : ndarray) (max_dim : Z) (g : rng) :
  let n := shape0 a in
  let t08 := Some (float_lit (8 # 10)) in
  let t05 := Some (float_lit (5 # 10)) in
  (n <= 3000 ->
     exists r, compute_persistence_scaled a max_dim g = Ok (r, g) /\
       forall d, 0 <= d <= max_dim ->
         diagrams r !! Hkey d = Some (rips_diagram a max_dim t08 None d) /\
         stats r !! Hkey d = Some (rips_stats (rips_diagram a max_dim t08 None d)))
  /\
  (3001 <= n <= 10000 ->
     exists r, compute_persistence_scaled a max_dim g = Ok (r, g) /\
       (forall d, 0 <= d <= 1 ->
          diagrams r !! Hkey d = Some (rips_diagram a 1 t08 None d) /\
          stats r !! Hkey d = Some (rips_stats (rips_diagram a 1 t08 None d))) /\
       diagrams r !! "H2" = Some (rips_diagram a 2 t05 (Some (Z.min n 2000)) 2) /\
       stats r !! "H2" =
         Some (rips_stats (rips_diagram a 2 t05 (Some (Z.min n 2000)) 2)) /\
       (forall k, (forall d, 0 <= d <= 2 -> Hkey d ≠ k) ->
          diagrams r !! k = None /\ stats r !! k = None))
  /\
  (10001 <= n <= 50000 ->
     exists r, compute_persistence_scaled a max_dim g = Ok (r, g) /\
       forall d, 0 <= d <= max_dim ->
         diagrams r !! Hkey d =
           Some (gudhi_sparse_rips a (float_lit (3 # 10)) (max_dim + 1) d) /\
         stats r !! Hkey d =
           Some (sparse_stats (gudhi_sparse_rips a (float_lit (3 # 10)) (max_dim + 1) d))).
Proof.
  intros n t08 t05. unfold compute_persistence_scaled.
  fold n. fold t08. fold t05. split; [|split].
  - intros Hn. rewrite decide_True by done.
    destruct (compute_persistence_spec a max_dim t08 None) as (r & -> & _ & _ & Hd & _).
    exists r. split; [done|]. apply Hd.
  - intros Hn. rewrite decide_False by lia. rewrite decide_True by lia.
    destruct (compute_persistence_spec a 1 t08 None) as (r01 & -> & _ & _ & H01 & N01).
    destruct (compute_persistence_spec a 2 t05 (Some (Z.min n 2000)))
      as (r2 & -> & _ & _ & H2 & _).
    simpl. destruct (H2 2 ltac:(lia)) as [D2 S2].
    change (Hkey 2) with "H2" in D2, S2.
    unfold getitem. rewrite D2, S2. simpl.
    eexists. split; [done|]. simpl. split; [|split; [|split]].
    + intros d Hd. destruct (H01 d Hd) as [D S].
      assert (Hne : "H2" ≠ Hkey d).
      { change "H2" with (Hkey 2). intros E%Hkey_inj. lia. }
      by rewrite !lookup_insert_ne.
    + apply lookup_insert_eq.
    + apply lookup_insert_eq.
    + intros k Hk.
      assert (Hne : "H2" ≠ k) by (change "H2" with (Hkey 2); apply Hk; lia).
      rewrite !lookup_insert_ne by done.
      apply N01. intros d Hd. apply Hk. lia.
  - intros Hn. rewrite !decide_False by lia. rewrite decide_True by lia.
    destruct (gudhi_sparse_spec a max_dim) as (r & -> & _ & _ & Hd & _).
    exists r. split; [done|]. apply Hd.
Qed.

(** The entropy of line 68, and the inter-quartile range of lines 75-77. *)
Definition entropy_of (lifespans : list float) : float :=
  fneg (np_sum (map (fun p => fmul p (np_log (fadd p eps)))
                    (map (fun l => fdiv l (fadd (np_sum lifespans) eps)) lifespans))).

Definition iqr_of (lifespans : list float) : float :=
  fsub (np_percentile lifespans 75) (np_percentile lifespans 25).

(** The keys of the statistics of a dimension with finite features. *)
Definition full_stats_keys : gset string :=
  {["count"; "mean_lifespan"; "std_lifespan"; "median_lifespan";
    "max_lifespan"; "iqr_lifespan"; "entropy"]}.

Lemma lifespan_stats_nil : lifespan_stats [] = <["count" := VInt 0]> ∅.
Proof. done. Qed.

Lemma lifespan_stats_count (ls : list float) :
  lifespan_stats ls !! "count" = Some (VInt (Z.of_nat (length ls))).
Proof.
  unfold lifespan_stats. case_decide as Hlen.
  - apply lookup_insert_eq.
  - rewrite lookup_insert_eq. do 2 f_equal. lia.
Qed.

Lemma lifespan_stats_full (ls : list float) :
  ls ≠ [] ->
  let s := lifespan_stats ls in
  dom s = full_stats_keys /\
  s !! "count" = Some (VInt (Z.of_nat (length ls))) /\
  s !! "mean_lifespan" = Some (VFloat (np_mean ls)) /\
  s !! "std_lifespan" = Some (VFloat (np_std ls)) /\
  s !! "median_lifespan" = Some (VFloat (np_median ls)) /\
  s !! "max_lifespan" = Some (VFloat (np_max ls)) /\
  s !! "iqr_lifespan" = Some (VFloat (iqr_of ls)) /\
  s !! "entropy" = Some (VFloat (entropy_of ls)).
Proof.
  intros Hne s. subst s. unfold lifespan_stats.
  rewrite decide_True by (destruct ls; [done|simpl; lia]).
  split; [|repeat split; by simplify_map_eq].
  rewrite !dom_insert_L, dom_empty_L. unfold full_stats_keys. set_solver.
Qed.


(** C8 (as amended).  For a dimension with at least one finite lifespan the
    statistics dictionary has exactly the keys count, mean, standard
    deviation, median, maximum, inter-quartile range and entropy of the
    finite lifespans (no range), the entropy being
    [-sum p_i * log(p_i + eps)] for [p_i = l_i / (sum l + eps)]. *)
Theorem persistence_stats_fields (a : ndarray) (max_dim : Z)
    (th : option float) (np : option Z) (d : Z) :
  0 <= d <= max_dim ->
  lifespans_of (finite_rows (rips_diagram a max_dim th np d)) ≠ [] ->
  let ls := lifespans_of (finite_rows (rips_diagram a max_dim th np d)) in
  exists r s, compute_persistence a max_dim th np = Ok r /\
    stats r !! Hkey d = Some s /\
    dom s = full_stats_keys /\
    s !! "count" = Some (VInt (Z.of_nat (length ls))) /\
    s !! "mean_lifespan" = Some (VFloat (np_mean ls)) /\
    s !! "std_lifespan" = Some (VFloat (np_std ls)) /\
    s !! "median_lifespan" = Some (VFloat (np_median ls)) /\
    s !! "max_lifespan" = Some (VFloat (np_max ls)) /\
    s !! "iqr_lifespan" =
      Some (VFloat (fsub (np_percentile ls 75) (np_percentile ls 25))) /\
    s !! "entropy" =
      Some (VFloat (fneg (np_sum (map (fun p => fmul p (np_log (fadd p eps)))
                           (map (fun l => fdiv l (fadd (np_sum ls) eps)) ls))))).
Proof.
  intros Hd Hne ls.
  destruct (compute_persistence_spec a max_dim th np) as (r & Hr & _ & _ & Hdims & _).
  exists r, (lifespan_stats ls). split; [done|].
  split; [apply (Hdims d Hd)|]. apply (lifespan_stats_full ls Hne).
Qed.

(** *** The multi-subsample path *)

(** The subsamples the loop of [_multi_subsample_persistence] draws, and the
    generator state it leaves. *)
Fixpoint draw_subsamples (a : ndarray) (size : Z) (k : nat) (g : rng)
    : list ndarray * rng :=
  match k with
  | O => ([], g)
  | S k' =>
      let '(indices, g') := np_random_choice g (shape0 a) (Z.min size (shape0 a)) in
      let '(subs, g'') := draw_subsamples a size k' g' in
      (np_ix a indices :: subs, g'')
  end.

(** The finite lifespans of dimension [d] in one subsample. *)
Definition subsample_lifespans (max_dim : Z) (sub : ndarray) (d : Z) : list float :=
  lifespans_of (finite_rows (rips_diagram sub max_dim (Some (float_lit (8 # 10))) None d)).

(** The lifespans of the subsamples that have finite features in
    dimension [d]. *)
Definition kept_lifespans (max_dim : Z) (subs : list ndarray) (d : Z) : list (list float) :=
  filter (fun ls => length ls ≠ 0%nat) (map (fun sub => subsample_lifespans max_dim sub d) subs).

(** The aggregate of lines 219-236 over the kept lifespans. *)
Definition aggregate_of (K : list (list float)) (subsample_size num_subsamples : Z)
    : gmap string value :=
  if decide (length K = 0%nat) then <["count" := VInt 0]> ∅
  else
    <["count" :=
       VInt (int_of_float (np_mean (map (fun ls => float_of_Z (Z.of_nat (length ls))) K)))]>
    (<["mean_lifespan" := VFloat (np_mean (map np_mean K))]>
    (<["std_lifespan" := VFloat (np_mean (map np_std K))]>
    (<["median_lifespan" := VFloat (np_mean (map np_median K))]>
    (<["max_lifespan" := VFloat (np_max (map np_max K))]>
    (<["iqr_lifespan" := VFloat (np_mean (map iqr_of K))]>
    (<["entropy" := VFloat (np_mean (map entropy_of K))]>
    (<["num_subsamples" := VInt num_subsamples]>
    (<["subsample_size" := VInt subsample_size]> ∅)))))))).

Lemma field_column_map (field : string) (K : list (list float))
    (v : list float -> value) :
  (forall ls, ls ∈ K -> lifespan_stats ls !! field = Some (v ls)) ->
  field_column field (map lifespan_stats K) = Ok (map (fun ls => as_float (v ls)) K).
Proof.
  unfold field_column. induction K as [|ls K IH]; intros Hv; [done|].
  simpl. rewrite (getitem_Some _ _ (v ls)) by (apply Hv; left). simpl.
  rewrite IH by (intros; apply Hv; by right). done.
Qed.

Lemma aggregate_stats_spec (K : list (list float)) (size num : Z) :
  (forall ls, ls ∈ K -> length ls ≠ 0%nat) ->
  aggregate_stats (map lifespan_stats K) size num = Ok (aggregate_of K size num).
Proof.
  intros HK. unfold aggregate_stats, aggregate_of. rewrite length_map.
  destruct (decide (length K = 0%nat)) as [E|E].
  - rewrite decide_False by lia. done.
  - rewrite decide_True by lia.
    assert (Hfull : forall ls, ls ∈ K -> ls ≠ []).
    { intros ls Hls ->. by apply (HK [] Hls). }
    rewrite (field_column_map "count" K (fun ls => VInt (Z.of_nat (length ls))))
      by (intros; apply lifespan_stats_count).
    rewrite (field_column_map "mean_lifespan" K (fun ls => VFloat (np_mean ls)))
      by (intros ls Hls; apply (lifespan_stats_full ls (Hfull ls Hls))).
    rewrite (field_column_map "std_lifespan" K (fun ls => VFloat (np_std ls)))
      by (intros ls Hls; apply (lifespan_stats_full ls (Hfull ls Hls))).
    rewrite (field_column_map "median_lifespan" K (fun ls => VFloat (np_median ls)))
      by (intros ls Hls; apply (lifespan_stats_full ls (Hfull ls Hls))).
    rewrite (field_column_map "max_lifespan" K (fun ls => VFloat (np_max ls)))
      by (intros ls Hls; apply (lifespan_stats_full ls (Hfull ls Hls))).
    rewrite (field_column_map "iqr_lifespan" K (fun ls => VFloat (iqr_of ls)))
      by (intros ls Hls; apply (lifespan_stats_full ls (Hfull ls Hls))).
    rewrite (field_column_map "entropy" K (fun ls => VFloat (entropy_of ls)))
      by (intros ls Hls; apply (lifespan_stats_full ls (Hfull ls Hls))).
    done.
Qed.

(** What the inner loop appends for one subsample and one dimension. *)
Definition keep (ls : list float) : list (gmap string value) :=
  map lifespan_stats (filter (fun ls => length ls ≠ 0%nat) [ls]).

Lemma collect_loop (max_dim : Z) (r : persistence_result) (L : Z -> list float)
    (ds : list Z) :
  (forall d, 0 <= d <= max_dim -> stats r !! Hkey d = Some (lifespan_stats (L d))) ->
  NoDup ds -> (forall d, d ∈ ds -> 0 <= d <= max_dim) ->
  forall all_stats : gmap string (list (gmap string value)),
    (forall d, 0 <= d <= max_dim -> is_Some (all_stats !! Hkey d)) ->
    exists all',
      for_each ds
        (fun dim all_stats =>
           let key := Hkey dim in
           st ← getitem (stats r) key;
           c ← getitem st "count";
           if value_gtb c 0 then
             l ← getitem all_stats key;
             Ok (<[key := (l ++ [st])%list]> all_stats)
           else Ok all_stats)
        all_stats = Ok all' /\
      forall d, 0 <= d <= max_dim ->
        all' !! Hkey d =
          if decide (d ∈ ds)
          then (fun l => (l ++ keep (L d))%list) <$> all_stats !! Hkey d
          else all_stats !! Hkey d.
Proof.
  intros Hr Hnd. induction Hnd as [|x ds Hx Hnd IH]; intros Hrange all_stats Hsome.
  - exists all_stats. split; [done|]. intros d Hd. by rewrite decide_False by apply not_elem_of_nil.
  - assert (Hxr : 0 <= x <= max_dim) by (apply Hrange; left).
    set (s1 := if decide (length (L x) = 0%nat) then all_stats
               else <[Hkey x := (default [] (all_stats !! Hkey x) ++ [lifespan_stats (L x)])%list]>
                      all_stats).
    assert (Hs1 : forall d, 0 <= d <= max_dim ->
              s1 !! Hkey d = if decide (d = x)
                             then (fun l => (l ++ keep (L d))%list) <$> all_stats !! Hkey d
                             else all_stats !! Hkey d).
    { intros d Hd. subst s1. destruct (Hsome x Hxr) as [lx Hlx].
      destruct (decide (d = x)) as [->|Hne].
      - rewrite Hlx. simpl. unfold keep. rewrite filter_cons, filter_nil.
        destruct (decide (length (L x) = 0%nat)) as [E|E].
        + rewrite decide_False by tauto. simpl. by rewrite app_nil_r.
        + rewrite decide_True by done. simpl. by rewrite lookup_insert_eq.
      - destruct (decide (length (L x) = 0%nat)); [done|].
        apply lookup_insert_ne. intros E%Hkey_inj. by subst. }
    destruct (IH (fun d Hd => Hrange d (list_elem_of_further _ _ _ Hd)) s1)
      as (all' & Hloop & Hall').
    { intros d Hd. rewrite (Hs1 d Hd). destruct (Hsome d Hd) as [l Hl].
      rewrite Hl. by case_decide. }
    exists all'. split.
    + simpl. rewrite (getitem_Some _ _ _ (Hr x Hxr)). simpl.
      rewrite (getitem_Some _ _ _ (lifespan_stats_count (L x))). simpl.
      destruct (Hsome x Hxr) as [lx Hlx].
      subst s1. destruct (decide (length (L x) = 0%nat)) as [E|E].
      * rewrite bool_decide_eq_false_2 by lia. exact Hloop.
      * rewrite bool_decide_eq_true_2 by lia.
        rewrite (getitem_Some _ _ _ Hlx). rewrite Hlx in Hloop. exact Hloop.
    + intros d Hd. rewrite (Hall' d Hd), (Hs1 d Hd).
      destruct (decide (d = x)) as [->|Hne].
      * rewrite decide_False by done. rewrite decide_True by left. done.
      * destruct (decide (d ∈ ds)) as [Hin|Hnin].
        -- rewrite decide_True by (by right). done.
        -- rewrite decide_False; [done|]. intros [?|?]%elem_of_cons; done.
Qed.

Lemma collect_stats_spec (max_dim : Z) (r : persistence_result) (L : Z -> list float)
    (all_stats : gmap string (list (gmap string value))) :
  (forall d, 0 <= d <= max_dim -> stats r !! Hkey d = Some (lifespan_stats (L d))) ->
  (forall d, 0 <= d <= max_dim -> is_Some (all_stats !! Hkey d)) ->
  exists all',
    collect_stats max_dim r all_stats = Ok all' /\
    forall d, 0 <= d <= max_dim ->
      all' !! Hkey d = (fun l => (l ++ keep (L d))%list) <$> all_stats !! Hkey d.
Proof.
  intros Hr Hsome.
  destruct (collect_loop max_dim r L (py_range1 (max_dim + 1)) Hr) with all_stats
    as (all' & Hloop & Hall'); [apply NoDup_seqZ| |done|].
  { intros d Hd%elem_of_py_range1. lia. }
  exists all'. split; [exact Hloop|].
  intros d Hd. rewrite (Hall' d Hd). rewrite decide_True; [done|].
  apply elem_of_py_range1. lia.
Qed.

Lemma subsample_loop_spec (a : ndarray) (max_dim size : Z) (xs : list Z) :
  forall (g : rng) (all_stats : gmap string (list (gmap string value))),
    (forall d, 0 <= d <= max_dim -> is_Some (all_stats !! Hkey d)) ->
    exists all',
      for_each xs
        (fun (_ : Z) '(all_stats, g) =>
           let '(indices, g') := np_random_choice g (shape0 a) (Z.min size (shape0 a)) in
           let sub_matrix := np_ix a indices in
           result ← compute_persistence sub_matrix max_dim (Some (float_lit (8 # 10))) None;
           all_stats' ← collect_stats max_dim result all_stats;
           Ok (all_stats', g'))
        (all_stats, g)
      = Ok (all', snd (draw_subsamples a size (length xs) g)) /\
      forall d, 0 <= d <= max_dim ->
        all' !! Hkey d =
          (fun l => (l ++ map lifespan_stats
                       (kept_lifespans max_dim (fst (draw_subsamples a size (length xs) g)) d))%list)
            <$> all_stats !! Hkey d.
Proof.
  induction xs as [|x xs IH]; intros g all_stats Hsome.
  - exists all_stats. split; [done|]. intros d Hd. simpl.
    destruct (all_stats !! Hkey d); simpl; [|done]. by rewrite app_nil_r.
  - simpl. destruct (np_random_choice g (shape0 a) (Z.min size (shape0 a)))
      as [indices g'] eqn:Hchoice.
    destruct (compute_persistence_spec (np_ix a indices) max_dim
                (Some (float_lit (8 # 10))) None) as (r & Hr & _ & _ & Hdims & _).
    rewrite Hr. simpl.
    destruct (collect_stats_spec max_dim r (subsample_lifespans max_dim (np_ix a indices))
                all_stats) as (all1 & Hc & Hall1); [intros d Hd; apply (Hdims d Hd)|done|].
    rewrite Hc. simpl.
    destruct (IH g' all1) as (all' & Hloop & Hall').
    { intros d Hd. rewrite (Hall1 d Hd). destruct (Hsome d Hd) as [l ->]. by eexists. }
    destruct (draw_subsamples a size (length xs) g') as [subs g''] eqn:Hdraw.
    simpl in *. exists all'. split; [exact Hloop|].
    intros d Hd. rewrite (Hall' d Hd), (Hall1 d Hd).
    destruct (all_stats !! Hkey d) as [l|]; simpl; [|done].
    f_equal. rewrite <- app_assoc. f_equal.
    unfold kept_lifespans, keep. simpl. rewrite !filter_cons, filter_nil.
    by case_decide.
Qed.

(** The result of the multi-subsample path: empty diagrams, and for every
    requested dimension the aggregate of the subsamples kept for it. *)
Lemma multi_subsample_spec (a : ndarray) (max_dim : Z) (g : rng) :
  50000 < shape0 a ->
  exists r,
    compute_persistence_scaled a max_dim g = Ok (r, snd (draw_subsamples a 2000 20 g)) /\
    method r = Some "multi_subsample" /\
    num_points r = shape0 a /\
    forall d, 0 <= d <= max_dim ->
      diagrams r !! Hkey d = Some [] /\
      stats r !! Hkey d =
        Some (aggregate_of (kept_lifespans max_dim (fst (draw_subsamples a 2000 20 g)) d)
                2000 20).
Proof.
  intros Hn. unfold compute_persistence_scaled.
  rewrite !decide_False by lia.
  unfold _multi_subsample_persistence, subsample_loop.
  set (init := foldl (fun acc d => <[Hkey d := []]> acc) ∅ (py_range1 (max_dim + 1))).
  assert (Hinit : forall d, 0 <= d <= max_dim -> init !! Hkey d = Some []).
  { intros d Hd. apply (lookup_foldl_insert_elem Hkey (fun _ => [])); [apply Hkey_inj|].
    apply elem_of_py_range1. lia. }
  destruct (subsample_loop_spec a max_dim 2000 (py_range1 20) g init)
    as (all' & Hloop & Hall'); [intros d Hd; rewrite (Hinit d Hd); by eexists|].
  change (length (py_range1 20)) with 20%nat in Hloop, Hall'.
  cbv zeta in Hloop |- *.
  remember (draw_subsamples a 2000 20 g) as drawn eqn:Hdrawn. clear Hdrawn.
  rewrite Hloop. simpl.
  set (K := fun d => kept_lifespans max_dim (fst drawn) d).
  erewrite (for_each_pure _ _
    (fun '(dgms, sts) dim =>
       (<[Hkey dim := []]> dgms, <[Hkey dim := aggregate_of (K dim) 2000 20]> sts))).
  2:{ intros d [dgms sts] Hd%elem_of_py_range1.
      rewrite (getitem_Some _ _ (map lifespan_stats (K d))).
      2:{ rewrite Hall' by lia. rewrite Hinit by lia. done. }
      simpl. rewrite aggregate_stats_spec; [done|].
      intros ls Hls. unfold K, kept_lifespans in Hls.
      by apply list_elem_of_filter in Hls as [? _]. }
  rewrite foldl_pair. simpl. eexists. split; [done|]. simpl.
  split; [done|]. split; [done|].
  intros d Hd. fold (K d).
  assert (Hin : d ∈ py_range1 (max_dim + 1)) by (apply elem_of_py_range1; lia).
  split.
  - by apply (lookup_foldl_insert_elem Hkey (fun _ => [])); [apply Hkey_inj|].
  - by apply (lookup_foldl_insert_elem Hkey (fun d => aggregate_of (K d) 2000 20));
      [apply Hkey_inj|].
Qed.

(** C2 (as amended).  For more than 50000 points the computation draws 20
    subsamples of 2000 points and returns; every requested dimension is
    reported with an empty diagram, and, over the subsamples that have finite
    features in that dimension, with the mean of their mean, standard
    deviation, median, inter-quartile range and entropy, the integer part of
    the mean of their counts, and the maximum of their maxima; with
    [{"count": 0}] when no subsample has a finite feature. *)
Theorem multi_subsample_aggregate (a : ndarray) (max_dim : Z) (g : rng) :
  50000 < shape0 a ->
  exists r,
    compute_persistence_scaled a max_dim g = Ok (r, snd (draw_subsamples a 2000 20 g)) /\
    method r = Some "multi_subsample" /\
    num_points r = shape0 a /\
    forall d, 0 <= d <= max_dim ->
      let K := kept_lifespans max_dim (fst (draw_subsamples a 2000 20 g)) d in
      diagrams r !! Hkey d = Some [] /\
      (K = [] -> stats r !! Hkey d = Some (<["count" := VInt 0]> ∅)) /\
      (K ≠ [] ->
         exists s, stats r !! Hkey d = Some s /\
           s !! "count" =
             Some (VInt (int_of_float
                     (np_mean (map (fun ls => float_of_Z (Z.of_nat (length ls))) K)))) /\
           s !! "mean_lifespan" = Some (VFloat (np_mean (map np_mean K))) /\
           s !! "std_lifespan" = Some (VFloat (np_mean (map np_std K))) /\
           s !! "median_lifespan" = Some (VFloat (np_mean (map np_median K))) /\
           s !! "max_lifespan" = Some (VFloat (np_max (map np_max K))) /\
           s !! "iqr_lifespan" = Some (VFloat (np_mean (map iqr_of K))) /\
           s !! "entropy" = Some (VFloat (np_mean (map entropy_of K))) /\
           s !! "num_subsamples" = Some (VInt 20) /\
           s !! "subsample_size" = Some (VInt 2000)).
Proof.
  intros Hn.
  destruct (multi_subsample_spec a max_dim g Hn) as (r & Hr & Hm & Hp & Hd).
  exists r. split; [exact Hr|]. split; [exact Hm|]. split; [exact Hp|].
  intros d Hdim K. destruct (Hd d Hdim) as [Dd Sd]. fold K in Sd.
  split; [exact Dd|]. unfold aggregate_of in Sd. split.
  - intros HK. by rewrite HK in Sd.
  - intros HK. rewrite decide_False in Sd by (by destruct K).
    eexists. split; [exact Sd|]. repeat split; by simplify_map_eq.
Qed.

End PersistenceFacts.

(** *** Runs of the persistence functions on the reference implementation *)

(** *** Runs of the persistence functions on the reference implementation *)

Section PersistenceRuns.
Import Ref.



Lemma persistence_stats_fields_witness :
  let ls := lifespans_of (finite_rows (rips_diagram (line 3) 0 None None 0)) in
  exists r s, compute_persistence (line 3) 0 None None = Ok r /\
    stats r !! Hkey 0 = Some s /\
    dom s = full_stats_keys /\
    s !! "count" = Some (VInt (Z.of_nat (length ls))) /\
    s !! "mean_lifespan" = Some (VFloat (np_mean ls)) /\
    s !! "std_lifespan" = Some (VFloat (np_std ls)) /\
    s !! "median_lifespan" = Some (VFloat (np_median ls)) /\
    s !! "max_lifespan" = Some (VFloat (np_max ls)) /\
    s !! "iqr_lifespan" =
      Some (VFloat (fsub (np_percentile ls 75) (np_percentile ls 25))) /\
    s !! "entropy" =
      Some (VFloat (fneg (np_sum (map (fun p => fmul p (np_log (fadd p eps)))
                           (map (fun l => fdiv l (fadd (np_sum ls) eps)) ls))))).
Proof.
  apply (persistence_stats_fields (line 3) 0 None None 0); [lia|].
  vm_compute. discriminate.
Defined.

(** C8, counterexample: dimension 0 of three points on a line has a finite
    lifespan, and its statistics hold the seven keys of [full_stats_keys],
    none of which is a range. *)
Lemma persistence_stats_without_range :
  lifespans_of (finite_rows (rips_diagram (line 3) 0 None None 0)) = [Fin (1 # 3)] /\
  exists r s, compute_persistence (line 3) 0 None None = Ok r /\
    stats r !! Hkey 0 = Some s /\
    dom s = full_stats_keys /\
    s !! "range" = None /\ s !! "range_lifespan" = None.
Proof.
  assert (Hls : lifespans_of (finite_rows (rips_diagram (line 3) 0 None None 0))
                = [Fin (1 # 3)]) by (vm_compute; reflexivity).
  split; [exact Hls|].
  destruct (compute_persistence_spec (line 3) 0 None None) as (r & Hr & _ & _ & Hd & _).
  destruct (Hd 0 ltac:(lia)) as [_ Hs]. unfold rips_stats in Hs. rewrite Hls in Hs.
  destruct (lifespan_stats_full ([Fin (1 # 3)] : list (@float numpy))) as (Hdom & _);
    [discriminate|].
  exists r, (lifespan_stats ([Fin (1 # 3)] : list (@float numpy))).
  split; [exact Hr|]. split; [exact Hs|]. split; [exact Hdom|].
  split; apply not_elem_of_dom; rewrite Hdom; vm_compute; intros H; discriminate H.
Qed.

Lemma multi_subsample_aggregate_witness :
  exists r,
    compute_persistence_scaled (line 50001) 0 seed0
      = Ok (r, snd (draw_subsamples (line 50001) 2000 20 seed0)) /\
    method r = Some "multi_subsample" /\
    num_points r = shape0 (line 50001) /\
    forall d, 0 <= d <= 0 ->
      let K := kept_lifespans 0 (fst (draw_subsamples (line 50001) 2000 20 seed0)) d in
      diagrams r !! Hkey d = Some [] /\
      (K = [] -> stats r !! Hkey d = Some (<["count" := VInt 0]> ∅)) /\
      (K ≠ [] ->
         exists s, stats r !! Hkey d = Some s /\
           s !! "count" =
             Some (VInt (int_of_float
                     (np_mean (map (fun ls => float_of_Z (Z.of_nat (length ls))) K)))) /\
           s !! "mean_lifespan" = Some (VFloat (np_mean (map np_mean K))) /\
           s !! "std_lifespan" = Some (VFloat (np_mean (map np_std K))) /\
           s !! "median_lifespan" = Some (VFloat (np_mean (map np_median K))) /\
           s !! "max_lifespan" = Some (VFloat (np_max (map np_max K))) /\
           s !! "iqr_lifespan" = Some (VFloat (np_mean (map iqr_of K))) /\
           s !! "entropy" = Some (VFloat (np_mean (map entropy_of K))) /\
           s !! "num_subsamples" = Some (VInt 20) /\
           s !! "subsample_size" = Some (VInt 2000)).
Proof.
  apply (multi_subsample_aggregate (line 50001) 0 seed0). simpl. lia.
Defined.

(** C2, counterexample: on 50001 equally spaced points, the twenty
    subsamples have the maximal lifespans 1/50001, ..., 20/50001 in
    dimension 0.  Their average is 1/4762; the result reports 20/50001. *)
Lemma multi_subsample_max_not_averaged :
  np_mean (map np_max
     (kept_lifespans 0 (fst (draw_subsamples (line 50001) 2000 20 seed0)) 0))
    = Fin (1 # 4762) /\
  exists r g' s,
    compute_persistence_scaled (line 50001) 0 seed0 = Ok (r, g') /\
    stats r !! Hkey 0 = Some s /\
    s !! "max_lifespan" = Some (VFloat (Fin (20 # 50001))).
Proof.
  assert (HK : kept_lifespans 0 (fst (draw_subsamples (line 50001) 2000 20 seed0)) 0
               = map (fun k => [Fin (Qred (inject_Z k / 50001))]) (seqZ 1 20))
    by (vm_compute; reflexivity).
  split; [rewrite HK; vm_compute; reflexivity|].
  destruct (multi_subsample_spec (line 50001) 0 seed0) as (r & Hr & _ & _ & Hd);
    [simpl; lia|].
  destruct (Hd 0 ltac:(lia)) as [_ Hs]. rewrite HK in Hs.
  exists r, (snd (draw_subsamples (line 50001) 2000 20 seed0)).
  eexists. split; [exact Hr|]. split; [exact Hs|].
  unfold aggregate_of. rewrite decide_False by discriminate.
  rewrite lookup_insert_ne by discriminate.
  rewrite lookup_insert_ne by discriminate.
  rewrite lookup_insert_ne by discriminate.
  rewrite lookup_insert_ne by discriminate.
  rewrite lookup_insert_eq.
  apply (f_equal (fun x => Some (VFloat x))). vm_compute. reflexivity.
Qed.
End PersistenceRuns.
(** ** vectorize.py *)

Section VectorizeFacts.
Context `{NP : NumPy}.

Lemma zero_block_length : length zero_block = 12%nat.
Proof. done. Qed.

Lemma stat_block_length (ls : list float) : length (stat_block ls) = 12%nat.
Proof. done. Qed.

(** The two guards of the loop body amount to one test on the finite
    lifespans. *)
Lemma dim_block_cases (diagrams : gmap string diagram) (dim : string) :
  let ls := finite_lifespans (default [] (diagrams !! dim)) in
  dim_block diagrams dim = if decide (length ls = 0%nat) then zero_block else stat_block ls.
Proof.
  unfold dim_block. destruct (default [] (diagrams !! dim)) as [|p dgm] eqn:E.
  - reflexivity.
  - cbv zeta. rewrite (decide_False (P := length (p :: dgm) = 0%nat)) by done. done.
Qed.

Lemma dim_block_length (diagrams : gmap string diagram) (dim : string) :
  length (dim_block diagrams dim) = 12%nat.
Proof. rewrite dim_block_cases. simpl. case_decide; done. Qed.

Lemma persistence_statistics_blocks (diagrams : gmap string diagram) :
  persistence_statistics diagrams
  = (dim_block diagrams "H0" ++ dim_block diagrams "H1" ++ dim_block diagrams "H2")%list.
Proof. unfold persistence_statistics. simpl. by rewrite <- app_assoc. Qed.

(** The array of line 42 holds the finite lifespans of the diagram. *)
Lemma finite_lifespans_spec (dgm : diagram) :
  finite_lifespans dgm = lifespans_that_are_finite dgm.
Proof.
  unfold finite_lifespans. induction dgm as [|[birth death] dgm IH]; [done|].
  rewrite map_cons, filter_cons. cbn [lifespans_that_are_finite fst snd].
  destruct (np_isfinite (fsub death birth)) eqn:E.
  - rewrite decide_True by done. by rewrite IH.
  - rewrite decide_False by done. exact IH.
Qed.

Lemma lifespans_that_are_finite_nil (dgm : diagram) :
  lifespans_that_are_finite dgm = []
  <-> Forall (fun p => np_isfinite (fsub (snd p) (fst p)) = false) dgm.
Proof.
  induction dgm as [|[birth death] dgm IH]; [by split; [constructor|]|].
  cbn [lifespans_that_are_finite]. rewrite Forall_cons. cbn [fst snd].
  destruct (np_isfinite (fsub death birth)) eqn:E.
  - split; [done|]. by intros [? _].
  - rewrite IH. tauto.
Qed.

(** C7.  The vector has length 36.  Its k-th block of twelve entries, for
    the k-th of the dimensions H0, H1, H2, is twelve zeros when the diagram
    of that dimension is absent, empty or without a feature of finite
    lifespan.  When some feature has a finite lifespan, the block holds
    count, mean, std, median, IQR, max, range, entropy, p10, p25, p75, p90,
    in that order, of the finite lifespans of the diagram: the differences
    death minus birth that are finite, in the order of the diagram, of which
    there is then at least one. *)
Theorem persistence_statistics_layout (diagrams : gmap string diagram) :
  Z.of_nat (length (persistence_statistics diagrams)) = 36 /\
  Z.of_nat (length (persistence_statistics diagrams)) = TOTAL_FEATURES /\
  forall (k : nat) (dim : string),
    ["H0"; "H1"; "H2"] !! k = Some dim ->
    let dgm := default [] (diagrams !! dim) in
    let block := take 12 (drop (12 * k) (persistence_statistics diagrams)) in
    (Forall (fun p => np_isfinite (fsub (snd p) (fst p)) = false) dgm ->
       block = replicate 12 (float_lit 0)) /\
    (Exists (fun p => np_isfinite (fsub (snd p) (fst p)) = true) dgm ->
       let ls := lifespans_that_are_finite dgm in
       (0 < length ls)%nat /\
       (forall l, l ∈ ls <->
          exists birth death, (birth, death) ∈ dgm /\ l = fsub death birth /\
                              np_isfinite l = true) /\
       block =
         [ float_of_Z (Z.of_nat (length ls));
           np_mean ls;
           np_std ls;
           np_median ls;
           fsub (np_percentile ls 75) (np_percentile ls 25);
           np_max ls;
           fsub (np_max ls) (np_min ls);
           fneg (np_sum (map (fun p => fmul p (np_log (fadd p (float_lit (1 # 10000000000)))))
                   (map (fun l => fdiv l (fadd (np_sum ls) (float_lit (1 # 10000000000)))) ls)));
           np_percentile ls 10;
           np_percentile ls 25;
           np_percentile ls 75;
           np_percentile ls 90 ]).
Proof.
  rewrite persistence_statistics_blocks.
  assert (Hlen : length (dim_block diagrams "H0" ++ dim_block diagrams "H1"
                         ++ dim_block diagrams "H2") = 36%nat).
  { rewrite !length_app, !dim_block_length. done. }
  rewrite Hlen. split; [done|]. split; [done|].
  intros k dim Hk dgm block.
  assert (Hblock : block = dim_block diagrams dim).
  { subst block. destruct k as [|[|[|k]]]; simpl in Hk; try done;
      injection Hk as <-.
    - rewrite Nat.mul_0_r, drop_0.
      rewrite take_app_length' by (symmetry; apply dim_block_length). done.
    - change (12 * 1)%nat with (12 + 0)%nat.
      rewrite drop_app_add' by (symmetry; apply dim_block_length). rewrite drop_0.
      rewrite take_app_length' by (symmetry; apply dim_block_length). done.
    - change (12 * 2)%nat with (12 + (12 + 0))%nat.
      rewrite drop_app_add' by (symmetry; apply dim_block_length).
      rewrite drop_app_add' by (symmetry; apply dim_block_length). rewrite drop_0.
      rewrite <- (dim_block_length diagrams "H2"). apply firstn_all. }
  rewrite Hblock, dim_block_cases. fold dgm. cbv zeta.
  rewrite finite_lifespans_spec. split.
  - intros Hall. apply lifespans_that_are_finite_nil in Hall. by rewrite Hall.
  - intros Hex.
    assert (Hne : lifespans_that_are_finite dgm ≠ []).
    { intros Hnil. apply lifespans_that_are_finite_nil in Hnil.
      apply Exists_exists in Hex as ([b d] & Hin & Hfin).
      rewrite Forall_forall in Hnil. specialize (Hnil _ Hin). congruence. }
    split; [destruct (lifespans_that_are_finite dgm); [done|simpl; lia]|].
    split.
    + intros l. rewrite <- finite_lifespans_spec. unfold finite_lifespans.
      rewrite list_elem_of_filter, list_elem_of_fmap. split.
      * intros [Hfin ([b d] & -> & Hin)]. by exists b, d.
      * intros (b & d & Hin & -> & Hfin). split; [done|]. by exists (b, d).
    + rewrite decide_False by (by destruct (lifespans_that_are_finite dgm)). done.
Qed.

End VectorizeFacts.

Section VectorizeRuns.
Import Ref.

(** On the sample diagrams the finite lifespans of dimension 0 are 1 and 3:
    the block of H0 starts with the count 2, the mean 2, the standard
    deviation 1 and the median 2, and has the maximum 3 and the range 2 in
    places 5 and 6; the blocks of H1 and H2 are twelve zeros. *)
Lemma persistence_statistics_layout_witness :
  lifespans_that_are_finite (default [] (sample_diagrams !! "H0")) = [Fin 1; Fin 3] /\
  take 7 (persistence_statistics sample_diagrams)
  = [Fin 2; Fin 2; Fin 1; Fin 2; Fin 1; Fin 3; Fin 2] /\
  take 12 (drop 12 (persistence_statistics sample_diagrams)) = replicate 12 (Fin 0) /\
  take 12 (drop 24 (persistence_statistics sample_diagrams)) = replicate 12 (Fin 0).
Proof.
  destruct (persistence_statistics_layout sample_diagrams) as (_ & _ & H).
  split; [vm_compute; reflexivity|]. split; [|split].
  - destruct (H 0%nat "H0" eq_refl) as [_ H0].
    destruct H0 as (_ & _ & H0).
    { apply Exists_cons_hd. vm_compute. reflexivity. }
    change (12 * 0)%nat with 0%nat in H0. rewrite drop_0 in H0.
    apply (f_equal (take 7)) in H0. rewrite take_take in H0.
    etrans; [exact H0|]. vm_compute. reflexivity.
  - destruct (H 1%nat "H1" eq_refl) as [H1 _].
    etrans; [apply H1|vm_compute; reflexivity].
    repeat constructor.
  - destruct (H 2%nat "H2" eq_refl) as [H2 _].
    etrans; [apply H2|vm_compute; reflexivity].
    vm_compute. constructor.
Defined.

End VectorizeRuns.

(** ** timeseries.py: the delay embedding *)

Lemma for_each_app {A S : Type} (xs ys : list A) (body : A -> S -> res S) (s : S) :
  for_each (xs ++ ys) body s = (s' ← for_each xs body s; for_each ys body s').
Proof.
  revert s. induction xs as [|x xs IH]; intros s; simpl; [done|].
  destruct (body x s) as [s'| |]; simpl; [apply IH|done|done].
Qed.

Lemma py_slice_length {A : Type} (l : list A) (a b : Z) :
  0 <= a <= b -> b <= Z.of_nat (length l) ->
  length (py_slice l a b) = Z.to_nat (b - a).
Proof.
  intros Ha Hb. unfold py_slice, slice_bound.
  rewrite !decide_False by lia.
  rewrite length_take, length_drop. lia.
Qed.

Lemma py_slice_lookup {A : Type} (l : list A) (a b : Z) (k : nat) :
  0 <= a <= b -> b <= Z.of_nat (length l) -> (k < Z.to_nat (b - a))%nat ->
  py_slice l a b !! k = l !! (Z.to_nat a + k)%nat.
Proof.
  intros Ha Hb Hk. unfold py_slice, slice_bound.
  rewrite !decide_False by lia.
  rewrite lookup_take_lt by lia. rewrite lookup_drop. f_equal. lia.
Qed.

Section TakensFacts.
Context `{BE : Backends}.

(** The state of [embedded] once the columns below [c] are written. *)
Definition columns_written (time_series : list float) (delay : Z) (N D c : nat)
    (embedded : list (list float)) : Prop :=
  length embedded = N /\
  (forall row, row ∈ embedded -> length row = D) /\
  forall i j, (i < N)%nat -> (j < c)%nat ->
    (embedded !! i) ≫= (fun row => row !! j)
    = time_series !! Z.to_nat (Z.of_nat i + Z.of_nat j * delay).

Lemma set_column_step (time_series : list float) (delay : Z) (N D c : nat)
    (embedded : list (list float)) :
  1 <= delay -> (c < D)%nat ->
  Z.of_nat N = Z.of_nat (length time_series) - (Z.of_nat D - 1) * delay ->
  columns_written time_series delay N D c embedded ->
  exists embedded',
    set_column embedded (Z.of_nat c)
      (py_slice time_series (Z.of_nat c * delay) (Z.of_nat c * delay + Z.of_nat N))
    = Ok embedded' /\
    columns_written time_series delay N D (S c) embedded'.
Proof.
  intros Hdelay Hc HN (Hlen & Hrows & Hcols).
  set (col := py_slice time_series (Z.of_nat c * delay) (Z.of_nat c * delay + Z.of_nat N)).
  assert (Hcol : length col = N).
  { subst col. rewrite py_slice_length by nia. lia. }
  assert (Hcolk : forall i, (i < N)%nat ->
            col !! i = time_series !! Z.to_nat (Z.of_nat i + Z.of_nat c * delay)).
  { intros i Hi. subst col. rewrite py_slice_lookup by nia. f_equal. nia. }
  unfold set_column. rewrite decide_True by lia. eexists. split; [done|].
  split; [|split].
  - rewrite length_zip_with. lia.
  - intros row (r & x & -> & Hr & _)%elem_of_zip_with.
    rewrite length_insert. by apply Hrows.
  - intros i j Hi Hj. rewrite lookup_zip_with.
    destruct (lookup_lt_is_Some_2 embedded i ltac:(lia)) as [row Hrow].
    destruct (lookup_lt_is_Some_2 col i ltac:(lia)) as [x Hx].
    rewrite Hrow, Hx. simpl. rewrite Nat2Z.id.
    assert (HrowD : length row = D) by (apply Hrows; by eapply list_elem_of_lookup_2).
    destruct (decide (j = c)) as [->|Hne].
    + rewrite list_lookup_insert_eq by lia. rewrite <- Hx. by apply Hcolk.
    + rewrite list_lookup_insert_ne by done.
      specialize (Hcols i j Hi ltac:(lia)). rewrite Hrow in Hcols. exact Hcols.
Qed.

Lemma set_column_loop (time_series : list float) (delay : Z) (N D : nat) (c : nat)
    (embedded : list (list float)) :
  1 <= delay -> (c <= D)%nat ->
  Z.of_nat N = Z.of_nat (length time_series) - (Z.of_nat D - 1) * delay ->
  columns_written time_series delay N D 0 embedded ->
  exists embedded',
    for_each (py_range1 (Z.of_nat c))
      (fun i embedded =>
         set_column embedded i
           (py_slice time_series (i * delay) (i * delay + Z.of_nat N)))
      embedded
    = Ok embedded' /\
    columns_written time_series delay N D c embedded'.
Proof.
  intros Hdelay Hc HN H0. induction c as [|c IH].
  - exists embedded. split; [done|exact H0].
  - destruct IH as (emb1 & Hloop & Hinv); [lia|].
    destruct (set_column_step time_series delay N D c emb1) as (emb2 & Hset & Hinv2);
      [done|lia|done|done|].
    exists emb2. split; [|exact Hinv2].
    unfold py_range1 in *. rewrite seqZ_S.
    rewrite for_each_app, Hloop. simpl. rewrite Z.add_0_l, Hset. done.
Qed.

(** C6.  For a delay and a dimension of at least 1, [takens_embedding]
    raises [ValueError] (the insufficient-length error) when
    [n - (d-1)*tau <= 0], and otherwise returns exactly [n - (d-1)*tau]
    points of [d] coordinates, the [j]-th coordinate of point [i] being
    [x_(i + j*tau)]. *)
Theorem takens_embedding_points (time_series : list float) (delay dimension : Z) :
  1 <= delay -> 1 <= dimension ->
  let n := Z.of_nat (length time_series) in
  let num_points := n - (dimension - 1) * delay in
  (num_points <= 0 -> takens_embedding time_series delay dimension = Raise ValueError) /\
  (0 < num_points ->
     exists embedded,
       takens_embedding time_series delay dimension = Ok embedded /\
       Z.of_nat (length embedded) = num_points /\
       (forall row, row ∈ embedded -> Z.of_nat (length row) = dimension) /\
       forall i j, 0 <= i < num_points -> 0 <= j < dimension ->
         is_Some (time_series !! Z.to_nat (i + j * delay)) /\
         (embedded !! Z.to_nat i) ≫= (fun row => row !! Z.to_nat j)
         = time_series !! Z.to_nat (i + j * delay)).
Proof.
  intros Hdelay Hdim n num_points. unfold takens_embedding. fold n. fold num_points.
  split; intros Hnum.
  - by rewrite decide_True.
  - rewrite decide_False by lia. unfold np_zeros.
    rewrite decide_False by lia. simpl.
    destruct (set_column_loop time_series delay (Z.to_nat num_points)
                (Z.to_nat dimension) (Z.to_nat dimension)
                (replicate (Z.to_nat num_points)
                   (replicate (Z.to_nat dimension) (float_lit 0))))
      as (embedded & Hloop & Hlen & Hrows & Hcols); [done|lia|subst num_points n; lia| |].
    { split; [by rewrite length_replicate|]. split; [|intros; lia].
      intros row Hrow%elem_of_replicate. destruct Hrow as [-> _].
      by rewrite length_replicate. }
    rewrite !Z2Nat.id in Hloop by lia.
    exists embedded. split; [exact Hloop|]. split; [lia|]. split.
    + intros row Hrow. rewrite (Hrows row Hrow). lia.
    + intros i j Hi Hj.
      assert (Hin : (Z.to_nat (i + j * delay) < length time_series)%nat)
        by (subst num_points n; nia).
      split; [by apply lookup_lt_is_Some_2|].
      rewrite (Hcols (Z.to_nat i) (Z.to_nat j)) by lia.
      f_equal. rewrite !Z2Nat.id by lia. done.
Qed.

End TakensFacts.

Section TakensRuns.
Import Ref.

Lemma takens_embedding_points_witness :
  let n := Z.of_nat (length sample_series) in
  let num_points := n - (2 - 1) * 2 in
  (num_points <= 0 -> takens_embedding sample_series 2 2 = Raise ValueError) /\
  (0 < num_points ->
     exists embedded,
       takens_embedding sample_series 2 2 = Ok embedded /\
       Z.of_nat (length embedded) = num_points /\
       (forall row, row ∈ embedded -> Z.of_nat (length row) = 2) /\
       forall i j, 0 <= i < num_points -> 0 <= j < 2 ->
         is_Some (sample_series !! Z.to_nat (i + j * 2)) /\
         (embedded !! Z.to_nat i) ≫= (fun row => row !! Z.to_nat j)
         = sample_series !! Z.to_nat (i + j * 2)).
Proof. apply (takens_embedding_points sample_series 2 2); lia. Defined.

(** Delay 2 and dimension 2 on five samples give three points; delay 3 and
    dimension 3 ask for more samples than there are. *)
Example takens_embedding_run :
  takens_embedding sample_series 2 2
    = Ok [[Fin 1; Fin 3]; [Fin 2; Fin 4]; [Fin 3; Fin 5]] /\
  takens_embedding sample_series 3 3 = Raise ValueError.
Proof. split; vm_compute; reflexivity. Qed.

End TakensRuns.

(** ** layout.py *)

Section LayoutFacts.
Context `{BE : Backends}.

(** Every item contributes its centre and four corners. *)
Lemma furniture_points_length (furniture_positions : list furniture_item) :
  length (furniture_points furniture_positions) = (5 * length furniture_positions)%nat.
Proof.
  unfold furniture_points. induction furniture_positions as [|item l IH]; [done|].
  simpl. rewrite IH. lia.
Qed.

(** C9 (as amended).  When the furniture yields fewer than four points,
    which happens exactly for the empty furniture list, the analysis does
    not fail: it returns no dead space, coverage and connectivity 0.0, empty
    diagrams and the point count 0. *)
Theorem floor_plan_too_few_points (furniture_positions : list furniture_item)
    (room_boundary : list (float * float))
    (dead_space_threshold_ft connectivity_threshold_ft : float) :
  Z.of_nat (length (furniture_points furniture_positions)) < 4 ->
  furniture_positions = [] /\
  analyze_floor_plan_topology furniture_positions room_boundary
      dead_space_threshold_ft connectivity_threshold_ft
    = Ok {| dead_spaces := [];
            coverage_score := float_lit 0;
            connectivity_score := float_lit 0;
            persistence_diagram_H0 := [];
            persistence_diagram_H1 := [];
            num_furniture_points := 0 |}.
Proof.
  intros Hfew. rewrite furniture_points_length in Hfew.
  destruct furniture_positions as [|item l]; [|simpl in Hfew; lia].
  split; [done|]. reflexivity.
Qed.

End LayoutFacts.

Section LayoutRuns.
Import Ref.

Lemma floor_plan_too_few_points_witness :
  ([] : list furniture_item) = [] /\
  analyze_floor_plan_topology [] [] (float_lit 6) (float_lit 3)
    = Ok {| dead_spaces := [];
            coverage_score := float_lit 0;
            connectivity_score := float_lit 0;
            persistence_diagram_H0 := [];
            persistence_diagram_H1 := [];
            num_furniture_points := 0 |}.
Proof.
  apply (floor_plan_too_few_points [] [] (float_lit 6) (float_lit 3)). simpl. lia.
Defined.

(** C9, counterexample: a floor plan without furniture has fewer than four
    points, and its analysis returns a result. *)
Lemma empty_floor_plan_not_an_error :
  Z.of_nat (length (furniture_points ([] : list furniture_item))) < 4 /\
  exists r,
    analyze_floor_plan_topology [] [] (float_lit 6) (float_lit 3) = Ok r /\
    dead_spaces r = [] /\ num_furniture_points r = 0 /\
    forall e, analyze_floor_plan_topology [] [] (float_lit 6) (float_lit 3) ≠ Raise e.
Proof.
  split; [simpl; lia|].
  eexists. split; [reflexivity|]. split; [done|]. split; [done|].
  intros e He. discriminate He.
Qed.

End LayoutRuns.

(** ** timeseries.py: the guards of the anomaly detector *)

Section AnomalyFacts.
Context `{BE : Backends}.

(** [T = min(len(v) for v in booking_channels.values())] *)
Definition common_length (booking_channels : list (string * list float)) : Z :=
  foldr Z.min
    (Z.of_nat (length (snd (hd ("", []) booking_channels))))
    (map (fun kv => Z.of_nat (length (snd kv))) booking_channels).

(** The stacked channels, one row per sample. *)
Definition channel_data (booking_channels : list (string * list float))
    : list (list float) :=
  transpose (common_length booking_channels)
    (map (fun kv => py_slice (snd kv) 0 (common_length booking_channels)) booking_channels).

(** The computation of one window returns: ripser gives a dimension-0
    diagram when asked for [maxdim=0]. *)
Lemma window_features_ok (data : list (list float)) (n_channels window_size start : Z) :
  exists features, window_features data n_channels window_size start = Ok features.
Proof.
  unfold window_features.
  set (kw := {| kw_maxdim := 0; kw_distance_matrix := true;
                kw_thresh := None; kw_n_perm := None |}).
  set (dist := np_fill_diagonal _ _).
  pose proof (ripser_dgms_length dist kw ltac:(simpl; lia)) as Hlen.
  destruct (ripser dist kw) as [|dgm rest] eqn:E; [done|].
  simpl. case_decide; by eexists.
Qed.

Lemma sliding_loop_length (data : list (list float)) (n_channels window_size : Z)
    (starts : list Z) :
  forall (topo_features : list (list float)) (positions : list Z),
  exists topo_features' positions',
    for_each starts
      (fun start '(topo_features, positions) =>
         features ← window_features data n_channels window_size start;
         Ok ((topo_features ++ [features])%list,
             (positions ++ [start + window_size / 2])%list))
      (topo_features, positions)
    = Ok (topo_features', positions') /\
    length topo_features' = (length topo_features + length starts)%nat /\
    length positions' = (length positions + length starts)%nat.
Proof.
  induction starts as [|start starts IH]; intros topo_features positions.
  - exists topo_features, positions. split; [done|]. simpl. lia.
  - change (for_each (start :: starts) ?body ?s)
      with (mbind (for_each starts body) (body start s)).
    cbv beta iota.
    destruct (window_features_ok data n_channels window_size start) as [features ->].
    simpl.
    destruct (IH (topo_features ++ [features])%list
                 (positions ++ [start + window_size / 2])%list)
      as (tf & pos & Hloop & Htf & Hpos).
    exists tf, pos. split; [exact Hloop|].
    rewrite length_app in Htf, Hpos. simpl in *. lia.
Qed.

Lemma sliding_windows_length (data : list (list float))
    (n_channels T window_size step : Z) (starts : list Z) :
  py_range 0 (T - window_size) step = Ok starts ->
  exists topo_features positions,
    sliding_windows data n_channels T window_size step = Ok (topo_features, positions) /\
    length topo_features = length starts /\
    length positions = length starts.
Proof.
  intros Hrange. unfold sliding_windows. rewrite Hrange. simpl.
  destruct (sliding_loop_length data n_channels window_size starts [] [])
    as (tf & pos & Hloop & Htf & Hpos).
  exists tf, pos. split; [exact Hloop|]. simpl in *. lia.
Qed.

(** The detector, with its two guards made explicit. *)
Lemma detect_anomalies_unfold (booking_channels : list (string * list float))
    (window_size step : Z) :
  let n_channels := Z.of_nat (length booking_channels) in
  let T := common_length booking_channels in
  detect_anomalies_tada booking_channels window_size step =
    if decide (n_channels < 2) then Ok []
    else
      '(topo_features, positions) ←
        sliding_windows (channel_data booking_channels) n_channels T window_size step;
      if decide (Z.of_nat (length topo_features) < 10) then Ok []
      else flag_anomalies topo_features positions.
Proof. unfold detect_anomalies_tada. rewrite length_map. reflexivity. Qed.

Lemma detect_few_channels (booking_channels : list (string * list float))
    (window_size step : Z) :
  Z.of_nat (length booking_channels) < 2 ->
  detect_anomalies_tada booking_channels window_size step = Ok [].
Proof. intros Hn. rewrite detect_anomalies_unfold. by rewrite decide_True. Qed.

Lemma detect_few_windows (booking_channels : list (string * list float))
    (window_size step : Z) (starts : list Z) :
  2 <= Z.of_nat (length booking_channels) ->
  py_range 0 (common_length booking_channels - window_size) step = Ok starts ->
  Z.of_nat (length starts) < 10 ->
  detect_anomalies_tada booking_channels window_size step = Ok [].
Proof.
  intros Hn Hrange Hlen. rewrite detect_anomalies_unfold. rewrite decide_False by lia.
  destruct (sliding_windows_length (channel_data booking_channels)
              (Z.of_nat (length booking_channels)) (common_length booking_channels)
              window_size step starts Hrange) as (tf & pos & -> & Htf & _).
  simpl. rewrite decide_True by lia. done.
Qed.

(** C10.  With fewer than two channels the detector returns the empty list.
    With two or more channels and fewer than ten window starts in
    [range(0, T - window_size, step)] it returns the empty list as well.  It
    reports an anomaly only when there are at least two channels and at
    least ten windows, and then its result is that of the Gaussian fit over
    the windows' features. *)
Theorem detect_anomalies_guards (booking_channels : list (string * list float))
    (window_size step : Z) :
  let n_channels := Z.of_nat (length booking_channels) in
  let T := common_length booking_channels in
  (n_channels < 2 -> detect_anomalies_tada booking_channels window_size step = Ok []) /\
  (forall starts,
     2 <= n_channels ->
     py_range 0 (T - window_size) step = Ok starts ->
     Z.of_nat (length starts) < 10 ->
     detect_anomalies_tada booking_channels window_size step = Ok []) /\
  (forall starts,
     2 <= n_channels ->
     py_range 0 (T - window_size) step = Ok starts ->
     10 <= Z.of_nat (length starts) ->
     exists topo_features positions,
       sliding_windows (channel_data booking_channels) n_channels T window_size step
         = Ok (topo_features, positions) /\
       length topo_features = length starts /\
       detect_anomalies_tada booking_channels window_size step
         = flag_anomalies topo_features positions) /\
  (forall a l,
     detect_anomalies_tada booking_channels window_size step = Ok (a :: l) ->
     2 <= n_channels /\
     exists starts,
       py_range 0 (T - window_size) step = Ok starts /\
       10 <= Z.of_nat (length starts)).
Proof.
  intros n_channels T.
  pose proof (detect_anomalies_unfold booking_channels window_size step) as Hunfold.
  cbv zeta in Hunfold. fold n_channels in Hunfold. fold T in Hunfold.
  split; [|split; [|split]].
  - apply detect_few_channels.
  - intros starts. apply detect_few_windows.
  - intros starts Hn Hrange Hlen.
    destruct (sliding_windows_length (channel_data booking_channels) n_channels T
                window_size step starts Hrange) as (tf & pos & Hs & Htf & _).
    exists tf, pos. split; [exact Hs|]. split; [exact Htf|].
    rewrite Hunfold. rewrite decide_False by lia. rewrite Hs. simpl.
    rewrite decide_False by lia. done.
  - intros a l Hres.
    assert (n_channels < 2 \/ 2 <= n_channels) as [Hn|Hn] by lia.
    { rewrite Hunfold, decide_True in Hres by done. discriminate Hres. }
    split; [done|].
    rewrite Hunfold, decide_False in Hres by lia.
    destruct (py_range 0 (T - window_size) step) as [starts|e|] eqn:Hrange.
    + exists starts. split; [done|].
      assert (Z.of_nat (length starts) < 10 \/ 10 <= Z.of_nat (length starts))
        as [Hlen|Hlen] by lia; [|done].
      destruct (sliding_windows_length (channel_data booking_channels) n_channels T
                  window_size step starts Hrange) as (tf & pos & Hs & Htf & _).
      rewrite Hs in Hres. simpl in Hres.
      rewrite decide_True in Hres by lia. discriminate Hres.
    + unfold sliding_windows in Hres. rewrite Hrange in Hres. discriminate Hres.
    + unfold sliding_windows in Hres. rewrite Hrange in Hres. discriminate Hres.
Qed.

End AnomalyFacts.

Section AnomalyRuns.
Import Ref.

(** One channel is below the first guard; two channels of five samples with
    windows of two samples give three windows, below the second. *)
Example detect_anomalies_runs :
  detect_anomalies_tada [("online", sample_series)] 14 1 = Ok [] /\
  py_range 0 (5 - 2) 1 = Ok [0; 1; 2] /\
  detect_anomalies_tada [("online", sample_series); ("phone", sample_series)] 2 1 = Ok [].
Proof.
  split; [apply detect_few_channels; simpl; lia|].
  split; [vm_compute; reflexivity|].
  apply (detect_few_windows _ 2 1 [0; 1; 2]); [simpl; lia|vm_compute; reflexivity|simpl; lia].
Qed.

End AnomalyRuns.

(** ** simplicial.py: sorted tuples and combinations *)

Lemma ascii_compare_trans (a b c : ascii) :
  Ascii.compare a b ≠ Gt -> Ascii.compare b c ≠ Gt -> Ascii.compare a c ≠ Gt.
Proof.
  unfold Ascii.compare. rewrite !N.compare_gt_iff. lia.
Qed.

Lemma ascii_compare_refl (a : ascii) : Ascii.compare a a = Eq.
Proof. unfold Ascii.compare. apply N.compare_refl. Qed.

Lemma string_compare_trans (s1 s2 s3 : string) :
  String.compare s1 s2 ≠ Gt -> String.compare s2 s3 ≠ Gt -> String.compare s1 s3 ≠ Gt.
Proof.
  revert s2 s3. induction s1 as [|a s1 IH]; intros [|b s2] [|c s3]; simpl; try done.
  destruct (Ascii.compare a b) eqn:Hab; [| |done].
  - apply Ascii.compare_eq_iff in Hab as ->.
    destruct (Ascii.compare b c) eqn:Hbc; [|done|done]. apply IH.
  - destruct (Ascii.compare b c) eqn:Hbc; [| |done].
    + apply Ascii.compare_eq_iff in Hbc as ->. rewrite Hab. done.
    + intros _ _.
      pose proof (ascii_compare_trans a b c) as Ht. rewrite Hab, Hbc in Ht.
      destruct (Ascii.compare a c) eqn:Hac; [|done|by apply Ht].
      apply Ascii.compare_eq_iff in Hac as ->.
      rewrite Ascii.compare_antisym, Hbc in Hab. done.
Qed.

Global Instance str_le_trans : Transitive str_le.
Proof.
  intros s1 s2 s3. unfold str_le, String.leb. intros H12 H23.
  pose proof (string_compare_trans s1 s2 s3) as Ht.
  destruct (String.compare s1 s2); [| |done];
    destruct (String.compare s2 s3); try done;
    destruct (String.compare s1 s3); try done; by exfalso; apply Ht.
Qed.

Global Instance str_le_total : Total str_le.
Proof. intros s1 s2. apply String.leb_total. Qed.

Global Instance str_le_antisym : AntiSymm (=) str_le.
Proof. intros s1 s2. apply String.leb_antisym. Qed.

Lemma sorted_Permutation (s : list string) : sorted s ≡ₚ s.
Proof. apply merge_sort_Permutation. Qed.

Lemma sorted_Sorted (s : list string) : Sorted str_le (sorted s).
Proof. apply (Sorted_merge_sort str_le). Qed.

Lemma sorted_length (s : list string) : length (sorted s) = length s.
Proof. by rewrite sorted_Permutation. Qed.

(** Two tuples with the same elements have the same canonical form. *)
Lemma sorted_perm_eq (s t : list string) : s ≡ₚ t -> sorted s = sorted t.
Proof.
  intros Hst. apply (Sorted_unique str_le); [apply sorted_Sorted..|].
  by rewrite !sorted_Permutation.
Qed.

(** A sorted list is its own canonical form. *)
Lemma sorted_id (s : list string) : Sorted str_le s -> sorted s = s.
Proof.
  intros Hs. apply (Sorted_unique str_le); [apply sorted_Sorted|done|].
  apply sorted_Permutation.
Qed.

Lemma Sorted_sublist (f s : list string) :
  f `sublist_of` s -> Sorted str_le s -> Sorted str_le f.
Proof.
  intros Hsub Hs. apply Sorted_StronglySorted in Hs; [|apply _].
  apply StronglySorted_Sorted.
  induction Hsub as [|x l1 l2 Hsub IH|x l1 l2 Hsub IH].
  - constructor.
  - apply StronglySorted_inv in Hs as [Hs Hall]. constructor; [by apply IH|].
    rewrite Forall_forall in *. intros y Hy. apply Hall.
    by eapply elem_of_sublist.
  - apply StronglySorted_inv in Hs as [Hs _]. by apply IH.
Qed.

(** The faces of a canonical tuple are the canonical forms of the faces of
    the tuple. *)
Lemma sublist_sorted (f s : list string) :
  f `sublist_of` sorted s ->
  exists f0, f0 `sublist_of` s /\ sorted f0 = f.
Proof.
  intros Hf.
  destruct (sublist_Permutation f (sorted s) s Hf (sorted_Permutation s))
    as (f0 & Hperm & Hsub).
  exists f0. split; [done|].
  rewrite <- (sorted_perm_eq f f0 Hperm). apply sorted_id.
  eapply Sorted_sublist; [exact Hf|apply sorted_Sorted].
Qed.

(** [combinations l k] yields the subsequences of [l] of length [k]. *)
Lemma elem_of_combinations {A : Type} (l : list A) (k : nat) (s : list A) :
  s ∈ combinations l k <-> s `sublist_of` l /\ length s = k.
Proof.
  revert k s. induction l as [|x l IH]; intros [|k] s; simpl.
  - rewrite list_elem_of_singleton, sublist_nil_r. split; [by intros ->|].
    by intros [-> _].
  - rewrite elem_of_nil, sublist_nil_r. split; [done|]. by intros [-> ?].
  - rewrite list_elem_of_singleton. split; [intros ->; split; [apply sublist_nil_l|done]|].
    intros [_ Hlen]. by apply nil_length_inv.
  - rewrite elem_of_app, list_elem_of_fmap. setoid_rewrite IH. split.
    + intros [(t & -> & Hsub & Hlen)|[Hsub Hlen]].
      * split; [by apply sublist_skip|simpl; lia].
      * split; [by apply sublist_cons|done].
    + intros [Hsub Hlen]. destruct s as [|y s]; [done|].
      apply sublist_cons_r in Hsub as [Hsub|(t & [= -> ->] & Hsub)].
      * right. done.
      * left. exists t. simpl in Hlen. split; [done|]. split; [done|lia].
Qed.

(** ** simplicial.py: the simplices of the complex *)

Section SimplicialFacts.
Context `{SO : SetOrder}.

Lemma elem_of_set_iter {A : Type} `{Countable A} (X : gset A) (x : A) :
  x ∈ set_iter X <-> x ∈ X.
Proof. by rewrite set_iter_perm, elem_of_elements. Qed.

Lemma NoDup_set_iter {A : Type} `{Countable A} (X : gset A) : NoDup (set_iter X).
Proof. rewrite set_iter_perm. apply NoDup_elements. Qed.

Lemma length_set_iter {A : Type} `{Countable A} (X : gset A) :
  length (set_iter X) = size X.
Proof. by rewrite set_iter_perm. Qed.

Lemma elem_of_foldl_union (ents : list string) (E : gset string) (e : string) :
  e ∈ foldl (fun acc e => {[e]} ∪ acc) E ents <-> e ∈ E \/ e ∈ ents.
Proof.
  revert E. induction ents as [|x ents IH]; intros E; simpl.
  - rewrite elem_of_nil. tauto.
  - rewrite IH, elem_of_cons, elem_of_union, elem_of_singleton. tauto.
Qed.

Lemma get_list_extend {A : Type} (M : gmap Z (list A)) (k d : Z) (xs : list A) (x : A) :
  x ∈ get_list (extend M k xs) d <->
  x ∈ get_list M d \/ (d = k /\ x ∈ xs).
Proof.
  unfold get_list, extend. destruct (decide (k = d)) as [->|Hne].
  - rewrite lookup_insert_eq. simpl. rewrite elem_of_app. split.
    + intros [?|?]; [by left|by right].
    + intros [?|[_ ?]]; [by left|by right].
  - rewrite lookup_insert_ne by done. split; [by left|].
    intros [?|[? _]]; [done|congruence].
Qed.

Lemma combinations_short {A : Type} (l : list A) (k : nat) (s : list A) :
  s ∈ combinations l k -> (k <= length l)%nat.
Proof. intros [Hsub <-]%elem_of_combinations. by apply sublist_length. Qed.

Lemma add_booking_spec (b : booking) (E : gset string) (M : gmap Z (list (list string))) :
  (forall e, e ∈ fst (add_booking b (E, M)) <-> e ∈ E \/ e ∈ all_entities b) /\
  (forall d x, x ∈ get_list (snd (add_booking b (E, M))) d <->
     x ∈ get_list M d \/
     (1 <= d <= 3 /\ x ∈ combinations (all_entities b) (Z.to_nat d + 1))).
Proof.
  unfold add_booking. cbv zeta. split.
  - intros e. case_decide; cbn [fst snd]; apply elem_of_foldl_union.
  - intros d x. case_decide as Hlen; cbn [fst snd].
    + rewrite !get_list_extend. split.
      * intros [ [ [ Hx | [ -> Hx ] ] | [ -> Hx ] ] | [ -> Hx ] ];
          [by left|right; split; [lia|done]..].
      * intros [ Hx | [ Hd Hx ] ]; [by do 3 left|].
        assert (d = 1 \/ d = 2 \/ d = 3) as [ -> | [ -> | -> ] ] by lia;
          [left; left; right|left; right|right]; done.
    + rewrite !get_list_extend. split.
      * intros [ [ Hx | [ -> Hx ] ] | [ -> Hx ] ];
          [by left|right; split; [lia|done]..].
      * intros [ Hx | [ Hd Hx ] ]; [by do 2 left|].
        assert (d = 1 \/ d = 2 \/ d = 3) as [ -> | [ -> | -> ] ] by lia;
          [left; right; done|right; done|].
        apply combinations_short in Hx.
        change (Z.to_nat 3 + 1)%nat with 4%nat in Hx. lia.
Qed.

Lemma raw_simplices_spec (bookings : list booking) :
  (forall e, e ∈ fst (raw_simplices bookings) <->
     exists b, b ∈ bookings /\ e ∈ all_entities b) /\
  (forall d x, x ∈ get_list (snd (raw_simplices bookings)) d <->
     exists b, b ∈ bookings /\ 1 <= d <= 3 /\
       x ∈ combinations (all_entities b) (Z.to_nat d + 1)).
Proof.
  unfold raw_simplices.
  induction bookings as [|b bookings IH] using rev_ind.
  - simpl. split.
    + intros e. rewrite elem_of_empty. split; [done|].
      by intros (b & Hb%elem_of_nil & _).
    + intros d x. unfold get_list. rewrite lookup_empty. simpl. rewrite elem_of_nil.
      split; [done|]. by intros (b & Hb%elem_of_nil & _).
  - rewrite foldl_snoc. destruct IH as [IHe IHs].
    destruct (foldl (fun st b => add_booking b st) (∅, ∅) bookings) as [E M].
    destruct (add_booking_spec b E M) as [He Hs]. split.
    + intros e. rewrite He, IHe. split.
      * intros [(b' & Hb' & He')|He'].
        -- exists b'. split; [apply elem_of_app; by left|done].
        -- exists b. split; [apply elem_of_app; right; by apply list_elem_of_singleton|done].
      * intros (b' & [Hb'| ->%list_elem_of_singleton]%elem_of_app & He').
        -- left. by exists b'.
        -- by right.
    + intros d x. rewrite Hs, IHs. split.
      * intros [(b' & Hb' & Hx)|Hx].
        -- exists b'. split; [apply elem_of_app; by left|done].
        -- exists b. split; [apply elem_of_app; right; by apply list_elem_of_singleton|done].
      * intros (b' & [Hb'| ->%list_elem_of_singleton]%elem_of_app & Hx).
        -- left. by exists b'.
        -- by right.
Qed.

(** The simplices of the complex, dimension by dimension: the vertices are
    the entities, and the simplices of dimension 1 to 3 are the canonical
    forms of the pairs, triples and quadruples of the relations. *)
Lemma booking_simplices_spec (bookings : list booking) :
  let E := fst (booking_simplices bookings) in
  let S := snd (booking_simplices bookings) in
  (forall e, e ∈ E <-> exists b, b ∈ bookings /\ e ∈ all_entities b) /\
  (forall x, x ∈ get_list S 0 <-> exists e, x = [e] /\ e ∈ E) /\
  (forall d x, d ≠ 0 ->
     (x ∈ get_list S d <->
      exists b s, b ∈ bookings /\ 1 <= d <= 3 /\
        s ∈ combinations (all_entities b) (Z.to_nat d + 1) /\ x = sorted s)) /\
  (forall d, NoDup (get_list S d)).
Proof.
  unfold booking_simplices. fold (raw_simplices bookings).
  destruct (raw_simplices_spec bookings) as [He Hs].
  destruct (raw_simplices bookings) as [E M]. simpl in *.
  split; [exact He|]. split; [|split].
  - intros x. unfold get_list. rewrite lookup_insert_eq. simpl.
    rewrite list_elem_of_fmap. setoid_rewrite elem_of_set_iter. done.
  - intros d x Hd. unfold get_list. rewrite lookup_insert_ne by done.
    rewrite lookup_fmap. specialize (Hs d). unfold get_list in Hs.
    destruct (M !! d) as [l|]; simpl in *.
    + rewrite elem_of_set_iter, elem_of_list_to_set, list_elem_of_fmap. split.
      * intros (s & -> & (b & Hb & Hd3 & Hc)%Hs). by exists b, s.
      * intros (b & s & Hb & Hd3 & Hc & ->). exists s. split; [done|].
        apply Hs. by exists b.
    + rewrite elem_of_nil. split; [done|].
      intros (b & s & Hb & Hd3 & Hc & _).
      apply (elem_of_nil s), Hs. eauto.
  - intros d. unfold get_list. destruct (decide (d = 0)) as [->|Hd].
    + rewrite lookup_insert_eq. simpl. apply NoDup_fmap_2; [|apply NoDup_set_iter].
      by intros e1 e2 [= ->].
    + rewrite lookup_insert_ne by done. rewrite lookup_fmap.
      destruct (M !! d); simpl; [apply NoDup_set_iter|constructor].
Qed.

(** A set of entities of a relation is the set of a sub-sequence of its
    entity list. *)
Lemma sublist_of_subset (l : list string) (X : gset string) :
  X ⊆ list_to_set l -> exists s, s `sublist_of` l /\ s ≡ₚ elements X.
Proof.
  revert X. induction l as [|a l IH]; intros X HX.
  - exists []. split; [done|].
    assert (X = ∅) as ->.
    { apply leibniz_equiv. intros z. split; [|by intros ?%elem_of_empty].
      intros Hz. apply HX in Hz. by apply elem_of_list_to_set, elem_of_nil in Hz. }
    by rewrite elements_empty.
  - assert (forall z, z ∈ X -> z = a \/ z ∈ l) as HX'.
    { intros z Hz. by apply HX, elem_of_list_to_set, elem_of_cons in Hz. }
    destruct (decide (a ∈ X)) as [Ha|Ha].
    + destruct (IH (X ∖ {[a]})) as (s & Hs & Hp).
      { intros z [Hz Hza]%elem_of_difference. apply elem_of_list_to_set.
        rewrite elem_of_singleton in Hza. destruct (HX' z Hz); [done|done]. }
      exists (a :: s). split; [by apply sublist_skip|].
      assert (X = {[a]} ∪ X ∖ {[a]}) as HXa.
      { apply leibniz_equiv. intros z. rewrite elem_of_union, elem_of_difference,
          elem_of_singleton. destruct (decide (z = a)) as [->|]; tauto. }
      rewrite HXa at 1. rewrite elements_union_singleton.
      * by constructor.
      * rewrite elem_of_difference, elem_of_singleton. tauto.
    + destruct (IH X) as (s & Hs & Hp).
      { intros z Hz. apply elem_of_list_to_set.
        destruct (HX' z Hz) as [->|?]; [done|done]. }
      exists s. split; [by apply sublist_cons|done].
Qed.

(** Every simplex of dimension [d] has [d + 1] vertices, and there are only
    the dimensions 0 to 3. *)
Lemma simplex_length (bookings : list booking) (d : Z) (x : list string) :
  x ∈ get_list (snd (booking_simplices bookings)) d ->
  0 <= d <= 3 /\ Z.of_nat (length x) = d + 1.
Proof.
  destruct (booking_simplices_spec bookings) as (_ & H0 & Hd & _).
  intros Hx. destruct (decide (d = 0)) as [->|Hne].
  - apply H0 in Hx as (e & -> & _). simpl. lia.
  - apply (Hd d x Hne) in Hx as (b & s & _ & Hd3 & [_ Hlen]%elem_of_combinations & ->).
    rewrite sorted_length, Hlen. lia.
Qed.

(** The canonical form of every sub-sequence of one to four entities of a
    relation is a simplex. *)
Lemma subsequence_is_simplex (bookings : list booking) (b : booking) (s : list string) :
  b ∈ bookings -> s `sublist_of` all_entities b -> (1 <= length s <= 4)%nat ->
  sorted s ∈ get_list (snd (booking_simplices bookings)) (Z.of_nat (length s) - 1).
Proof.
  intros Hb Hs Hlen.
  destruct (booking_simplices_spec bookings) as (He & H0 & Hd & _).
  destruct (decide (length s = 1%nat)) as [H1|H1].
  - destruct s as [|e [|? ?]]; try discriminate H1.
    change (Z.of_nat (length [e]) - 1) with 0. apply H0. exists e.
    split; [by rewrite sorted_id by repeat constructor|].
    apply He. exists b. split; [done|].
    eapply elem_of_sublist; [|exact Hs]. by left.
  - apply Hd; [lia|]. exists b, s. split; [done|]. split; [lia|]. split; [|done].
    apply elem_of_combinations. split; [done|]. lia.
Qed.

(** C3 (as amended).  For every list of booking relations and every relation
    in it, every nonempty set of at most four of its entities (venue, event,
    timeslot and the vendors) is a simplex of the complex, in its sorted
    form and in the dimension of its size minus one; every nonempty face of
    every simplex is a simplex; and no simplex has more than four vertices:
    dimension [d], between 0 and 3, holds tuples of [d + 1] entities, so a
    set of five or more entities is never a simplex. *)
Theorem complex_downward_closed (bookings : list booking) :
  let S := snd (booking_simplices bookings) in
  (forall (b : booking) (X : gset string),
     b ∈ bookings -> X ⊆ list_to_set (all_entities b) ->
     (1 <= size X <= 4)%nat ->
     sorted (elements X) ∈ get_list S (Z.of_nat (size X) - 1)) /\
  (forall (d : Z) (x f : list string),
     x ∈ get_list S d -> f `sublist_of` x -> f ≠ [] ->
     f ∈ get_list S (Z.of_nat (length f) - 1)) /\
  (forall (d : Z) (x : list string),
     x ∈ get_list S d -> 0 <= d <= 3 /\ Z.of_nat (length x) = d + 1).
Proof.
  intros S. subst S. split; [|split].
  - intros b X Hb HX Hsize.
    destruct (sublist_of_subset _ _ HX) as (s & Hs & Hp).
    rewrite <- (sorted_perm_eq _ _ Hp).
    replace (size X) with (length s) in * by (by rewrite Hp).
    by apply (subsequence_is_simplex bookings b s).
  - intros d x f Hx Hf Hne.
    destruct (simplex_length _ _ _ Hx) as [Hd3 Hlen].
    assert (1 <= length f <= 4)%nat as Hlenf.
    { apply sublist_length in Hf. destruct f; [done|]. simpl in *. lia. }
    destruct (booking_simplices_spec bookings) as (He & H0 & Hd & _).
    destruct (decide (d = 0)) as [->|Hd0].
    + apply H0 in Hx as (e & -> & HeE). apply He in HeE as (b & Hb & Heb).
      assert (f = [e]) as ->.
      { destruct f as [|y [|z f]]; [done| |apply sublist_length in Hf; simpl in Hf; lia].
        apply sublist_cons_l in Hf as (k1 & k2 & Hk & _).
        destruct k1 as [|? [|? ?]]; simplify_eq/=; done. }
      apply (H0 [e]). exists e. split; [done|]. apply He. by exists b.
    + apply (Hd d x Hd0) in Hx as (b & s & Hb & _ & [Hsub _]%elem_of_combinations & ->).
      destruct (sublist_sorted f s Hf) as (f0 & Hf0 & <-).
      rewrite sorted_length. rewrite sorted_length in Hlenf.
      apply (subsequence_is_simplex bookings b f0); [done| |done].
      by etrans.
  - intros d x. apply simplex_length.
Qed.

End SimplicialFacts.

Section SimplicialRuns.
Import Ref.
Local Existing Instance Ref.set_order.

Lemma complex_downward_closed_witness :
  let X : gset string := {[ "venue:hall"; "vendor:music" ]} in
  sorted (elements X)
    ∈ get_list (snd (booking_simplices [two_vendor_booking])) (Z.of_nat (size X) - 1).
Proof.
  intros X.
  apply (proj1 (complex_downward_closed [two_vendor_booking]) two_vendor_booking X).
  - by left.
  - apply (bool_decide_unpack _). vm_compute. reflexivity.
  - vm_compute. lia.
Defined.

(** C3, counterexample: the five entities of a relation with two vendors
    are a nonempty subset of its entity set, and their tuple is a simplex in
    no dimension of the complex built from that relation. *)
Lemma five_entities_not_a_simplex :
  let X : gset string := list_to_set (all_entities two_vendor_booking) in
  size X = 5%nat /\
  forall d : Z,
    sorted (elements X) ∉ get_list (snd (booking_simplices [two_vendor_booking])) d.
Proof.
  intros X.
  assert (size X = 5%nat) as Hsize by (vm_compute; reflexivity).
  split; [done|]. intros d Hd.
  apply simplex_length in Hd as [Hd3 Hlen].
  rewrite sorted_length in Hlen.
  change (length (elements X)) with (size X) in Hlen. lia.
Qed.

End SimplicialRuns.

(** ** simplicial.py: the union-find *)

Lemma root_of_dom (parent : gmap string string) (x r : string) :
  root_of parent x r -> is_Some (parent !! x).
Proof. intros [r' Hr|x' px r' Hx _ _]; eauto. Qed.

Lemma root_of_root (parent : gmap string string) (x r : string) :
  root_of parent x r -> parent !! r = Some r.
Proof. induction 1; done. Qed.

Lemma root_of_fun (parent : gmap string string) (x r1 r2 : string) :
  root_of parent x r1 -> root_of parent x r2 -> r1 = r2.
Proof.
  intros H1. revert r2. induction H1 as [r Hr|x px r Hx Hne H1 IH]; intros r2 H2.
  - inversion H2 as [r' Hr'|x' px' r' Hx' Hne' H2']; subst; [done|].
    rewrite Hr in Hx'. by injection Hx' as <-.
  - inversion H2 as [r' Hr'|x' px' r' Hx' Hne' H2']; subst.
    + rewrite Hx in Hr'. by injection Hr' as ->.
    + rewrite Hx in Hx'. injection Hx' as <-. by apply IH.
Qed.

(** In a forest every key has a root. *)
Lemma root_exists (parent : gmap string string) (h : string -> nat) (n : nat) (x : string) :
  forest parent h n -> is_Some (parent !! x) -> exists r, root_of parent x r.
Proof.
  intros (Hclosed & Hh & Hn).
  remember (n - h x)%nat as k eqn:Hk. revert x Hk.
  induction k as [k IH] using lt_wf_ind. intros x Hk [px Hx].
  destruct (decide (px = x)) as [->|Hne].
  - exists x. by constructor.
  - destruct (IH (n - h px)%nat) with (x := px) as [r Hr]; [|done|by eapply Hclosed|].
    + pose proof (Hh x px Hx Hne). pose proof (Hn px). pose proof (Hn x). lia.
    + exists r. by econstructor.
Qed.

Lemma forest_mono (parent : gmap string string) (h : string -> nat) (n m : nat) :
  forest parent h n -> (n <= m)%nat -> forest parent h m.
Proof.
  intros (Hclosed & Hh & Hn) Hnm. split; [done|]. split; [done|].
  intros x. specialize (Hn x). lia.
Qed.

(** Path halving, line 185: [parent[x] = parent[parent[x]]] keeps the forest
    and the root of every key. *)
Lemma halve_forest (parent : gmap string string) (h : string -> nat) (n : nat)
    (x px ppx : string) :
  forest parent h n -> parent !! x = Some px -> px ≠ x -> parent !! px = Some ppx ->
  forest (<[x := ppx]> parent) h n /\ (h x < h ppx)%nat.
Proof.
  intros (Hclosed & Hh & Hn) Hx Hne Hpx.
  assert (h x < h ppx)%nat as Hlt.
  { pose proof (Hh x px Hx Hne) as H1. destruct (decide (ppx = px)) as [->|Hne']; [done|].
    pose proof (Hh px ppx Hpx Hne') as H2. lia. }
  split; [|done]. split; [|split; [|done]].
  - intros y p Hy. rewrite lookup_insert_is_Some'.
    destruct (decide (x = y)) as [->|Hxy].
    + rewrite lookup_insert_eq in Hy. injection Hy as <-. right. by eapply Hclosed.
    + rewrite lookup_insert_ne in Hy by done. right. by eapply Hclosed.
  - intros y p Hy Hpy. destruct (decide (x = y)) as [->|Hxy].
    + rewrite lookup_insert_eq in Hy. by injection Hy as <-.
    + rewrite lookup_insert_ne in Hy by done. by apply Hh.
Qed.

Lemma halve_roots (parent : gmap string string) (h : string -> nat) (n : nat)
    (x px ppx : string) :
  forest parent h n -> parent !! x = Some px -> px ≠ x -> parent !! px = Some ppx ->
  forall y r, root_of parent y r <-> root_of (<[x := ppx]> parent) y r.
Proof.
  intros Hf Hx Hne Hpx.
  destruct (halve_forest _ _ _ _ _ _ Hf Hx Hne Hpx) as [Hf' Hlt].
  assert (ppx ≠ x) as Hppx by (intros ->; lia).
  assert (forall y r, root_of parent y r ->
            root_of (<[x := ppx]> parent) y r /\
            forall py, parent !! y = Some py -> root_of (<[x := ppx]> parent) py r) as Hto.
  { intros y r Hy. induction Hy as [r Hr|y py r Hy Hpy Hroot [IH1 IH2]].
    - assert (x ≠ r) as Hxr by (intros ->; congruence).
      assert (root_of (<[x := ppx]> parent) r r) as Hrr.
      { constructor. by rewrite lookup_insert_ne. }
      split; [done|]. intros py Hpy. rewrite Hr in Hpy. by injection Hpy as <-.
    - split.
      + destruct (decide (x = y)) as [->|Hxy].
        * rewrite Hx in Hy. injection Hy as <-.
          apply (root_step _ y ppx r); [by rewrite lookup_insert_eq|done|by apply IH2].
        * apply (root_step _ y py r); [by rewrite lookup_insert_ne|done|done].
      + intros py' Hpy'. rewrite Hy in Hpy'. by injection Hpy' as <-. }
  intros y r. split; [intros Hy; by apply Hto|].
  intros Hy. destruct (root_exists parent h n y Hf) as [r' Hr'].
  { apply root_of_dom in Hy. rewrite lookup_insert_is_Some' in Hy.
    destruct Hy as [<-|Hy]; [eauto|done]. }
  by rewrite (root_of_fun _ _ _ _ Hy (proj1 (Hto y r' Hr'))).
Qed.

Section UnionFind.
Context `{SO : SetOrder}.

(** [find] returns the root, within a budget of one more step than the
    height left above [x]; the dictionary it leaves has the same keys and the
    same roots. *)
Lemma find_spec (h : string -> nat) (n : nat) (fuel : nat)
    (parent : gmap string string) (x : string) :
  forest parent h n -> is_Some (parent !! x) -> (n - h x < fuel)%nat ->
  exists r parent',
    find fuel parent x = Ok (r, parent') /\
    root_of parent x r /\
    forest parent' h n /\
    dom parent' = dom parent /\
    forall y r', root_of parent y r' <-> root_of parent' y r'.
Proof.
  revert parent x. induction fuel as [|fuel IH]; intros parent x Hf [px Hx] Hfuel; [lia|].
  simpl. rewrite (getitem_Some _ _ _ Hx). simpl.
  destruct (decide (px ≠ x)) as [Hne|Heq].
  - destruct Hf as (Hclosed & Hh & Hn).
    destruct (Hclosed x px Hx) as [ppx Hpx].
    assert (forest parent h n) as Hf by done.
    rewrite (getitem_Some _ _ _ Hpx). simpl.
    rewrite (getitem_Some _ _ ppx) by apply lookup_insert_eq. simpl.
    destruct (halve_forest _ _ _ _ _ _ Hf Hx Hne Hpx) as [Hf' Hlt].
    destruct (IH (<[x := ppx]> parent) ppx Hf') as (r & parent' & Hfind & Hr & Hf'' & Hdom & Hroots).
    { rewrite lookup_insert_is_Some'. right. by eapply Hclosed. }
    { pose proof (Hn ppx). lia. }
    exists r, parent'. split; [done|].
    pose proof (halve_roots _ _ _ _ _ _ Hf Hx Hne Hpx) as Hhalve.
    split; [|split; [done|split]].
    + apply (root_step _ x px r); [done|done|].
      destruct (decide (ppx = px)) as [->|Hne'].
      * by apply Hhalve.
      * apply (root_step _ px ppx r); [done|done|]. by apply Hhalve.
    + rewrite Hdom. apply dom_insert_lookup_L. eauto.
    + intros y r'. by rewrite Hhalve.
  - apply dec_stable in Heq as ->. exists x, parent.
    split; [done|]. split; [by constructor|]. done.
Qed.

(** [union], lines 189-192: the tree of [a] is hung below the root of [b]. *)
Lemma union_spec (h : string -> nat) (n : nat) (fuel : nat)
    (parent : gmap string string) (a b : string) :
  forest parent h n -> is_Some (parent !! a) -> is_Some (parent !! b) -> (n < fuel)%nat ->
  exists parent' h' ra rb,
    union fuel parent a b = Ok parent' /\
    forest parent' h' (S n) /\
    dom parent' = dom parent /\
    root_of parent a ra /\ root_of parent b rb /\
    forall y r', root_of parent' y r' <->
      exists r, root_of parent y r /\ r' = if decide (r = ra) then rb else r.
Proof.
  intros Hf Ha Hb Hfuel. unfold union.
  destruct (find_spec h n fuel parent a Hf Ha) as (ra & p1 & -> & Hra & Hf1 & Hdom1 & Hroots1);
    [lia|].
  simpl.
  assert (is_Some (p1 !! b)) as Hb1 by (by rewrite <- elem_of_dom, Hdom1, elem_of_dom).
  destruct (find_spec h n fuel p1 b Hf1 Hb1) as (rb & p2 & -> & Hrb & Hf2 & Hdom2 & Hroots2);
    [lia|].
  simpl.
  assert (forall y r, root_of parent y r <-> root_of p2 y r) as Hroots.
  { intros y r. by rewrite Hroots1, Hroots2. }
  assert (dom p2 = dom parent) as Hdom by (by rewrite Hdom2).
  apply Hroots1 in Hrb. apply Hroots in Hra as Hra2. apply Hroots in Hrb as Hrb2.
  apply root_of_root in Hra2, Hrb2.
  destruct (decide (ra ≠ rb)) as [Hne|Heq].
  - exists (<[ra := rb]> p2),
      (fun z => if decide (z = rb) then (h rb `max` (h ra + 1))%nat else h z), ra, rb.
    split; [done|].
    destruct Hf2 as (Hclosed & Hh & Hn).
    assert (forall y r, root_of p2 y r -> r ≠ ra -> root_of (<[ra := rb]> p2) y r) as HA.
    { intros y r Hy Hr. induction Hy as [r Hy|y py r Hy Hpy Hroot IH].
      - constructor. by rewrite lookup_insert_ne.
      - apply (root_step _ y py r); [|done|by apply IH].
        rewrite lookup_insert_ne; [done|]. intros ->. congruence. }
    assert (forall y r, root_of p2 y r -> r = ra -> root_of (<[ra := rb]> p2) y rb) as HB.
    { intros y r Hy Hr. induction Hy as [r Hy|y py r Hy Hpy Hroot IH].
      - subst r. apply (root_step _ ra rb rb); [by rewrite lookup_insert_eq|done|].
        constructor. by rewrite lookup_insert_ne.
      - apply (root_step _ y py rb); [|done|by apply IH].
        rewrite lookup_insert_ne; [done|]. intros ->. congruence. }
    split; [|split; [|split; [done|split; [done|]]]].
    + split; [|split].
      * intros y p Hy. rewrite lookup_insert_is_Some'.
        destruct (decide (ra = y)) as [->|Hy'].
        -- rewrite lookup_insert_eq in Hy. injection Hy as <-. right. eauto.
        -- rewrite lookup_insert_ne in Hy by done. right. by eapply Hclosed.
      * intros y p Hy Hpy. destruct (decide (ra = y)) as [->|Hy'].
        -- rewrite lookup_insert_eq in Hy. injection Hy as <-.
           rewrite (decide_True (P := rb = rb)) by done.
           rewrite (decide_False (P := y = rb)) by done. lia.
        -- rewrite lookup_insert_ne in Hy by done.
           assert (y ≠ rb) as Hyrb by (intros ->; congruence).
           rewrite (decide_False (P := y = rb)) by done.
           pose proof (Hh y p Hy Hpy). destruct (decide (p = rb)); [subst|]; lia.
      * intros z. pose proof (Hn z). pose proof (Hn rb). pose proof (Hn ra).
        destruct (decide (z = rb)); lia.
    + rewrite <- Hdom. apply dom_insert_lookup_L. eauto.
    + intros y r'. split.
      * intros Hy. destruct (root_exists parent h n y Hf) as [r Hr].
        { apply root_of_dom in Hy. rewrite lookup_insert_is_Some' in Hy.
          rewrite <- elem_of_dom, <- Hdom, elem_of_dom. destruct Hy as [<-|Hy]; eauto. }
        exists r. split; [done|]. apply Hroots in Hr.
        destruct (decide (r = ra)) as [Hr'|Hr'].
        -- exact (root_of_fun _ _ _ _ Hy (HB y r Hr Hr')).
        -- exact (root_of_fun _ _ _ _ Hy (HA y r Hr Hr')).
      * intros (r & Hr & ->). apply Hroots in Hr.
        destruct (decide (r = ra)) as [Hr'|Hr']; [by eapply HB|by eapply HA].
  - apply dec_stable in Heq as <-. exists p2, h, ra, ra.
    split; [done|]. split; [apply (forest_mono p2 h n); [done|lia]|].
    split; [done|]. split; [done|]. split; [done|].
    intros y r'. rewrite <- Hroots. split.
    + intros Hy. exists r'. split; [done|]. by destruct (decide (r' = ra)).
    + intros (r & Hr & ->). by destruct (decide (r = ra)) as [->|].
Qed.

End UnionFind.

(** ** simplicial.py: connected components *)

(** Adding one edge joins two components and changes nothing else. *)
Lemma rtsc_add_edge {A : Type} (R R' : relation A) (a b : A) :
  (forall u v, R' u v <-> R u v \/ (u = a /\ v = b)) ->
  forall x y, rtsc R' x y <->
    rtsc R x y \/ (rtsc R x a /\ rtsc R b y) \/ (rtsc R x b /\ rtsc R a y).
Proof.
  intros HR x y. split.
  - intros H. induction H as [x|x z y Hxz _ IH].
    + by left.
    + assert (rtsc R x z \/ (x = a /\ z = b) \/ (x = b /\ z = a)) as Hstep.
      { destruct Hxz as [H|H]; apply HR in H as [H|[-> ->]].
        - left. by apply rtsc_lr.
        - right. by left.
        - left. by apply rtsc_rl.
        - right. by right. }
      destruct Hstep as [Hxz'|[[-> ->]|[-> ->]]].
      * destruct IH as [IH|[[IH1 IH2]|[IH1 IH2]]].
        -- left. by etrans.
        -- right. left. split; [by etrans|done].
        -- right. right. split; [by etrans|done].
      * destruct IH as [IH|[[IH1 IH2]|[IH1 IH2]]].
        -- right. left. done.
        -- right. left. done.
        -- left. done.
      * destruct IH as [IH|[[IH1 IH2]|[IH1 IH2]]].
        -- right. right. done.
        -- left. done.
        -- right. right. done.
  - assert (forall u v, rtsc R u v -> rtsc R' u v) as Hmono.
    { intros u v. apply rtc_subrel. intros u' v' [H|H]; [left|right]; apply HR; by left. }
    assert (rtsc R' a b) as Hab by (apply rtsc_lr, HR; by right).
    intros [H|[[H1 H2]|[H1 H2]]].
    + by apply Hmono.
    + etrans; [by apply Hmono|]. etrans; [exact Hab|]. by apply Hmono.
    + etrans; [by apply Hmono|]. etrans; [symmetry; exact Hab|]. by apply Hmono.
Qed.

(** Without edges every vertex is a component of its own. *)
Lemma connected_nil (x y : string) : connected [] x y <-> x = y.
Proof.
  split; [|by intros ->].
  induction 1 as [x|x z y [H|H] _ IH]; [done|by apply elem_of_nil in H..].
Qed.

Lemma edge_rel_snoc (edges : list (list string)) (e : list string) (a b : string) :
  edge_rel (edges ++ [e]) a b <-> edge_rel edges a b \/ e = [a; b].
Proof.
  unfold edge_rel. rewrite elem_of_app, list_elem_of_singleton.
  split; intros [H|H]; auto.
Qed.

(** An edge that is not a pair links nothing. *)
Lemma connected_snoc_skip (edges : list (list string)) (e : list string) (x y : string) :
  length e ≠ 2%nat -> connected (edges ++ [e]) x y <-> connected edges x y.
Proof.
  intros He. unfold connected.
  assert (forall u v, edge_rel (edges ++ [e]) u v <-> edge_rel edges u v) as Hsame.
  { intros u v. rewrite edge_rel_snoc. split; [|by left].
    intros [H| ->]; [done|]. by destruct He. }
  split; apply rtc_subrel; intros u v [H|H]; [left|right|left|right]; by apply Hsame.
Qed.

(** The dictionary [{v: v for v in vertices}]. *)
Lemma lookup_identity_map (V : gset string) (x p : string) :
  (set_to_map (fun v => (v, v)) V : gmap string string) !! x = Some p <-> x ∈ V /\ p = x.
Proof.
  rewrite lookup_set_to_map by (by intros ? ? _ _ ?).
  split.
  - intros (z & Hz & [= -> ->]). done.
  - intros [Hx ->]. by exists x.
Qed.

Lemma same_tree_refl_root (parent : gmap string string) (x r : string) :
  root_of parent x r -> same_tree parent x r.
Proof.
  intros Hr. exists r. split; [done|]. constructor. by eapply root_of_root.
Qed.

Section Components.
Context `{SO : SetOrder}.

(** The loop of lines 194-196: after it, two vertices are in the same tree
    exactly when they are connected. *)
Lemma union_loop (fuel : nat) (V : gset string) (edges : list (list string)) :
  (forall a b, [a; b] ∈ edges -> a ∈ V /\ b ∈ V) ->
  (length edges < fuel)%nat ->
  exists parent h,
    for_each edges
      (fun edge parent =>
         if decide (length edge = 2%nat) then
           a ← list_getitem edge 0;
           b ← list_getitem edge 1;
           union fuel parent a b
         else Ok parent)
      (set_to_map (fun v => (v, v)) V) = Ok parent /\
    forest parent h (length edges) /\
    (forall x, is_Some (parent !! x) <-> x ∈ V) /\
    (forall x y, x ∈ V -> y ∈ V -> same_tree parent x y <-> connected edges x y).
Proof.
  induction edges as [|e edges IH] using rev_ind; intros Hends Hfuel.
  - exists (set_to_map (fun v => (v, v)) V), (fun _ => 0%nat).
    split; [done|]. split; [|split].
    + split; [|split].
      * intros x p [Hx ->]%lookup_identity_map. exists x. by apply lookup_identity_map.
      * by intros x p [Hx ->]%lookup_identity_map.
      * done.
    + intros x. split.
      * by intros [p [Hx _]%lookup_identity_map].
      * intros Hx. exists x. by apply lookup_identity_map.
    + intros x y Hx Hy. rewrite connected_nil. split.
      * intros (r & Hrx & Hry).
        assert (forall z r', root_of (set_to_map (fun v => (v, v)) V) z r' -> r' = z) as Hid.
        { intros z r' Hz. destruct Hz as [r' Hz|z pz r' Hz Hpz _]; [done|].
          by apply lookup_identity_map in Hz as [_ ->]. }
        apply Hid in Hrx, Hry. congruence.
      * intros ->. exists y. split; constructor; by apply lookup_identity_map.
  - rewrite length_app in Hfuel. simpl in Hfuel.
    destruct IH as (parent & h & Hloop & Hf & Hdom & Hsame).
    { intros a b Hab. apply Hends, elem_of_app. by left. }
    { lia. }
    rewrite for_each_app, Hloop. simpl.
    destruct (decide (length e = 2%nat)) as [He|He].
    + destruct e as [|a [|b [|? ?]]]; try discriminate He. clear He.
      change (list_getitem [a; b] 0) with (Ok (A := string) a).
      change (list_getitem [a; b] 1) with (Ok (A := string) b). simpl.
      destruct (Hends a b) as [Ha Hb]; [apply elem_of_app; right; by left|].
      destruct (union_spec h (length edges) fuel parent a b Hf)
        as (parent' & h' & ra & rb & -> & Hf' & Hdom' & Hra & Hrb & Hroots);
        [by apply Hdom|by apply Hdom|lia|].
      exists parent', h'. split; [done|].
      split; [rewrite length_app; simpl; by rewrite Nat.add_1_r|].
      assert (forall x, is_Some (parent' !! x) <-> x ∈ V) as Hdom''.
      { intros x. by rewrite <- Hdom, <- !elem_of_dom, Hdom'. }
      split; [done|].
      intros x y Hx Hy. unfold connected.
      rewrite (rtsc_add_edge (edge_rel edges) (edge_rel (edges ++ [[a; b]])) a b).
      2:{ intros u v. rewrite edge_rel_snoc. split; (intros [H|H]; [by left|right]).
          - by injection H as -> ->.
          - by destruct H as [-> ->]. }
      fold (connected edges).
      rewrite <- !Hsame by done.
      destruct (root_exists parent h _ x Hf) as [rx Hrx]; [by apply Hdom|].
      destruct (root_exists parent h _ y Hf) as [ry Hry]; [by apply Hdom|].
      assert (forall u v ru rv, root_of parent u ru -> root_of parent v rv ->
                (same_tree parent u v <-> ru = rv)) as Hst.
      { intros u v ru rv Hu Hv. split.
        - intros (r & Hur & Hvr).
          rewrite (root_of_fun _ _ _ _ Hu Hur). exact (root_of_fun _ _ _ _ Hvr Hv).
        - intros ->. by exists rv. }
      rewrite (Hst x y rx ry), (Hst x a rx ra), (Hst b y rb ry),
        (Hst x b rx rb), (Hst a y ra ry) by done.
      split.
      * intros (r & Hxr & Hyr).
        apply Hroots in Hxr as (rx' & Hrx' & ->). apply Hroots in Hyr as (ry' & Hry' & Heq).
        rewrite (root_of_fun _ _ _ _ Hrx' Hrx) in Heq.
        rewrite (root_of_fun _ _ _ _ Hry' Hry) in Heq.
        destruct (decide (rx = ra)), (decide (ry = ra)); subst; auto.
      * intros Hcases.
        exists (if decide (rx = ra) then rb else rx). split.
        -- apply Hroots. by exists rx.
        -- apply Hroots. exists ry. split; [done|].
           destruct (decide (rx = ra)), (decide (ry = ra)); subst;
             destruct Hcases as [?|[[? ?]|[? ?]]]; congruence.
    + exists parent, h. split; [done|].
      split; [apply (forest_mono parent h (length edges)); [done|rewrite length_app; lia]|].
      split; [done|].
      intros x y Hx Hy. rewrite connected_snoc_skip by done. by apply Hsame.
Qed.

(** The loop of line 198: the set of the roots of all vertices. *)
Lemma roots_loop (fuel : nat) (h : string -> nat) (n : nat)
    (parent0 : gmap string string) (vs : list string)
    (roots : gset string) (parent : gmap string string) :
  forest parent h n -> (n < fuel)%nat ->
  (forall v, v ∈ vs -> is_Some (parent !! v)) ->
  (forall y r, root_of parent0 y r <-> root_of parent y r) ->
  exists roots' parent',
    for_each vs
      (fun v '(roots, parent) =>
         '(r, parent) ← find fuel parent v;
         Ok ({[r]} ∪ roots, parent))
      (roots, parent) = Ok (roots', parent') /\
    forall r, r ∈ roots' <-> r ∈ roots \/ exists v, v ∈ vs /\ root_of parent0 v r.
Proof.
  revert roots parent. induction vs as [|v vs IH]; intros roots parent Hf Hfuel Hvs Hroots.
  - exists roots, parent. split; [done|]. intros r. split; [by left|].
    intros [?|(v & Hv%elem_of_nil & _)]; done.
  - simpl.
    destruct (find_spec h n fuel parent v Hf) as (r & p1 & -> & Hr & Hf1 & Hdom1 & Hroots1);
      [apply Hvs; by left|lia|].
    simpl.
    destruct (IH ({[r]} ∪ roots) p1 Hf1 Hfuel) as (roots' & parent' & -> & Hmem).
    { intros w Hw. rewrite <- elem_of_dom, Hdom1, elem_of_dom. apply Hvs. by right. }
    { intros y r'. by rewrite Hroots, Hroots1. }
    exists roots', parent'. split; [done|].
    intros r'. rewrite Hmem, elem_of_union, elem_of_singleton. split.
    + intros [[->|?]|(w & Hw & Hwr)].
      * right. exists v. split; [by left|]. by apply Hroots.
      * by left.
      * right. exists w. split; [by right|done].
    + intros [?|(w & [->|Hw]%elem_of_cons & Hwr)].
      * left. by right.
      * left. left. apply Hroots in Hwr. exact (root_of_fun _ _ _ _ Hwr Hr).
      * right. by exists w.
Qed.

Lemma mapM_first_of_singletons (vs : list string) :
  mapM (fun s : list string => list_getitem s 0) (map (fun e => [e]) vs) = Ok vs.
Proof.
  induction vs as [|v vs IH]; [done|].
  simpl. change (list_getitem [v] 0) with (Ok (A := string) v). simpl.
  by rewrite IH.
Qed.

(** Lines 179-199: on the vertices [vs] and edges between them, with a
    budget above the number of edges, the union-find returns the number of
    connected components of the graph. *)
Lemma count_components_spec (fuel : nat) (vs : list string) (edges : list (list string)) :
  (forall a b, [a; b] ∈ edges -> a ∈ vs /\ b ∈ vs) ->
  (length edges < fuel)%nat ->
  exists n,
    count_components fuel (map (fun e => [e]) vs) edges = Ok n /\
    num_components (list_to_set vs) edges n.
Proof.
  intros Hends Hfuel. unfold count_components.
  rewrite mapM_first_of_singletons. simpl.
  set (V := list_to_set vs : gset string).
  destruct (union_loop fuel V edges) as (parent & h & -> & Hf & Hdom & Hsame); [|done|].
  { intros a b Hab. subst V. rewrite !elem_of_list_to_set. by apply Hends. }
  simpl.
  destruct (roots_loop fuel h (length edges) parent (set_iter V) ∅ parent Hf Hfuel)
    as (roots & parent' & -> & Hroots); [|done|].
  { intros v Hv. apply Hdom. by apply elem_of_set_iter in Hv. }
  simpl. eexists. split; [done|].
  exists (elements roots). split; [done|]. split; [apply NoDup_elements|].
  assert (forall r, r ∈ roots <-> exists v, v ∈ V /\ root_of parent v r) as Hroots'.
  { intros r. rewrite Hroots. setoid_rewrite elem_of_set_iter. split.
    - intros [?%elem_of_empty|?]; done.
    - by right. }
  assert (forall r, r ∈ roots -> r ∈ V /\ root_of parent r r) as Hself.
  { intros r (v & Hv & Hr)%Hroots'. apply root_of_root in Hr. split.
    - apply Hdom. eauto.
    - by constructor. }
  split; [|split].
  - intros r Hr%elem_of_elements. by apply Hself.
  - intros v Hv. destruct (root_exists parent h _ v Hf) as [r Hr]; [by apply Hdom|].
    exists r. assert (r ∈ roots) as Hrr by (apply Hroots'; eauto).
    split; [by apply elem_of_elements|].
    apply Hsame; [done|by apply Hself|]. by apply same_tree_refl_root.
  - intros r1 r2 Hr1%elem_of_elements Hr2%elem_of_elements Hconn.
    apply Hself in Hr1 as [Hv1 Hr1]. apply Hself in Hr2 as [Hv2 Hr2].
    apply Hsame in Hconn as (r & H1 & H2); [|done|done].
    rewrite (root_of_fun _ _ _ _ Hr1 H1). exact (root_of_fun _ _ _ _ H2 Hr2).
Qed.

End Components.

(** ** simplicial.py: the Betti numbers *)

Global Instance beta_key_inj : Inj (=) (=) (fun k : Z => "beta_" +:+ pretty k).
Proof. intros x y Hxy. simpl in Hxy. simplify_eq. by apply (inj pretty). Qed.

Global Instance dim_key_inj : Inj (=) (=) (fun dim : Z => "dim_" +:+ pretty dim).
Proof. intros x y Hxy. simpl in Hxy. simplify_eq. by apply (inj pretty). Qed.

Lemma le_foldr_max (z : Z) (l : list Z) (k : Z) :
  k ∈ z :: l -> k <= foldr Z.max z l.
Proof.
  induction l as [|a l IH]; simpl.
  - intros ->%list_elem_of_singleton. lia.
  - intros [->|[->|Hk]%elem_of_cons]%elem_of_cons.
    + assert (z <= foldr Z.max z l) by (apply IH; by left). lia.
    + lia.
    + assert (k <= foldr Z.max z l) by (apply IH; by right). lia.
Qed.

(** [max(d.keys())] bounds every key. *)
Lemma max_key_ge {A : Type} (d : gmap Z A) (k : Z) :
  is_Some (d !! k) -> k <= max_key d.
Proof.
  intros Hk%elem_of_dom%elem_of_elements. unfold max_key.
  destruct (elements (dom d)) as [|z l]; [by apply elem_of_nil in Hk|].
  by apply le_foldr_max.
Qed.

Section BettiFacts.
Context `{SO : SetOrder}.

(** [_compute_betti_numbers] on a complex whose vertices are the singletons
    of [vs] and whose edges join vertices. *)
Lemma compute_betti_spec (fuel : nat) (S : gmap Z (list (list string))) (vs : list string) :
  S !! 0 = Some (map (fun e => [e]) vs) ->
  (forall a b, [a; b] ∈ get_list S 1 -> a ∈ vs /\ b ∈ vs) ->
  (length (get_list S 1) < fuel)%nat ->
  exists betti n,
    _compute_betti_numbers fuel S = Ok betti /\
    betti !! ("beta_" +:+ pretty 0) = Some n /\
    num_components (list_to_set vs) (get_list S 1) n /\
    (forall k, 1 <= k <= max_key S ->
       betti !! ("beta_" +:+ pretty k)
       = Some (Z.max 0 (Z.of_nat (length (get_list S k))
                        - Z.of_nat (length (get_list S (k - 1)))
                        - Z.of_nat (length (get_list S (k + 1)))))) /\
    (forall key, (forall k, 0 <= k <= max_key S -> key ≠ "beta_" +:+ pretty k) ->
       betti !! key = None).
Proof.
  intros H0 Hends Hfuel. unfold _compute_betti_numbers. cbv zeta.
  assert (0 <= max_key S) as Hmax by (apply max_key_ge; eauto).
  unfold py_range1. rewrite seqZ_cons by lia.
  replace (Z.succ 0) with 1 by lia. replace (Z.pred (max_key S + 1)) with (max_key S) by lia.
  set (val := fun k => Z.max 0 (Z.of_nat (length (get_list S k))
                        - Z.of_nat (length (get_list S (k - 1)))
                        - Z.of_nat (length (get_list S (k + 1))))).
  set (body := fun (k : Z) (betti : gmap string Z) => _).
  assert (exists n, body 0 ∅ = Ok (<["beta_" +:+ pretty 0 := n]> ∅) /\
            num_components (list_to_set vs) (get_list S 1) n) as (n & Hbody0 & Hn).
  { subst body. cbv beta.
    assert (get_list S 0 = map (fun e => [e]) vs) as -> by (unfold get_list; by rewrite H0).
    destruct (decide (map (fun e : string => [e]) vs = [])) as [Hnil|Hnil].
    - exists 0. split; [done|]. destruct vs; [|discriminate Hnil].
      exists []. split; [done|]. split; [constructor|]. split; [|split].
      + by intros r ?%elem_of_nil.
      + by intros v ?%elem_of_empty.
      + by intros r1 r2 ?%elem_of_nil.
    - rewrite decide_True by done.
      destruct (count_components_spec fuel vs (get_list S 1) Hends Hfuel) as (n & Hc & Hn).
      exists n. split; [|done]. by rewrite Hc. }
  change (for_each (0 :: seqZ 1 (max_key S)) body ∅)
    with (mbind (for_each (seqZ 1 (max_key S)) body) (body 0 ∅)).
  rewrite Hbody0. simpl.
  rewrite (for_each_pure _ _ (fun acc k => <["beta_" +:+ pretty k := val k]> acc)).
  2:{ intros k acc Hk%elem_of_seqZ. subst body. cbv beta.
      destruct (decide (get_list S k = [])) as [Hnil|Hnil].
      - do 2 f_equal. subst val. cbv beta. rewrite Hnil. simpl. lia.
      - rewrite decide_False by lia. done. }
  eexists _, n. split; [done|]. split; [|split; [done|split]].
  - rewrite (lookup_foldl_insert (fun k : Z => "beta_" +:+ pretty k) val).
    + apply lookup_insert_eq.
    + intros k Hk%elem_of_seqZ Heq. apply beta_key_inj in Heq. lia.
  - intros k Hk.
    apply (lookup_foldl_insert_elem (fun k : Z => "beta_" +:+ pretty k) val).
    + apply beta_key_inj.
    + apply elem_of_seqZ. lia.
  - intros key Hkey.
    rewrite (lookup_foldl_insert (fun k : Z => "beta_" +:+ pretty k) val).
    + rewrite lookup_insert_ne; [done|]. intros Heq. by apply (Hkey 0).
    + intros k Hk%elem_of_seqZ Heq. apply (Hkey k); [lia|done].
Qed.

End BettiFacts.

(** ** simplicial.py: counting simplices and components *)

(** A sub-sequence of a duplicate-free list is determined by its elements. *)
Lemma sublist_perm_eq {A : Type} (l s1 s2 : list A) :
  NoDup l -> s1 `sublist_of` l -> s2 `sublist_of` l -> s1 ≡ₚ s2 -> s1 = s2.
Proof.
  intros Hl. revert s1 s2. induction Hl as [|a l Ha Hl IH]; intros s1 s2 H1 H2 Hp.
  - apply sublist_nil_r in H1, H2. by subst.
  - apply sublist_cons_r in H1 as [H1|(s1' & -> & H1)];
      apply sublist_cons_r in H2 as [H2|(s2' & -> & H2)].
    + by apply IH.
    + exfalso. apply Ha. eapply elem_of_sublist; [|exact H1]. rewrite Hp. by left.
    + exfalso. apply Ha. eapply elem_of_sublist; [|exact H2]. rewrite <- Hp. by left.
    + f_equal. apply IH; [done..|]. by apply Permutation_cons_inv in Hp.
Qed.

Lemma NoDup_combinations {A : Type} (l : list A) (k : nat) :
  NoDup l -> NoDup (combinations l k).
Proof.
  intros Hl. revert k. induction Hl as [|a l Ha Hl IH]; intros [|k]; simpl.
  - apply NoDup_singleton.
  - constructor.
  - apply NoDup_singleton.
  - apply NoDup_app. split; [|split].
    + apply (NoDup_fmap_2 (cons a)), IH.
    + intros s Hs Hs'. apply (list_elem_of_fmap (cons a)) in Hs as (s' & -> & _).
      apply elem_of_combinations in Hs' as [Hs' _].
      apply Ha. eapply elem_of_sublist; [|exact Hs']. by left.
    + apply IH.
Qed.

(** The combinations of distinct entities have distinct canonical forms. *)
Lemma NoDup_sorted_combinations (l : list string) (k : nat) :
  NoDup l -> NoDup (map sorted (combinations l k)).
Proof.
  intros Hl. apply (NoDup_fmap_2_strong sorted); [|by apply NoDup_combinations].
  intros s1 s2 [H1 _]%elem_of_combinations [H2 _]%elem_of_combinations Heq.
  apply (sublist_perm_eq l); [done..|].
  by rewrite <- (sorted_Permutation s1), Heq, sorted_Permutation.
Qed.

Lemma combinations_nil {A : Type} (l : list A) (k : nat) :
  (length l < k)%nat -> combinations l k = [].
Proof.
  intros Hlen. destruct (combinations l k) as [|s ss] eqn:E; [done|].
  assert (s ∈ combinations l k) as Hs by (rewrite E; by left).
  apply elem_of_combinations in Hs as [Hs <-]. apply sublist_length in Hs. lia.
Qed.

Lemma lookup_extend {A : Type} (M : gmap Z (list A)) (k d : Z) (xs : list A) :
  extend M k xs !! d = if decide (k = d) then Some (get_list M k ++ xs)%list else M !! d.
Proof.
  unfold extend, get_list. destruct (decide (k = d)) as [->|Hne].
  - by rewrite lookup_insert_eq.
  - by rewrite lookup_insert_ne.
Qed.

Lemma pair_sublist {A : Type} (l : list A) (x y : A) :
  x ∈ l -> y ∈ l -> x ≠ y -> [x; y] `sublist_of` l \/ [y; x] `sublist_of` l.
Proof.
  assert (forall (z : A) (l : list A), z ∈ l -> [z] `sublist_of` l) as Hone.
  { intros z l' Hz. apply list_elem_of_split in Hz as (l1 & l2 & ->).
    apply (sublist_inserts_l l1 [z] (z :: l2)). apply sublist_skip, sublist_nil_l. }
  induction l as [|a l IH]; intros Hx Hy Hne; [by apply elem_of_nil in Hx|].
  apply elem_of_cons in Hx as [->|Hx]; apply elem_of_cons in Hy as [->|Hy].
  - done.
  - left. by apply sublist_skip, Hone.
  - right. by apply sublist_skip, Hone.
  - destruct (IH Hx Hy Hne) as [H|H]; [left|right]; by apply sublist_cons.
Qed.

(** A graph all of whose vertices are connected has one component. *)
Lemma num_components_one (V : gset string) (edges : list (list string)) (n : Z) :
  (exists v, v ∈ V) ->
  (forall x y, x ∈ V -> y ∈ V -> connected edges x y) ->
  num_components V edges n -> n = 1.
Proof.
  intros [v Hv] Hconn (reps & <- & Hnd & HV & Hrep & Hsep).
  destruct reps as [|r1 [|r2 reps]].
  - destruct (Hrep v Hv) as (r & Hr%elem_of_nil & _). done.
  - done.
  - assert (r1 = r2) as ->.
    { apply Hsep; [by left|by right; left|].
      apply Hconn; apply HV; [by left|by right; left]. }
    apply NoDup_cons in Hnd as [Hnd _]. destruct Hnd. by left.
Qed.

Lemma length_le_of_injection {A : Type} (R : A -> A -> Prop) (l1 l2 : list A) :
  NoDup l1 ->
  (forall x, x ∈ l1 -> exists y, y ∈ l2 /\ R x y) ->
  (forall x x' y, x ∈ l1 -> x' ∈ l1 -> R x y -> R x' y -> x = x') ->
  (length l1 <= length l2)%nat.
Proof.
  intros Hnd. revert l2. induction Hnd as [|a l1 Ha Hnd IH]; intros l2 Hex Hinj.
  - simpl. lia.
  - destruct (Hex a) as (y & Hy & Hay); [by left|].
    apply list_elem_of_split in Hy as (k1 & k2 & ->).
    specialize (IH (k1 ++ k2)%list). rewrite length_app in *. simpl.
    assert (length l1 <= length k1 + length k2)%nat; [|lia].
    apply IH.
    + intros x Hx. destruct (Hex x) as (y' & Hy' & Hxy'); [by right|].
      exists y'. split; [|done].
      apply elem_of_app in Hy' as [?|[->|?]%elem_of_cons]; [apply elem_of_app; by left| |apply elem_of_app; by right].
      destruct Ha. by rewrite (Hinj a x y) by (done || by left || by right).
    + intros x x' y' Hx Hx'. apply Hinj; by right.
Qed.

(** The number of components is determined by the graph. *)
Lemma num_components_unique (V : gset string) (edges : list (list string)) (n m : Z) :
  num_components V edges n -> num_components V edges m -> n = m.
Proof.
  assert (forall n m, num_components V edges n -> num_components V edges m -> n <= m) as Hle.
  { clear n m. intros n m (reps1 & <- & Hnd1 & HV1 & Hrep1 & Hsep1)
      (reps2 & <- & Hnd2 & HV2 & Hrep2 & Hsep2).
    apply inj_le, (length_le_of_injection (connected edges)); [done| |].
    - intros x Hx. by apply Hrep2, HV1.
    - intros x x' y Hx Hx' Hxy Hx'y. apply Hsep1; [done..|].
      unfold connected in *. etrans; [exact Hxy|]. by symmetry. }
  intros Hn Hm. apply Z.le_antisymm; by apply Hle.
Qed.

Section ComplexFacts.
Context `{SO : SetOrder}.

Lemma list_to_set_set_iter (X : gset string) : list_to_set (set_iter X) = X.
Proof.
  apply leibniz_equiv. intros x. by rewrite elem_of_list_to_set, elem_of_set_iter.
Qed.

Lemma booking_simplices_vertices (bookings : list booking) :
  snd (booking_simplices bookings) !! 0
  = Some (map (fun e => [e]) (set_iter (fst (booking_simplices bookings)))).
Proof.
  unfold booking_simplices. destruct (foldl _ _ bookings) as [E M]. simpl.
  apply lookup_insert_eq.
Qed.

(** The deduplicated list of a dimension. *)
Lemma booking_simplices_lookup (bookings : list booking) (d : Z) :
  d ≠ 0 ->
  snd (booking_simplices bookings) !! d
  = (fun l => set_iter (list_to_set (map sorted l) : gset (list string)))
      <$> snd (raw_simplices bookings) !! d.
Proof.
  intros Hd. unfold booking_simplices. fold (raw_simplices bookings).
  destruct (raw_simplices bookings) as [E M]. simpl.
  rewrite lookup_insert_ne by done. apply lookup_fmap.
Qed.

(** The edges of the complex join entities. *)
Lemma edge_endpoints (bookings : list booking) (a b : string) :
  [a; b] ∈ get_list (snd (booking_simplices bookings)) 1 ->
  a ∈ fst (booking_simplices bookings) /\ b ∈ fst (booking_simplices bookings).
Proof.
  destruct (booking_simplices_spec bookings) as (He & _ & Hd & _).
  intros (b0 & s & Hb0 & _ & [Hs _]%elem_of_combinations & Heq)%Hd; [|done].
  assert (forall z, z ∈ [a; b] -> z ∈ fst (booking_simplices bookings)) as Hz.
  { intros z Hz. apply He. exists b0. split; [done|].
    eapply elem_of_sublist; [|exact Hs]. by rewrite <- (sorted_Permutation s), <- Heq. }
  split; apply Hz; [by left|by right; left].
Qed.

(** The entities of one relation lie in one component. *)
Lemma relation_entities_connected (bookings : list booking) (b : booking) (x y : string) :
  b ∈ bookings -> x ∈ all_entities b -> y ∈ all_entities b ->
  connected (get_list (snd (booking_simplices bookings)) 1) x y.
Proof.
  intros Hb Hx Hy. destruct (decide (x = y)) as [->|Hne]; [done|].
  assert (forall u v, [u; v] `sublist_of` all_entities b ->
            connected (get_list (snd (booking_simplices bookings)) 1) u v) as Hpair.
  { intros u v Huv.
    pose proof (subsequence_is_simplex bookings b [u; v] Hb Huv) as Hs.
    change (Z.of_nat (length [u; v]) - 1) with 1 in Hs.
    pose proof (sorted_Permutation [u; v]) as Hp. symmetry in Hp.
    apply Permutation_length_2_inv in Hp as [Hp|Hp]; rewrite Hp in Hs.
    - apply rtsc_lr. apply Hs. simpl. lia.
    - apply rtsc_rl. apply Hs. simpl. lia. }
  destruct (pair_sublist _ _ _ Hx Hy Hne) as [H|H].
  - by apply Hpair.
  - symmetry. by apply Hpair.
Qed.

(** A single relation of distinct entities: the number of simplices of
    every dimension is the number of combinations. *)
Lemma single_relation_counts (b : booking) (d : Z) :
  NoDup (all_entities b) -> 1 <= d <= 3 -> (d = 3 -> (4 <= length (all_entities b))%nat) ->
  exists l, snd (booking_simplices [b]) !! d = Some l /\
    length l = length (combinations (all_entities b) (Z.to_nat d + 1)).
Proof.
  intros Hnd Hd Hlen. rewrite booking_simplices_lookup by lia.
  assert (snd (raw_simplices [b]) !! d
          = Some (combinations (all_entities b) (Z.to_nat d + 1))) as ->.
  { unfold raw_simplices. cbn [foldl]. unfold add_booking. cbv zeta.
    assert (d = 1 \/ d = 2 \/ d = 3) as [ -> | [ -> | -> ] ] by lia.
    - case_decide; cbn [snd]; rewrite !lookup_extend;
        repeat (rewrite decide_False by done); rewrite decide_True by done;
        unfold get_list; by rewrite lookup_empty.
    - case_decide; cbn [snd]; rewrite !lookup_extend;
        repeat (rewrite decide_False by done); rewrite decide_True by done;
        unfold get_list; rewrite lookup_extend, decide_False by done;
        by rewrite lookup_empty.
    - rewrite decide_True by (specialize (Hlen eq_refl); lia). cbn [snd].
      rewrite lookup_extend, decide_True by done.
      unfold get_list. rewrite !lookup_extend, !decide_False by done.
      by rewrite lookup_empty. }
  exists (set_iter (list_to_set (map sorted
            (combinations (all_entities b) (Z.to_nat d + 1))) : gset (list string))).
  split; [done|].
  rewrite length_set_iter, size_list_to_set by (by apply NoDup_sorted_combinations).
  apply length_map.
Qed.

(** The four entities of a relation with one vendor are distinct. *)
Lemma four_way_entities (b : booking) (v : string) :
  vendor_ids b = Some [v] ->
  NoDup (all_entities b) /\ length (all_entities b) = 4%nat.
Proof.
  intros Hv. unfold all_entities. rewrite Hv. cbv zeta. simpl. split; [|done].
  repeat constructor; rewrite ?elem_of_cons, ?elem_of_nil; intros H;
    repeat (destruct H as [H|H]); congruence || done.
Qed.

End ComplexFacts.

(** ** simplicial.py: the complex and its Betti numbers *)

Section ComplexBetti.
Context `{SO : SetOrder} `{NP : NumPy} `{NS : !NumPySort}.

Lemma single_relation_entities (b : booking) :
  fst (booking_simplices [b]) = list_to_set (all_entities b).
Proof.
  apply leibniz_equiv. intros e. rewrite elem_of_list_to_set.
  destruct (booking_simplices_spec [b]) as (He & _). rewrite He. split.
  - by intros (b' & ->%list_elem_of_singleton & Hb').
  - intros Hb. exists b. split; [by left|done].
Qed.

(** With a budget above the number of edges the builder returns, and its
    Betti numbers are those [compute_betti_spec] describes. *)
Lemma build_complex_spec (fuel : nat) (bookings : list booking) :
  let E := fst (booking_simplices bookings) in
  let S := snd (booking_simplices bookings) in
  (length (get_list S 1) < fuel)%nat ->
  exists r n,
    build_booking_simplicial_complex fuel bookings = Ok r /\
    simplices r = S /\
    counts r = kmap (fun dim : Z => "dim_" +:+ pretty dim)
                 ((fun simps => Z.of_nat (length simps)) <$> S) /\
    num_entities r = Z.of_nat (size E) /\
    betti_numbers r !! "beta_0" = Some n /\
    num_components E (get_list S 1) n /\
    (forall k, 1 <= k <= max_key S ->
       betti_numbers r !! ("beta_" +:+ pretty k)
       = Some (Z.max 0 (Z.of_nat (length (get_list S k))
                        - Z.of_nat (length (get_list S (k - 1)))
                        - Z.of_nat (length (get_list S (k + 1)))))) /\
    (forall key, (forall k, 0 <= k <= max_key S -> key ≠ "beta_" +:+ pretty k) ->
       betti_numbers r !! key = None).
Proof.
  intros E S Hfuel.
  destruct (compute_betti_spec fuel S (set_iter E)) as (betti & n & Hb & H0 & Hn & Hk & Hnone).
  { apply booking_simplices_vertices. }
  { intros a b Hab. rewrite !elem_of_set_iter. by apply edge_endpoints. }
  { done. }
  rewrite list_to_set_set_iter in Hn.
  unfold build_booking_simplicial_complex.
  subst E S. destruct (booking_simplices bookings) as [E S]. cbn [fst snd] in *.
  rewrite Hb. simpl.
  eexists _, n. split; [done|]. simpl. done.
Qed.

(** The Hodge summary of the report is that of the simplices of the report
    and of the list of bookings as it was given. *)
Lemma build_complex_hodge (fuel : nat) (bookings : list booking) (r : complex_result) :
  build_booking_simplicial_complex fuel bookings = Ok r ->
  hodge r = _hodge_analysis_simplified (simplices r) bookings.
Proof.
  unfold build_booking_simplicial_complex.
  destruct (booking_simplices bookings) as [E S].
  destruct (_compute_betti_numbers fuel S) as [betti| |]; simpl; [|done..].
  by intros [= <-].
Qed.

(** C4.  For every list of booking relations, with a step budget above the
    number of edges, the builder returns a complex whose [beta_0] is the
    number of connected components of the 1-skeleton (the entities and the
    1-simplices), and whose [beta_k], for every returned [k >= 1], is
    [max(0, n_k - n_(k-1) - n_(k+1))] with [n_d] the number of simplices of
    dimension [d]; no [beta_k] is returned beyond the largest dimension.  A
    single relation with one vendor, whose four entities are distinct, has
    4 vertices, 6 edges, 4 triangles and 1 tetrahedron, and [beta_0 = 1]. *)
Theorem betti_numbers_of_complex (fuel : nat) (bookings : list booking) :
  let E := fst (booking_simplices bookings) in
  let S := snd (booking_simplices bookings) in
  let n_ := fun d : Z => Z.of_nat (length (get_list S d)) in
  (length (get_list S 1) < fuel)%nat ->
  exists r,
    build_booking_simplicial_complex fuel bookings = Ok r /\
    simplices r = S /\
    (exists n, betti_numbers r !! "beta_0" = Some n /\
               num_components E (get_list S 1) n /\
               forall m, num_components E (get_list S 1) m -> m = n) /\
    (forall k, 1 <= k ->
       betti_numbers r !! ("beta_" +:+ pretty k)
       = if decide (k <= max_key S)
         then Some (Z.max 0 (n_ k - n_ (k - 1) - n_ (k + 1)))
         else None) /\
    (forall b v, bookings = [b] -> vendor_ids b = Some [v] ->
       counts r !! "dim_0" = Some 4 /\ counts r !! "dim_1" = Some 6 /\
       counts r !! "dim_2" = Some 4 /\ counts r !! "dim_3" = Some 1 /\
       betti_numbers r !! "beta_0" = Some 1).
Proof.
  intros E S n_ Hfuel.
  destruct (build_complex_spec fuel bookings Hfuel)
    as (r & n & Hr & HS & Hcounts & _ & H0 & Hn & Hk & Hnone).
  fold E S in HS, Hcounts, Hn, Hk, Hnone.
  exists r. split; [done|]. split; [done|]. split; [|split].
  - exists n. split; [done|]. split; [done|].
    intros m Hm. by apply (num_components_unique E (get_list S 1)).
  - intros k Hk1. destruct (decide (k <= max_key S)) as [Hle|Hgt].
    + by apply Hk.
    + apply Hnone. intros k' Hk' Heq. apply beta_key_inj in Heq. lia.
  - intros b v -> Hv.
    destruct (four_way_entities b v Hv) as [Hnd Hlen].
    assert (forall d c, 1 <= d <= 3 ->
              length (combinations (all_entities b) (Z.to_nat d + 1)) = c ->
              counts r !! ("dim_" +:+ pretty d) = Some (Z.of_nat c)) as Hdim.
    { intros d c Hd Hc.
      destruct (single_relation_counts b d Hnd Hd) as (l & Hl & Hlen'); [lia|].
      rewrite Hcounts. rewrite (lookup_kmap (fun dim : Z => "dim_" +:+ pretty dim)).
      rewrite lookup_fmap. subst S. rewrite Hl. simpl. by rewrite Hlen', Hc. }
    assert (forall c, length (combinations (all_entities b) c)
                      = length (combinations [1; 2; 3; 4] c)) as Hcomb.
    { intros c. destruct (all_entities b) as [|e1 [|e2 [|e3 [|e4 [|? ?]]]]];
        try discriminate Hlen.
      destruct c as [|[|[|[|[|c]]]]]; reflexivity. }
    split; [|split; [|split; [|split]]].
    + enough (counts r !! ("dim_" +:+ pretty 0) = Some 4) as Hc by exact Hc.
      rewrite Hcounts.
      rewrite (lookup_kmap (fun dim : Z => "dim_" +:+ pretty dim)).
      rewrite lookup_fmap. subst S. rewrite booking_simplices_vertices.
      apply (f_equal Some). cbv beta.
      rewrite length_map, length_set_iter, single_relation_entities.
      rewrite size_list_to_set by done. by rewrite Hlen.
    + apply (Hdim 1 6%nat); [lia|]. by rewrite Hcomb.
    + apply (Hdim 2 4%nat); [lia|]. by rewrite Hcomb.
    + apply (Hdim 3 1%nat); [lia|]. by rewrite Hcomb.
    + rewrite H0. f_equal. apply (num_components_one E (get_list S 1)); [| |done].
      * exists ("venue:" +:+ venue_id b). subst E.
        destruct (booking_simplices_spec [b]) as (He & _). apply He.
        exists b. split; [by left|]. by left.
      * intros x y Hx Hy. subst E S.
        destruct (booking_simplices_spec [b]) as (He & _).
        apply He in Hx as (b1 & ->%list_elem_of_singleton & Hx).
        apply He in Hy as (b2 & ->%list_elem_of_singleton & Hy).
        apply (relation_entities_connected [b] b); [by left|done|done].
Qed.

End ComplexBetti.

Section ComplexRuns.
Import Ref.
Local Existing Instance Ref.set_order.

Lemma betti_numbers_of_complex_witness :
  exists r,
    build_booking_simplicial_complex 7 [one_vendor_booking] = Ok r /\
    counts r !! "dim_1" = Some 6 /\
    betti_numbers r !! "beta_0" = Some 1 /\
    betti_numbers r !! "beta_1" = Some 0.
Proof.
  destruct (betti_numbers_of_complex 7 [one_vendor_booking])
    as (r & Hr & HS & _ & Hk & Hfour).
  - vm_compute. lia.
  - exists r. split; [exact Hr|].
    destruct (Hfour one_vendor_booking "catering" eq_refl eq_refl)
      as (_ & H1 & _ & _ & H0).
    split; [exact H1|]. split; [exact H0|].
    etrans; [exact (Hk 1 ltac:(lia))|]. vm_compute. reflexivity.
Defined.

End ComplexRuns.

(** ** simplicial.py: further properties of the complex *)

Lemma all_entities_vendors (b : booking) :
  all_entities b
  = (["venue:" +:+ venue_id b; "event:" +:+ event_id b;
      "timeslot:" +:+ default "default" (timeslot_id b)]
     ++ map (fun vid => "vendor:" +:+ vid) (default [] (vendor_ids b)))%list.
Proof. reflexivity. Qed.

Lemma all_entities_length (b : booking) :
  length (all_entities b) = (3 + length (default [] (vendor_ids b)))%nat.
Proof. rewrite all_entities_vendors, length_app, length_map. done. Qed.

(** The type prefixes keep the entities of a relation apart. *)
Lemma all_entities_NoDup (b : booking) :
  NoDup (default [] (vendor_ids b)) -> NoDup (all_entities b).
Proof.
  intros Hv. rewrite all_entities_vendors. apply NoDup_app. split; [|split].
  - repeat constructor; rewrite ?elem_of_cons, ?elem_of_nil; intros H;
      repeat (destruct H as [H|H]); congruence || done.
  - intros e He Hin. apply (list_elem_of_fmap (fun vid => "vendor:" +:+ vid)) in Hin
      as (vid & -> & _).
    rewrite !elem_of_cons, elem_of_nil in He.
    repeat (destruct He as [He|He]); congruence || done.
  - apply (NoDup_fmap_2_strong (fun vid => "vendor:" +:+ vid)); [|done].
    intros x y _ _ Hxy. simpl in Hxy. by simplify_eq.
Qed.

(** The keys of [simplices_by_dim] after the loop over the bookings. *)
Lemma raw_simplices_dom (bookings : list booking) (d : Z) :
  is_Some (snd (raw_simplices bookings) !! d) <->
  exists b, b ∈ bookings /\
    (d = 1 \/ d = 2 \/ (d = 3 /\ (4 <= length (all_entities b))%nat)).
Proof.
  unfold raw_simplices.
  induction bookings as [|b bookings IH] using rev_ind.
  - simpl. rewrite lookup_empty. split; [by intros [? ?]|].
    by intros (b & Hb%elem_of_nil & _).
  - rewrite foldl_snoc.
    destruct (foldl (fun st b => add_booking b st) (∅, ∅) bookings) as [E M].
    cbn [snd] in IH.
    assert (is_Some (snd (add_booking b (E, M)) !! d) <->
            is_Some (M !! d) \/
            (d = 1 \/ d = 2 \/ (d = 3 /\ (4 <= length (all_entities b))%nat))) as ->.
    { unfold add_booking. cbv zeta.
      destruct (decide (4 <= Z.of_nat (length (all_entities b)))) as [Hlen|Hlen];
        cbn [snd]; rewrite !lookup_extend; repeat case_decide; subst;
        (split; [intros Hs; first [by left|right; lia]
                |intros [Hs|Hs]; first [done|by eexists|exfalso; lia]]). }
    rewrite IH. split.
    + intros [(b' & Hb' & H)|H].
      * exists b'. split; [apply elem_of_app; by left|done].
      * exists b. split; [apply elem_of_app; right; by left|done].
    + intros (b' & [Hb'| ->%list_elem_of_singleton]%elem_of_app & H).
      * left. by exists b'.
      * by right.
Qed.

Section ComplexMore.
Context `{SO : SetOrder}.

(** The dimensions of the complex. *)
Lemma booking_simplices_dom (bookings : list booking) (d : Z) :
  is_Some (snd (booking_simplices bookings) !! d) <->
  d = 0 \/
  exists b, b ∈ bookings /\
    (d = 1 \/ d = 2 \/ (d = 3 /\ (4 <= length (all_entities b))%nat)).
Proof.
  destruct (decide (d = 0)) as [->|Hd].
  - rewrite booking_simplices_vertices. split; [by left|by eauto].
  - rewrite booking_simplices_lookup by done. rewrite fmap_is_Some, raw_simplices_dom.
    split; [by right|]. by intros [?|?].
Qed.

Lemma get_list_lookup {A : Type} (M : gmap Z (list A)) (d : Z) (l : list A) :
  M !! d = Some l -> get_list M d = l.
Proof. intros H. unfold get_list. by rewrite H. Qed.

Lemma get_list_absent {A : Type} (M : gmap Z (list A)) (d : Z) :
  M !! d = None -> get_list M d = [].
Proof. intros H. unfold get_list. by rewrite H. Qed.

Lemma max_key_dom {A : Type} (d d' : gmap Z A) :
  dom d = dom d' -> max_key d = max_key d'.
Proof. intros H. unfold max_key. by rewrite H. Qed.

Lemma set_iter_empty {A : Type} `{Countable A} : set_iter (∅ : gset A) = [].
Proof. apply Permutation_nil_r. by rewrite set_iter_perm, elements_empty. Qed.

Lemma length_combinations {A : Type} (l : list A) (k : nat) :
  length (combinations l k) = choose (length l) k.
Proof.
  revert k. induction l as [|x l IH]; intros [|k]; simpl; [done..|].
  by rewrite length_app, length_map, !IH.
Qed.

(** The complexes of two booking lists with the same members have the same
    entities and, in every dimension, the same simplices. *)
Lemma booking_simplices_ext (bs bs' : list booking) :
  (forall b, b ∈ bs <-> b ∈ bs') ->
  fst (booking_simplices bs) = fst (booking_simplices bs') /\
  (forall d x, x ∈ get_list (snd (booking_simplices bs)) d
               <-> x ∈ get_list (snd (booking_simplices bs')) d) /\
  (forall d, length (get_list (snd (booking_simplices bs)) d)
             = length (get_list (snd (booking_simplices bs')) d)) /\
  dom (snd (booking_simplices bs)) = dom (snd (booking_simplices bs')).
Proof.
  intros Hbs.
  destruct (booking_simplices_spec bs) as (He & H0 & Hd & Hnd).
  destruct (booking_simplices_spec bs') as (He' & H0' & Hd' & Hnd').
  assert (fst (booking_simplices bs) = fst (booking_simplices bs')) as HE.
  { apply leibniz_equiv. intros e. rewrite He, He'. by setoid_rewrite Hbs. }
  assert (forall d x, x ∈ get_list (snd (booking_simplices bs)) d
               <-> x ∈ get_list (snd (booking_simplices bs')) d) as Hmem.
  { intros d x. destruct (decide (d = 0)) as [->|Hne].
    - rewrite H0, H0'. by setoid_rewrite HE.
    - rewrite Hd, Hd' by done. by setoid_rewrite Hbs. }
  split; [done|]. split; [done|]. split.
  - intros d. apply Permutation_length, NoDup_Permutation; [apply Hnd|apply Hnd'|apply Hmem].
  - apply leibniz_equiv. intros d. rewrite !elem_of_dom, !booking_simplices_dom.
    by setoid_rewrite Hbs.
Qed.

Lemma connected_ext (edges edges' : list (list string)) (x y : string) :
  (forall e, e ∈ edges <-> e ∈ edges') -> connected edges x y -> connected edges' x y.
Proof.
  intros He. apply rtc_subrel. intros u v [H|H]; [left|right]; by apply He.
Qed.

Lemma num_components_ext (V : gset string) (edges edges' : list (list string)) (n : Z) :
  (forall e, e ∈ edges <-> e ∈ edges') ->
  num_components V edges n -> num_components V edges' n.
Proof.
  intros He (reps & Hlen & Hnd & HV & Hrep & Hsep).
  exists reps. split; [done|]. split; [done|]. split; [done|]. split.
  - intros v Hv. destruct (Hrep v Hv) as (r & Hr & Hc). exists r. split; [done|].
    by apply (connected_ext edges).
  - intros r1 r2 Hr1 Hr2 Hc. apply Hsep; [done..|].
    apply (connected_ext edges'); [|done]. intros e. symmetry. apply He.
Qed.

Lemma length_le_of_relation {A B : Type} (R : A -> B -> Prop) (l1 : list A) (l2 : list B) :
  NoDup l1 ->
  (forall x, x ∈ l1 -> exists y, y ∈ l2 /\ R x y) ->
  (forall x x' y, x ∈ l1 -> x' ∈ l1 -> R x y -> R x' y -> x = x') ->
  (length l1 <= length l2)%nat.
Proof.
  intros Hnd. revert l2. induction Hnd as [|a l1 Ha Hnd IH]; intros l2 Hex Hinj.
  - simpl. lia.
  - destruct (Hex a) as (y & Hy & Hay); [by left|].
    apply list_elem_of_split in Hy as (k1 & k2 & ->).
    specialize (IH (k1 ++ k2)%list). rewrite length_app in *. simpl.
    assert (length l1 <= length k1 + length k2)%nat; [|lia].
    apply IH.
    + intros x Hx. destruct (Hex x) as (y' & Hy' & Hxy'); [by right|].
      exists y'. split; [|done].
      apply elem_of_app in Hy' as [?|[->|?]%elem_of_cons];
        [apply elem_of_app; by left| |apply elem_of_app; by right].
      destruct Ha. by rewrite (Hinj a x y) by (done || by left || by right).
    + intros x x' y' Hx Hx'. apply Hinj; by right.
Qed.

End ComplexMore.

(** ** simplicial.py: properties of the returned complex *)

Section ComplexTheorems.
Context `{SO : SetOrder} `{NP : NumPy} `{NS : !NumPySort}.

(** Lines 67-74: after deduplication every simplex is a sorted tuple, and no
    dimension lists a simplex twice. *)
Theorem simplices_canonical (bookings : list booking) (d : Z) :
  NoDup (get_list (snd (booking_simplices bookings)) d) /\
  forall x, x ∈ get_list (snd (booking_simplices bookings)) d -> Sorted str_le x.
Proof.
  destruct (booking_simplices_spec bookings) as (_ & H0 & Hd & Hnd).
  split; [apply Hnd|]. intros x Hx.
  destruct (decide (d = 0)) as [->|Hne].
  - apply H0 in Hx as (e & -> & _). repeat constructor.
  - apply Hd in Hx as (b & s & _ & _ & _ & ->); [|done]. apply sorted_Sorted.
Qed.

(** When no relation lists a vendor twice, the vertices of every simplex are
    pairwise distinct: the type prefixes keep venue, event, timeslot and
    vendor identifiers apart even when the identifiers coincide. *)
Theorem simplices_have_distinct_vertices (bookings : list booking) (d : Z) (x : list string) :
  (forall b, b ∈ bookings -> NoDup (default [] (vendor_ids b))) ->
  x ∈ get_list (snd (booking_simplices bookings)) d ->
  NoDup x.
Proof.
  intros Hv Hx.
  destruct (booking_simplices_spec bookings) as (_ & H0 & Hd & _).
  destruct (decide (d = 0)) as [->|Hne].
  - apply H0 in Hx as (e & -> & _). apply NoDup_singleton.
  - apply Hd in Hx as (b & s & Hb & _ & [Hs _]%elem_of_combinations & ->); [|done].
    rewrite sorted_Permutation.
    apply (sublist_NoDup s (all_entities b)); [|done].
    by apply all_entities_NoDup, Hv.
Qed.

(** The dimensions of the complex: dimension 0 always, dimensions 1 and 2
    as soon as there is a relation, and dimension 3 exactly when some
    relation has a vendor. *)
Theorem complex_dimensions (bookings : list booking) (d : Z) :
  is_Some (snd (booking_simplices bookings) !! d) <->
  d = 0 \/ (bookings ≠ [] /\ (d = 1 \/ d = 2)) \/
  (d = 3 /\ exists b, b ∈ bookings /\ default [] (vendor_ids b) ≠ []).
Proof.
  rewrite booking_simplices_dom. split.
  - intros [->|(b & Hb & H)]; [by left|]. right.
    destruct H as [->|[->|[-> Hlen]]].
    + left. split; [|by left]. intros ->. by apply elem_of_nil in Hb.
    + left. split; [|by right]. intros ->. by apply elem_of_nil in Hb.
    + right. split; [done|]. exists b. split; [done|].
      rewrite all_entities_length in Hlen. intros Hnil. rewrite Hnil in Hlen. simpl in Hlen. lia.
  - intros [->|[[Hne Hd]|[-> (b & Hb & Hv)]]]; [by left| |].
    + right. destruct bookings as [|b bs]; [done|]. exists b. split; [by left|].
      destruct Hd as [->| ->]; auto.
    + right. exists b. split; [done|]. right. right. split; [done|].
      rewrite all_entities_length. destruct (default [] (vendor_ids b)); [done|]. simpl. lia.
Qed.

Lemma choose_1 (n : nat) : choose n 1 = n.
Proof. induction n as [|n IH]; [done|]. cbn [choose]. rewrite IH. by destruct n. Qed.

(** A single relation of [n] distinct entities has [choose n (d + 1)]
    simplices of dimension [d]: all its pairs, triples and quadruples. *)
Theorem single_relation_simplex_counts (b : booking) (d : Z) :
  NoDup (default [] (vendor_ids b)) ->
  0 <= d <= 3 ->
  length (get_list (snd (booking_simplices [b])) d)
  = choose (3 + length (default [] (vendor_ids b))) (Z.to_nat d + 1).
Proof.
  intros Hv Hd. pose proof (all_entities_NoDup b Hv) as Hnd.
  rewrite <- all_entities_length.
  destruct (decide (d = 0)) as [->|Hd0].
  - rewrite (get_list_lookup _ _ _ (booking_simplices_vertices [b])).
    rewrite length_map, length_set_iter, single_relation_entities.
    rewrite size_list_to_set by done.
    change (Z.to_nat 0 + 1)%nat with 1%nat. by rewrite choose_1.
  - destruct (decide (d = 3 /\ (length (all_entities b) < 4)%nat)) as [[-> Hshort]|Hlong].
    + rewrite <- length_combinations. rewrite combinations_nil
        by (change (Z.to_nat 3 + 1)%nat with 4%nat; lia).
      rewrite get_list_absent; [done|].
      apply eq_None_not_Some. rewrite booking_simplices_dom.
      intros [?|(b' & ->%list_elem_of_singleton & H)]; [done|]. lia.
    + destruct (single_relation_counts b d Hnd) as (l & Hl & Hlen); [lia|lia|].
      rewrite (get_list_lookup _ _ _ Hl), Hlen. apply length_combinations.
Qed.

(** Without bookings the builder returns the empty complex, whatever the
    step budget: one dimension without simplices, no entity, [beta_0 = 0],
    and the Hodge summary of the early return of line 234. *)
Theorem empty_bookings_complex (fuel : nat) :
  build_booking_simplicial_complex fuel []
  = Ok {| simplices := {[ 0 := [] ]};
          counts := {[ "dim_0" := 0 ]};
          num_entities := 0;
          betti_numbers := {[ "beta_0" := 0 ]};
          hodge := hodge_nothing |}.
Proof.
  unfold build_booking_simplicial_complex, booking_simplices. simpl.
  rewrite set_iter_empty, fmap_empty. simpl.
  change (<[0:=[]]> (∅ : gmap Z (list (list string)))) with ({[0 := []]} : gmap Z (list (list string))).
  unfold _compute_betti_numbers.
  assert (max_key ({[0 := []]} : gmap Z (list (list string))) = 0) as ->.
  { unfold max_key. by rewrite dom_singleton_L, elements_singleton. }
  simpl. rewrite map_fmap_singleton, kmap_singleton. done.
Qed.

(** With at least one booking there are at least three entities, at least
    one connected component, and at most as many components as bookings. *)
Theorem nonempty_bookings_components (fuel : nat) (bookings : list booking) :
  bookings ≠ [] ->
  (length (get_list (snd (booking_simplices bookings)) 1) < fuel)%nat ->
  exists r n,
    build_booking_simplicial_complex fuel bookings = Ok r /\
    betti_numbers r !! "beta_0" = Some n /\
    1 <= n <= Z.of_nat (length bookings) /\
    3 <= num_entities r.
Proof.
  intros Hne Hfuel.
  destruct (build_complex_spec fuel bookings Hfuel)
    as (r & n & Hr & _ & _ & Hnum & H0 & Hn & _).
  exists r, n. split; [done|]. split; [done|].
  destruct (booking_simplices_spec bookings) as (He & _).
  destruct bookings as [|b0 bs]; [done|]. clear Hne.
  destruct Hn as (reps & <- & Hnd & HV & Hrep & Hsep).
  split; [split|].
  - destruct (Hrep ("venue:" +:+ venue_id b0)) as (r0 & Hr0 & _).
    { apply He. exists b0. split; [by left|]. by left. }
    destruct reps; [by apply elem_of_nil in Hr0|]. simpl. lia.
  - apply inj_le.
    apply (length_le_of_relation
             (fun r b => b ∈ b0 :: bs /\ r ∈ all_entities b)); [done| |].
    + intros x Hx. apply HV, He in Hx as (b & Hb & Hxb). by exists b.
    + intros x x' b Hx Hx' [Hb Hxb] [_ Hx'b]. apply Hsep; [done..|].
      by apply (relation_entities_connected (b0 :: bs) b).
  - rewrite Hnum.
    assert (({[ "venue:" +:+ venue_id b0; "event:" +:+ event_id b0;
                "timeslot:" +:+ default "default" (timeslot_id b0) ]} : gset string)
            ⊆ fst (booking_simplices (b0 :: bs))) as Hsub.
    { intros e. rewrite !elem_of_union, !elem_of_singleton. intros Hcases.
      apply He. exists b0. split; [by left|]. rewrite all_entities_vendors.
      apply elem_of_app. left. rewrite !elem_of_cons.
      destruct Hcases as [[->| ->]| ->]; auto. }
    apply subseteq_size in Hsub.
    rewrite !size_union, !size_singleton in Hsub.
    + lia.
    + intros e. rewrite elem_of_singleton. intros -> [=].
    + intros e. rewrite elem_of_union, !elem_of_singleton. intros [->| ->] [=].
Qed.

End ComplexTheorems.

Section ComplexInvariance.
Context `{SO : SetOrder} `{NP : NumPy} `{NS : !NumPySort}.

(** When the Hodge summary has the two counts, they are the numbers of
    simplices of dimensions 2 and 3. *)
Lemma hodge_counts (S : gmap Z (list (list string))) (bookings : list booking) :
  (forall t, num_triangles (_hodge_analysis_simplified S bookings) = Some t ->
             t = Z.of_nat (length (get_list S 2))) /\
  (forall t, num_tetrahedra (_hodge_analysis_simplified S bookings) = Some t ->
             t = Z.of_nat (length (get_list S 3))).
Proof.
  unfold _hodge_analysis_simplified. cbv zeta.
  destruct (decide (venue_counts_of bookings = [])); [by split|].
  destruct (negb _); [by split|].
  split; intros t; simpl; by intros [= <-].
Qed.

(** Four entries of the report do not depend on the order of the
    bookings, nor on how often a booking is listed: two lists with the same
    members give the same ["num_entities"], the same ["counts"], the same
    ["betti_numbers"] and, in every dimension, the same ["simplices"] up to
    their order.  The fifth entry, ["hodge_analysis"], is computed from the
    list of bookings as given: its triangle and tetrahedron counts agree
    when both reports have them, while its ["gradient_strength"], the Gini
    coefficient of the number of bookings per venue, is not among the
    invariant entries (it changes when a booking is listed twice, see
    [gradient_strength_counts_repetitions]). *)
Theorem complex_invariant_under_reordering (fuel : nat) (bs bs' : list booking) :
  (forall b, b ∈ bs <-> b ∈ bs') ->
  (length (get_list (snd (booking_simplices bs)) 1) < fuel)%nat ->
  exists r r',
    build_booking_simplicial_complex fuel bs = Ok r /\
    build_booking_simplicial_complex fuel bs' = Ok r' /\
    num_entities r = num_entities r' /\
    counts r = counts r' /\
    betti_numbers r = betti_numbers r' /\
    (forall d x, x ∈ get_list (simplices r) d <-> x ∈ get_list (simplices r') d) /\
    hodge r = _hodge_analysis_simplified (simplices r) bs /\
    hodge r' = _hodge_analysis_simplified (simplices r') bs' /\
    (forall t t', num_triangles (hodge r) = Some t ->
                  num_triangles (hodge r') = Some t' -> t = t') /\
    (forall t t', num_tetrahedra (hodge r) = Some t ->
                  num_tetrahedra (hodge r') = Some t' -> t = t').
Proof.
  intros Hbs Hfuel.
  destruct (booking_simplices_ext bs bs' Hbs) as (HE & Hmem & Hlen & Hdom).
  destruct (build_complex_spec fuel bs Hfuel)
    as (r & n & Hr & HS & Hc & Hnum & H0 & Hn & Hk & Hnone).
  destruct (build_complex_spec fuel bs')
    as (r' & n' & Hr' & HS' & Hc' & Hnum' & H0' & Hn' & Hk' & Hnone');
    [by rewrite <- Hlen|].
  pose proof (max_key_dom _ _ Hdom) as Hmax.
  exists r, r'. split; [done|]. split; [done|].
  pose proof (build_complex_hodge _ _ _ Hr) as Hh.
  pose proof (build_complex_hodge _ _ _ Hr') as Hh'.
  split; [by rewrite Hnum, Hnum', HE|]. split; [|split; [|split; [|split; [|split; [|split]]]]];
    [| | |exact Hh|exact Hh'| |].
  - rewrite Hc, Hc'. f_equal. apply map_eq. intros d. rewrite !lookup_fmap.
    pose proof (Hlen d) as Hlend. unfold get_list in Hlend.
    assert (is_Some (snd (booking_simplices bs) !! d)
            <-> is_Some (snd (booking_simplices bs') !! d)) as Hsome.
    { by rewrite <- !elem_of_dom, Hdom. }
    destruct (snd (booking_simplices bs) !! d) as [l|] eqn:E1;
      destruct (snd (booking_simplices bs') !! d) as [l'|] eqn:E2; simpl in *.
    + by rewrite Hlend.
    + destruct (proj1 Hsome) as [? ?]; [eauto|done].
    + destruct (proj2 Hsome) as [? ?]; [eauto|done].
    + done.
  - assert (n = n') as <-.
    { apply (num_components_unique (fst (booking_simplices bs))
               (get_list (snd (booking_simplices bs)) 1)); [done|].
      rewrite HE. apply (num_components_ext _ (get_list (snd (booking_simplices bs')) 1));
        [|done].
      intros e. symmetry. apply Hmem. }
    apply map_eq. intros key.
    destruct (decide (key ∈ (fun k : Z => "beta_" +:+ pretty k)
                              <$> seqZ 0 (max_key (snd (booking_simplices bs)) + 1)))
      as [Hin|Hout].
    + apply list_elem_of_fmap in Hin as (k & -> & Hin%elem_of_seqZ).
      destruct (decide (k = 0)) as [->|Hk0].
      * etrans; [exact H0|]. symmetry. exact H0'.
      * rewrite Hk, Hk' by lia. by rewrite !Hlen.
    + rewrite Hnone, Hnone'; [done| |].
      * intros k Hkr ->. apply Hout. apply list_elem_of_fmap. exists k.
        split; [done|]. apply elem_of_seqZ. lia.
      * intros k Hkr ->. apply Hout. apply list_elem_of_fmap. exists k.
        split; [done|]. apply elem_of_seqZ. lia.
  - intros d x. rewrite HS, HS'. apply Hmem.
  - intros t t'. rewrite Hh, Hh', HS, HS'.
    intros ->%(proj1 (hodge_counts _ _)) ->%(proj1 (hodge_counts _ _)). by rewrite Hlen.
  - intros t t'. rewrite Hh, Hh', HS, HS'.
    intros ->%(proj2 (hodge_counts _ _)) ->%(proj2 (hodge_counts _ _)). by rewrite Hlen.
Qed.

Lemma getitem_None {V : Type} (d : gmap string V) (k : string) :
  d !! k = None -> getitem d k = Raise KeyError.
Proof. intros Hd. unfold getitem. by rewrite Hd. Qed.

(** [_compute_betti_numbers] looks the end points of the edges up in the
    dictionary of the vertices: an edge with an end point that is not a
    vertex raises [KeyError]. *)
Theorem betti_unknown_vertex_raises (fuel : nat) (S : gmap Z (list (list string)))
    (vs : list string) (a b : string) (rest : list (list string)) :
  S !! 0 = Some (map (fun e => [e]) vs) ->
  vs ≠ [] ->
  get_list S 1 = [a; b] :: rest ->
  a ∉ vs \/ b ∉ vs ->
  (0 < fuel)%nat ->
  _compute_betti_numbers fuel S = Raise KeyError.
Proof.
  intros H0 Hvs H1 Hab Hfuel. unfold _compute_betti_numbers. cbv zeta.
  assert (0 <= max_key S) as Hmax by (apply max_key_ge; eauto).
  unfold py_range1. rewrite seqZ_cons by lia.
  set (body := fun (k : Z) (betti : gmap string Z) => _).
  change (for_each (0 :: ?l) body ∅) with (mbind (for_each l body) (body 0 ∅)).
  assert (body 0 ∅ = Raise KeyError) as ->; [|done].
  subst body. cbv beta.
  assert (get_list S 0 = map (fun e => [e]) vs) as -> by (unfold get_list; by rewrite H0).
  rewrite decide_False by (by destruct vs).
  rewrite decide_True by done. rewrite H1.
  assert (count_components fuel (map (fun e => [e]) vs) ([a; b] :: rest) = Raise KeyError)
    as ->; [|done].
  unfold count_components. rewrite mapM_first_of_singletons. simpl.
  change (list_getitem [a; b] 0) with (Ok (A := string) a).
  change (list_getitem [a; b] 1) with (Ok (A := string) b). simpl.
  set (p0 := set_to_map (fun v => (v, v)) (list_to_set vs : gset string) : gmap string string).
  assert (forall x, x ∉ vs -> p0 !! x = None) as Hnone.
  { intros x Hx. apply eq_None_not_Some. intros [p [Hin _]%lookup_identity_map].
    by apply elem_of_list_to_set in Hin. }
  assert (forall x, x ∈ vs -> p0 !! x = Some x) as Hsome.
  { intros x Hx. apply lookup_identity_map. by rewrite elem_of_list_to_set. }
  assert (union fuel p0 a b = Raise KeyError) as ->; [|done].
  unfold union. destruct fuel as [|fuel]; [lia|]. simpl.
  destruct (decide (a ∈ vs)) as [Ha|Ha].
  - rewrite (getitem_Some p0 a a (Hsome a Ha)). simpl.
    rewrite decide_False by (by intros ?). simpl.
    destruct Hab as [?|Hb]; [done|].
    by rewrite (getitem_None p0 b (Hnone b Hb)).
  - by rewrite (getitem_None p0 a (Hnone a Ha)).
Qed.

End ComplexInvariance.

Section ComplexMoreRuns.
Import Ref.
Local Existing Instance Ref.set_order.

Lemma simplices_have_distinct_vertices_witness :
  NoDup ["vendor:music"; "venue:hall"].
Proof.
  apply (simplices_have_distinct_vertices [two_vendor_booking] 1).
  - intros b ->%list_elem_of_singleton. apply (bool_decide_unpack _). vm_compute. reflexivity.
  - apply (bool_decide_unpack _). vm_compute. reflexivity.
Defined.

Lemma single_relation_simplex_counts_witness :
  length (get_list (snd (booking_simplices [two_vendor_booking])) 2) = choose 5 3.
Proof.
  apply (single_relation_simplex_counts two_vendor_booking 2).
  - apply (bool_decide_unpack _). vm_compute. reflexivity.
  - lia.
Defined.

Lemma nonempty_bookings_components_witness :
  exists r n,
    build_booking_simplicial_complex 11 [two_vendor_booking] = Ok r /\
    betti_numbers r !! "beta_0" = Some n /\
    1 <= n <= 1 /\
    3 <= num_entities r.
Proof.
  apply (nonempty_bookings_components 11 [two_vendor_booking]).
  - discriminate.
  - vm_compute. lia.
Defined.

Lemma complex_invariant_under_reordering_witness :
  exists r r',
    build_booking_simplicial_complex 20 [one_vendor_booking; two_vendor_booking] = Ok r /\
    build_booking_simplicial_complex 20
      [two_vendor_booking; one_vendor_booking; two_vendor_booking] = Ok r' /\
    num_entities r = num_entities r' /\
    counts r = counts r' /\
    betti_numbers r = betti_numbers r' /\
    (forall d x, x ∈ get_list (simplices r) d <-> x ∈ get_list (simplices r') d) /\
    hodge r = _hodge_analysis_simplified (simplices r)
                [one_vendor_booking; two_vendor_booking] /\
    hodge r' = _hodge_analysis_simplified (simplices r')
                 [two_vendor_booking; one_vendor_booking; two_vendor_booking] /\
    (forall t t', num_triangles (hodge r) = Some t ->
                  num_triangles (hodge r') = Some t' -> t = t') /\
    (forall t t', num_tetrahedra (hodge r) = Some t ->
                  num_tetrahedra (hodge r') = Some t' -> t = t').
Proof.
  apply (complex_invariant_under_reordering 20).
  - intros b. rewrite !elem_of_cons, !elem_of_nil. tauto.
  - vm_compute. lia.
Defined.

(** The gradient strength of the Hodge summary counts repetitions: one
    booking at each of two venues gives 0, and listing the first booking
    twice gives 1/6, although the two lists have the same members. *)
Lemma gradient_strength_counts_repetitions :
  (forall b, b ∈ [one_vendor_booking; barn_booking]
             <-> b ∈ [one_vendor_booking; one_vendor_booking; barn_booking]) /\
  exists r r',
    build_booking_simplicial_complex 40 [one_vendor_booking; barn_booking] = Ok r /\
    build_booking_simplicial_complex 40
      [one_vendor_booking; one_vendor_booking; barn_booking] = Ok r' /\
    gradient_strength (hodge r) = Fin 0 /\
    gradient_strength (hodge r') = Fin (1 # 6).
Proof.
  split; [intros b; rewrite !elem_of_cons, !elem_of_nil; tauto|].
  destruct (build_complex_spec 40 [one_vendor_booking; barn_booking])
    as (r & _ & Hr & HS & _); [vm_compute; lia|].
  destruct (build_complex_spec 40 [one_vendor_booking; one_vendor_booking; barn_booking])
    as (r' & _ & Hr' & HS' & _); [vm_compute; lia|].
  exists r, r'. split; [done|]. split; [done|].
  rewrite (build_complex_hodge _ _ _ Hr), (build_complex_hodge _ _ _ Hr'), HS, HS'.
  split; vm_compute; reflexivity.
Qed.

Lemma betti_unknown_vertex_raises_witness :
  _compute_betti_numbers 1 (<[0 := [["a"]]]> (<[1 := [["a"; "b"]]]> ∅)) = Raise KeyError.
Proof.
  apply (betti_unknown_vertex_raises 1 _ ["a"] "a" "b" []).
  - reflexivity.
  - discriminate.
  - reflexivity.
  - right. intros Hb. apply list_elem_of_singleton in Hb. discriminate Hb.
  - lia.
Defined.

End ComplexMoreRuns.

(** ** persistence.py: what every result holds *)

Section PersistenceMore.
Context `{BE : Backends}.

Lemma Hkey_range_dec (max_dim : Z) (k : string) :
  {exists d, 0 <= d <= max_dim /\ k = Hkey d} +
  {forall d, 0 <= d <= max_dim -> Hkey d ≠ k}.
Proof.
  destruct (decide (k ∈ Hkey <$> seqZ 0 (max_dim + 1))) as [Hin|Hout].
  - left. apply list_elem_of_fmap in Hin as (d & -> & Hd%elem_of_seqZ).
    exists d. split; [lia|done].
  - right. intros d Hd <-. apply Hout. apply list_elem_of_fmap. exists d.
    split; [done|]. apply elem_of_seqZ. lia.
Qed.

(** Lines 51-87 of [compute_persistence], as a function of the list
    [result["dgms"]] that ripser returned: the loop indexes the list once
    for every dimension (line 56). *)
Definition persistence_of_dgms (result_dgms : list diagram) (n max_dim : Z)
    : res persistence_result :=
  '(dgms, sts) ←
    for_each (py_range1 (max_dim + 1))
      (fun dim '(dgms, sts) =>
         let key := Hkey dim in
         dgm ← list_getitem result_dgms dim;
         let finite := finite_rows dgm in
         let lifespans := lifespans_of finite in
         Ok (<[key := dgm]> dgms, <[key := lifespan_stats lifespans]> sts))
      (∅, ∅);
  Ok {| diagrams := dgms; stats := sts; num_points := n; method := None |}.

(** A list with a diagram for every dimension is turned into the report. *)
Lemma persistence_of_dgms_ok (result_dgms : list diagram) (n max_dim : Z) :
  max_dim + 1 <= Z.of_nat (length result_dgms) ->
  exists r,
    persistence_of_dgms result_dgms n max_dim = Ok r /\
    num_points r = n /\ method r = None /\
    (forall d, 0 <= d <= max_dim ->
       exists dgm, result_dgms !! Z.to_nat d = Some dgm /\
                   diagrams r !! Hkey d = Some dgm /\
                   stats r !! Hkey d = Some (rips_stats dgm)) /\
    (forall k, (forall d, 0 <= d <= max_dim -> Hkey d ≠ k) ->
       diagrams r !! k = None /\ stats r !! k = None).
Proof.
  intros Hlen. unfold persistence_of_dgms.
  set (at_ := fun d : Z => default [] (result_dgms !! Z.to_nat d)).
  assert (Hat : forall d, 0 <= d <= max_dim -> result_dgms !! Z.to_nat d = Some (at_ d)).
  { intros d Hd. subst at_. cbv beta.
    destruct (result_dgms !! Z.to_nat d) eqn:E; [done|].
    apply lookup_ge_None in E. unfold diagram in *. lia. }
  erewrite (for_each_pure _ _
    (fun '(dgms, sts) dim =>
       (<[Hkey dim := at_ dim]> dgms, <[Hkey dim := rips_stats (at_ dim)]> sts))).
  2:{ intros d [dgms sts] Hd%elem_of_py_range1.
      rewrite (list_getitem_Some _ _ (at_ d)); [done|lia|apply Hat; lia]. }
  rewrite foldl_pair. simpl. eexists. split; [done|]. simpl.
  split; [done|]. split; [done|]. split.
  - intros d Hd. exists (at_ d). split; [by apply Hat|]. split.
    + apply (lookup_foldl_insert_elem Hkey at_).
      * apply Hkey_inj.
      * apply elem_of_py_range1. lia.
    + apply (lookup_foldl_insert_elem Hkey (fun d => rips_stats (at_ d))).
      * apply Hkey_inj.
      * apply elem_of_py_range1. lia.
  - intros k Hk. split.
    + rewrite (lookup_foldl_insert Hkey at_); [done|].
      intros d Hd%elem_of_py_range1. apply Hk. lia.
    + rewrite (lookup_foldl_insert Hkey (fun d => rips_stats (at_ d))); [done|].
      intros d Hd%elem_of_py_range1. apply Hk. lia.
Qed.

(** A list that is too short makes the index of line 56 raise. *)
Lemma persistence_of_dgms_short (result_dgms : list diagram) (n max_dim : Z) :
  Z.of_nat (length result_dgms) < max_dim + 1 ->
  persistence_of_dgms result_dgms n max_dim = Raise IndexError.
Proof.
  intros Hlen. unfold persistence_of_dgms, py_range1.
  set (len := Z.of_nat (length result_dgms)) in *.
  assert (seqZ 0 (max_dim + 1)
          = (seqZ 0 len ++ len :: seqZ (len + 1) (max_dim - len))%list) as ->.
  { replace (max_dim + 1) with (len + (1 + (max_dim - len))) by lia.
    rewrite seqZ_app by lia. f_equal. rewrite Z.add_0_l.
    rewrite seqZ_cons by lia. f_equal. f_equal; lia. }
  rewrite for_each_app.
  set (at_ := fun d : Z => default [] (result_dgms !! Z.to_nat d)).
  erewrite (for_each_pure _ _
    (fun '(dgms, sts) dim =>
       (<[Hkey dim := at_ dim]> dgms, <[Hkey dim := rips_stats (at_ dim)]> sts))).
  2:{ intros d [dgms sts] Hd%elem_of_seqZ.
      rewrite (list_getitem_Some _ _ (at_ d)); [done|lia|].
      subst at_. cbv beta.
      destruct (result_dgms !! Z.to_nat d) eqn:E; [done|].
      apply lookup_ge_None in E. unfold diagram in *. lia. }
  simpl. destruct (foldl _ _ _) as [dgms sts].
  unfold list_getitem. rewrite decide_True by lia.
  rewrite (lookup_ge_None_2 result_dgms (Z.to_nat len)) by lia. done.
Qed.

(** [compute_persistence] hands the matrix to ripser and indexes the list
    of diagrams it returned once for every dimension from 0 to [max_dim]
    (line 56), and that index is the one step that can fail.  Given a list
    with a diagram for each of these dimensions, it returns a result whose
    diagrams and statistics have exactly the keys [H0] to [H<max_dim>]
    (none for a negative [max_dim]), the diagram of [H<d>] being the
    [d]-th of the list and every statistics entry holding a count; given a
    shorter list, it raises [IndexError]. *)
Theorem compute_persistence_keys (a : ndarray) (max_dim : Z)
    (threshold : option float) (n_perm : option Z) :
  compute_persistence a max_dim threshold n_perm
  = persistence_of_dgms (ripser a (rips_kwargs max_dim threshold n_perm))
      (shape0 a) max_dim /\
  forall (result_dgms : list diagram) (n : Z),
    (max_dim + 1 <= Z.of_nat (length result_dgms) ->
     exists r,
       persistence_of_dgms result_dgms n max_dim = Ok r /\
       num_points r = n /\
       forall k,
         (is_Some (diagrams r !! k) <-> exists d, 0 <= d <= max_dim /\ k = Hkey d) /\
         (is_Some (stats r !! k) <-> exists d, 0 <= d <= max_dim /\ k = Hkey d) /\
         (forall d, 0 <= d <= max_dim -> k = Hkey d ->
            is_Some (diagrams r !! k) /\
            diagrams r !! k = result_dgms !! Z.to_nat d) /\
         (forall s, stats r !! k = Some s -> is_Some (s !! "count"))) /\
    (Z.of_nat (length result_dgms) < max_dim + 1 ->
     persistence_of_dgms result_dgms n max_dim = Raise IndexError).
Proof.
  split; [reflexivity|]. intros result_dgms n. split; [|apply persistence_of_dgms_short].
  intros Hlen.
  destruct (persistence_of_dgms_ok result_dgms n max_dim Hlen)
    as (r & Hr & Hnum & _ & Hd & Hnone).
  exists r. split; [done|]. split; [done|]. intros k.
  destruct (Hkey_range_dec max_dim k) as [(d & Hdr & ->)|Hout].
  - destruct (Hd d Hdr) as (dgm & Hat & HD & HS). rewrite HD, HS.
    split; [|split; [|split]].
    + split; [by exists d|by eauto].
    + split; [by exists d|by eauto].
    + intros d' Hd' ->%Hkey_inj. split; [by eauto|]. by rewrite Hat.
    + intros s [= <-]. unfold rips_stats. rewrite lifespan_stats_count. eauto.
  - destruct (Hnone k Hout) as [HD HS]. rewrite HD, HS.
    split; [|split; [|split]].
    + split; [by intros [? ?]|]. intros (d & Hdr & ->). by destruct (Hout d Hdr).
    + split; [by intros [? ?]|]. intros (d & Hdr & ->). by destruct (Hout d Hdr).
    + intros d Hdr ->. by destruct (Hout d Hdr).
    + done.
Qed.

End PersistenceMore.

Section PersistenceMoreRuns.
Import Ref.

(** For [max_dim = 1]: a list of two diagrams gives a report with the keys
    [H0] and [H1] and nothing under [H2]; a list of one diagram raises
    [IndexError]. *)
Lemma compute_persistence_keys_witness :
  (exists r,
     persistence_of_dgms [ [ (Fin 0, Fin 1); (Fin 0, Inf false) ]; [] ] 3 1 = Ok r /\
     num_points r = 3 /\
     diagrams r !! "H0" = Some [ (Fin 0, Fin 1); (Fin 0, Inf false) ] /\
     diagrams r !! "H1" = Some [] /\
     diagrams r !! "H2" = None /\
     is_Some (stats r !! "H1") /\
     stats r !! "H2" = None) /\
  persistence_of_dgms [ [ (Fin 0, Fin 1); (Fin 0, Inf false) ] ] 3 1 = Raise IndexError.
Proof.
  destruct (compute_persistence_keys (line 3) 1 None None) as [_ H].
  split.
  - destruct (H [ [ (Fin 0, Fin 1); (Fin 0, Inf false) ]; [] ] 3) as [Hok _].
    destruct Hok as (r & Hr & Hnum & Hkeys); [simpl; lia|].
    exists r. split; [exact Hr|]. split; [exact Hnum|].
    destruct (Hkeys "H0") as (_ & _ & H0 & _).
    destruct (Hkeys "H1") as (_ & HS1 & H1 & _).
    destruct (Hkeys "H2") as (HD2 & HS2 & _ & _).
    split; [exact (proj2 (H0 0 ltac:(lia) eq_refl))|].
    split; [exact (proj2 (H1 1 ltac:(lia) eq_refl))|].
    assert (forall d, 0 <= d <= 1 -> "H2" ≠ Hkey d) as Hne.
    { intros d Hd. assert (d = 0 \/ d = 1) as [-> | ->] by lia; discriminate. }
    split; [|split].
    + apply eq_None_not_Some. rewrite HD2. intros (d & Hd & Heq). by apply (Hne d).
    + apply HS1. by exists 1.
    + apply eq_None_not_Some. rewrite HS2. intros (d & Hd & Heq). by apply (Hne d).
  - apply (proj2 (H [ [ (Fin 0, Fin 1); (Fin 0, Inf false) ] ] 3)). simpl. lia.
Defined.

End PersistenceMoreRuns.

(** ** layout.py: the analysis never fails *)

(** A loop whose body returns on every element returns. *)
Lemma for_each_returns {A S : Type} (xs : list A) (body : A -> S -> res S) (s : S) :
  (forall x s', x ∈ xs -> exists s'', body x s' = Ok s'') ->
  exists s', for_each xs body s = Ok s'.
Proof.
  revert s. induction xs as [|x xs IH]; intros s Hbody; simpl; [by eexists|].
  destruct (Hbody x s) as [s'' ->]; [by left|]. simpl.
  apply IH. intros y s' Hy. apply Hbody. by right.
Qed.

Lemma list_getitem_in_range {A : Type} (l : list A) (i : Z) :
  0 <= i < Z.of_nat (length l) -> exists a, list_getitem l i = Ok a /\ a ∈ l.
Proof.
  intros Hi. destruct (lookup_lt_is_Some_2 l (Z.to_nat i)) as [a Ha]; [lia|].
  exists a. split; [by apply list_getitem_Some; [lia|]|]. by eapply list_elem_of_lookup_2.
Qed.

Section LayoutMore.
Context `{BE : Backends}.

Lemma polygon_area_ok (vertices : list (float * float)) :
  exists area, _polygon_area vertices = Ok area.
Proof.
  unfold _polygon_area. cbv zeta.
  case_decide as Hn; [by eexists|].
  set (n := Z.of_nat (length vertices)) in *.
  destruct (for_each_returns (py_range1 n)
    (fun i area =>
       vi ← list_getitem vertices i;
       vj ← list_getitem vertices ((i + 1) `mod` n);
       Ok (fsub (fadd area (fmul (fst vi) (snd vj))) (fmul (fst vj) (snd vi))))
    (float_lit 0)) as [area Harea].
  { intros i area Hi%elem_of_py_range1.
    destruct (list_getitem_in_range vertices i) as (vi & -> & _); [done|].
    destruct (list_getitem_in_range vertices ((i + 1) `mod` n)) as (vj & -> & _).
    { apply Z.mod_pos_bound. lia. }
    simpl. by eexists. }
  rewrite Harea. simpl. by eexists.
Qed.

(** The shoelace loop stays within the polygon: the index [(i + 1) % n] of
    the next vertex wraps around, so [_polygon_area] never raises
    [IndexError]; with fewer than three vertices the area is [0.0]. *)
Theorem polygon_area_returns (vertices : list (float * float)) :
  (exists area, _polygon_area vertices = Ok area) /\
  (Z.of_nat (length vertices) < 3 -> _polygon_area vertices = Ok (float_lit 0)).
Proof.
  split; [apply polygon_area_ok|].
  intros Hn. unfold _polygon_area. cbv zeta. by rewrite decide_True.
Qed.

(** The analysis of a floor plan never raises.  It reports five points per
    furniture item; with furniture, its diagrams are those of the alpha
    complex of these points, and every dead space it lists comes from an
    interval of dimension 1 with a finite death and a persistence above the
    squared threshold, graded ["high"] above twice that threshold and
    ["medium"] otherwise. *)
Theorem floor_plan_analysis_returns (furniture_positions : list furniture_item)
    (room_boundary : list (float * float))
    (dead_space_threshold_ft connectivity_threshold_ft : float) :
  let points := furniture_points furniture_positions in
  let t2 := fmul dead_space_threshold_ft dead_space_threshold_ft in
  exists r,
    analyze_floor_plan_topology furniture_positions room_boundary
      dead_space_threshold_ft connectivity_threshold_ft = Ok r /\
    num_furniture_points r = 5 * Z.of_nat (length furniture_positions) /\
    (furniture_positions ≠ [] ->
       persistence_diagram_H0 r = gudhi_alpha points 0 /\
       persistence_diagram_H1 r = gudhi_alpha points 1 /\
       (length (dead_spaces r) <= length (gudhi_alpha points 1))%nat /\
       forall ds, ds ∈ dead_spaces r ->
         exists birth death,
           (birth, death) ∈ gudhi_alpha points 1 /\
           fneb death np_inf = true /\
           fgtb (fsub death birth) t2 = true /\
           birth_radius ds = np_sqrt birth /\
           death_radius ds = np_sqrt death /\
           ds_persistence ds = np_sqrt (fsub death birth) /\
           approx_diameter_ft ds = fmul (float_lit 2) (np_sqrt death) /\
           ds_severity ds =
             if fgtb (fsub death birth) (fmul t2 (float_lit 2)) then "high" else "medium").
Proof.
  intros points t2. unfold analyze_floor_plan_topology. fold points. cbv zeta.
  assert (Z.of_nat (length points) = 5 * Z.of_nat (length furniture_positions)) as Hlen.
  { unfold points. rewrite furniture_points_length. lia. }
  case_decide as Hfew.
  - eexists. split; [done|]. simpl. split; [done|].
    intros Hne. rewrite Hlen in Hfew.
    destruct furniture_positions; [done|]. simpl length in Hfew. lia.
  - destruct (polygon_area_ok room_boundary) as [area ->]. simpl.
    eexists. split; [done|]. simpl. split; [done|]. intros _.
    split; [done|]. split; [done|]. fold t2. split.
    + induction (gudhi_alpha points 1) as [|[birth death] h1 IH]; [done|].
      simpl. rewrite length_app. destruct (_ && _); simpl; lia.
    + intros ds Hds. apply list_elem_of_In, in_flat_map in Hds as ([birth death] & Hin & Hds).
      apply list_elem_of_In in Hin. simpl in Hds.
      destruct (fneb death np_inf) eqn:Hfin; [|by destruct Hds].
      destruct (fgtb (fsub death birth) t2) eqn:Hgt; [|by destruct Hds].
      simpl in Hds. destruct Hds as [<-|[]].
      exists birth, death. simpl. done.
Qed.

End LayoutMore.

(** ** simplicial.py: the Hodge summary *)

Lemma sum_counts_app (l k : list (string * Z)) :
  sum_counts (l ++ k) = sum_counts l + sum_counts k.
Proof.
  unfold sum_counts. induction l as [|x l IH]; simpl; [done|]. rewrite IH. lia.
Qed.

Lemma count_venue_spec (venue_counts : list (string * Z)) (venue : string) :
  NoDup (map fst venue_counts) ->
  NoDup (map fst (count_venue venue_counts venue)) /\
  (forall v, v ∈ map fst (count_venue venue_counts venue)
             <-> v ∈ map fst venue_counts \/ v = venue) /\
  sum_counts (count_venue venue_counts venue) = sum_counts venue_counts + 1 /\
  ((forall kc, kc ∈ venue_counts -> 1 <= snd kc) ->
   forall kc, kc ∈ count_venue venue_counts venue -> 1 <= snd kc).
Proof.
  intros Hnd. unfold count_venue. case_decide as Hin.
  - set (bump := fun kc : string * Z =>
                   if decide (fst kc = venue) then (fst kc, snd kc + 1) else kc).
    assert (map fst (map bump venue_counts) = map fst venue_counts) as Hkeys.
    { rewrite map_map. apply map_ext. intros kc. unfold bump. by case_decide. }
    rewrite Hkeys. split; [done|]. split; [|split].
    + intros v. split; [by left|]. by intros [?| ->].
    + clear Hkeys. induction venue_counts as [|[k c] l IH]; [by apply elem_of_nil in Hin|].
      simpl in *. apply NoDup_cons in Hnd as [Hk Hnd].
      unfold sum_counts in *. simpl. unfold bump at 1. simpl.
      destruct (decide (k = venue)) as [->|Hne].
      * simpl. assert (map bump l = l) as ->; [|lia].
        rewrite <- (map_id l) at 2. apply map_ext_in. intros kc Hkc%list_elem_of_In.
        unfold bump. rewrite decide_False; [done|].
        intros <-. apply Hk. apply list_elem_of_In, in_map, list_elem_of_In. done.
      * simpl. apply elem_of_cons in Hin as [Heq|Hin]; [by destruct Hne|].
        specialize (IH Hnd Hin). lia.
    + intros Hpos kc (kc' & -> & Hkc')%(list_elem_of_fmap bump).
      specialize (Hpos kc' Hkc'). unfold bump. case_decide; simpl; lia.
  - rewrite map_app. simpl. split; [|split; [|split]].
    + apply NoDup_app. split; [done|]. split; [|apply NoDup_singleton].
      intros v Hv ->%list_elem_of_singleton. done.
    + intros v. rewrite elem_of_app, list_elem_of_singleton. done.
    + rewrite sum_counts_app. unfold sum_counts at 2. simpl. lia.
    + intros Hpos kc [Hkc| ->%list_elem_of_singleton]%elem_of_app; [by apply Hpos|].
      simpl. lia.
Qed.

Lemma venue_counts_of_spec (bookings : list booking) :
  NoDup (map fst (venue_counts_of bookings)) /\
  (forall v, v ∈ map fst (venue_counts_of bookings)
             <-> exists b, b ∈ bookings /\ venue_id b = v) /\
  sum_counts (venue_counts_of bookings) = Z.of_nat (length bookings) /\
  (forall kc, kc ∈ venue_counts_of bookings -> 1 <= snd kc).
Proof.
  unfold venue_counts_of. induction bookings as [|b bookings IH] using rev_ind.
  - simpl. split; [constructor|]. split; [|split; [done|]].
    + intros v. split; [by intros ?%elem_of_nil|].
      by intros (b & ?%elem_of_nil & _).
    + by intros kc ?%elem_of_nil.
  - rewrite foldl_snoc. destruct IH as (Hnd & Hkeys & Hsum & Hpos).
    destruct (count_venue_spec _ (venue_id b) Hnd) as (Hnd' & Hkeys' & Hsum' & Hpos').
    split; [done|]. split; [|split].
    + intros v. rewrite Hkeys', Hkeys. split.
      * intros [(b' & Hb' & <-)| ->].
        -- exists b'. split; [apply elem_of_app; by left|done].
        -- exists b. split; [apply elem_of_app; right; by left|done].
      * intros (b' & [Hb'| ->%list_elem_of_singleton]%elem_of_app & <-).
        -- left. by exists b'.
        -- by right.
    + rewrite Hsum', Hsum, length_app. simpl. lia.
    + by apply Hpos'.
Qed.

(** Lines 229-231: the bookings are counted per venue: one entry for every
    venue of the list, in the order of first appearance, every count at
    least 1, and the counts add up to the number of bookings. *)
Theorem venue_counts_total (bookings : list booking) :
  NoDup (map fst (venue_counts_of bookings)) /\
  (forall v, v ∈ map fst (venue_counts_of bookings)
             <-> exists b, b ∈ bookings /\ venue_id b = v) /\
  (forall kc, kc ∈ venue_counts_of bookings -> 1 <= snd kc) /\
  sum_counts (venue_counts_of bookings) = Z.of_nat (length bookings) /\
  (venue_counts_of bookings = [] <-> bookings = []).
Proof.
  destruct (venue_counts_of_spec bookings) as (Hnd & Hkeys & Hsum & Hpos).
  split; [done|]. split; [done|]. split; [done|]. split; [done|].
  split.
  - intros Hnil. rewrite Hnil in Hsum. destruct bookings; [done|]. simpl in Hsum.
    unfold sum_counts in Hsum. simpl in Hsum. lia.
  - by intros ->.
Qed.

Section HodgeFacts.
Context `{SO : SetOrder} `{NP : NumPy} `{NS : !NumPySort}.

(** The Hodge summary the builder attaches to its complex.  Without
    bookings it is the empty summary.  With bookings, unless the sum of the
    venue counts compares equal to 0, it reports a curl: the venue, the
    event and the timeslot of every relation form a triangle, so the number
    of triangles is at least 1; the numbers of triangles and tetrahedra are
    those of dimensions 2 and 3 of the complex. *)
Theorem hodge_of_complex (bookings : list booking) :
  let S := snd (booking_simplices bookings) in
  let h := _hodge_analysis_simplified S bookings in
  let total := np_sum (map (fun kc => float_of_Z (snd kc)) (venue_counts_of bookings)) in
  (bookings = [] -> h = hodge_nothing) /\
  (bookings ≠ [] -> fneb total (float_of_Z 0) = false -> h = hodge_nothing) /\
  (bookings ≠ [] -> fneb total (float_of_Z 0) = true ->
     curl_detected h = true /\ patterns h = None /\
     num_triangles h = Some (Z.of_nat (length (get_list S 2))) /\
     1 <= Z.of_nat (length (get_list S 2)) /\
     num_tetrahedra h = Some (Z.of_nat (length (get_list S 3)))).
Proof.
  intros S h total. subst h. unfold _hodge_analysis_simplified. cbv zeta. fold total.
  destruct (venue_counts_of_spec bookings) as (_ & _ & Hsum & _).
  split; [|split].
  - intros ->. done.
  - intros Hne Hzero. case_decide; [done|]. by rewrite Hzero.
  - intros Hne Hpos.
    assert (venue_counts_of bookings ≠ []) as Hvc.
    { intros Hnil. rewrite Hnil in Hsum. destruct bookings; [done|].
      unfold sum_counts in Hsum. simpl in Hsum. lia. }
    rewrite decide_False by done. rewrite Hpos. simpl.
    assert (1 <= Z.of_nat (length (get_list S 2))) as Htri.
    { destruct bookings as [|b bs]; [done|].
      pose proof (subsequence_is_simplex (b :: bs) b
        ["venue:" +:+ venue_id b; "event:" +:+ event_id b;
         "timeslot:" +:+ default "default" (timeslot_id b)]) as Hs.
      change (Z.of_nat (length [_; _; _]) - 1) with 2 in Hs.
      fold S in Hs.
      destruct (get_list S 2) as [|x l]; [|simpl; lia].
      exfalso. eapply elem_of_nil, Hs; [by left| |simpl; lia].
      rewrite all_entities_vendors. apply sublist_inserts_r. done. }
    split; [apply bool_decide_eq_true_2; lia|]. done.
Qed.

End HodgeFacts.

(** ** layout.py: comparing two layouts *)

Section LayoutCompareFacts.
Context `{BE : Backends} `{PD : !Persim}.

Lemma floor_plan_ok (furniture_positions : list furniture_item)
    (room_boundary : list (float * float)) (t c : float) :
  exists r, analyze_floor_plan_topology furniture_positions room_boundary t c = Ok r.
Proof.
  unfold analyze_floor_plan_topology. cbv zeta. case_decide; [by eexists|].
  destruct (polygon_area_ok room_boundary) as [area ->]. simpl. by eexists.
Qed.

Lemma layout_distance_nothing_finite (dgm_a dgm_b : diagram) :
  finite_death_rows dgm_a = [] -> finite_death_rows dgm_b = [] ->
  layout_distance dgm_a dgm_b = float_lit 0.
Proof.
  intros Ha Hb. unfold layout_distance. cbv zeta. rewrite Ha, Hb.
  rewrite decide_False; [done|]. simpl. lia.
Qed.

(** The comparison of two layouts never raises.  It holds the two analyses
    at the default thresholds 6.0 and 3.0 and a distance for [H0] and for
    [H1], nothing else; a dimension in which neither layout has an interval
    with a finite death gets the distance [0.0] without consulting
    [persim], so that two layouts without furniture are at distance 0. *)
Theorem compare_layouts_returns (layout_a layout_b : list furniture_item)
    (room_boundary : list (float * float)) :
  exists c a b,
    compare_layouts_topologically layout_a layout_b room_boundary = Ok c /\
    analyze_floor_plan_topology layout_a room_boundary (float_lit 6) (float_lit 3) = Ok a /\
    analyze_floor_plan_topology layout_b room_boundary (float_lit 6) (float_lit 3) = Ok b /\
    analysis_a c = a /\ analysis_b c = b /\
    dom (topological_distance c) = {[ "H0"; "H1" ]} /\
    (finite_death_rows (persistence_diagram_H0 a) = [] ->
     finite_death_rows (persistence_diagram_H0 b) = [] ->
     topological_distance c !! "H0" = Some (float_lit 0)) /\
    (finite_death_rows (persistence_diagram_H1 a) = [] ->
     finite_death_rows (persistence_diagram_H1 b) = [] ->
     topological_distance c !! "H1" = Some (float_lit 0)) /\
    (layout_a = [] -> layout_b = [] ->
     topological_distance c = <["H1" := float_lit 0]> (<["H0" := float_lit 0]> ∅)).
Proof.
  unfold compare_layouts_topologically.
  destruct (floor_plan_ok layout_a room_boundary (float_lit 6) (float_lit 3)) as [a Ha].
  destruct (floor_plan_ok layout_b room_boundary (float_lit 6) (float_lit 3)) as [b Hb].
  rewrite Ha, Hb. simpl. eexists _, a, b. split; [done|]. simpl.
  split; [done|]. split; [done|]. split; [done|]. split; [done|]. split; [|split; [|split]].
  - rewrite !dom_insert_L, dom_empty_L. apply leibniz_equiv. intros k.
    rewrite !elem_of_union, !elem_of_singleton, elem_of_empty. tauto.
  - intros HA HB. rewrite lookup_insert_ne by done. rewrite lookup_insert_eq.
    by rewrite layout_distance_nothing_finite.
  - intros HA HB. rewrite lookup_insert_eq. by rewrite layout_distance_nothing_finite.
  - intros -> ->. injection Ha as <-. injection Hb as <-. done.
Qed.

End LayoutCompareFacts.

(** ** timeseries.py: the anomalies that are reported *)

Lemma list_getitem_elem {A : Type} (l : list A) (i : Z) (a : A) :
  list_getitem l i = Ok a -> a ∈ l.
Proof.
  unfold list_getitem. case_decide.
  - destruct (l !! Z.to_nat i) eqn:E; [|done]. intros [= <-].
    by eapply list_elem_of_lookup_2.
  - destruct (l !! Z.to_nat (Z.of_nat (length l) + i)) eqn:E; [|done].
    case_decide; [|done]. intros [= <-]. by eapply list_elem_of_lookup_2.
Qed.

Lemma elem_of_py_range_pos (stop step : Z) (l : list Z) (x : Z) :
  py_range 0 stop step = Ok l -> 0 < step -> x ∈ l -> 0 <= x < stop.
Proof.
  unfold py_range. intros Hr Hstep Hx.
  rewrite decide_False in Hr by lia. rewrite decide_True in Hr by done.
  injection Hr as <-.
  apply (list_elem_of_fmap (fun k => 0 + k * step)) in Hx as (k & -> & Hk%elem_of_seqZ).
  pose proof (Z.mul_div_le (stop - 0 + step - 1) step Hstep).
  nia.
Qed.

Section AnomalyMore.
Context `{BE : Backends}.

(** What the flagging loop of lines 280-296 adds to the list. *)
Definition flagged (positions : list Z) (a : anomaly) : Prop :=
  fgtb (mahalanobis_score a) (float_lit 3) = true /\
  severity a = (if fgtb (mahalanobis_score a) (float_lit 5) then "high" else "medium") /\
  position a ∈ positions.

Lemma flag_loop_spec (positions : list Z) (mean : list float) (cov_inv : ndarray)
    (xs : list (Z * list float)) (acc l : list anomaly) :
  for_each xs
    (fun '(i, feat) anomalies =>
       let diff := zip_with fsub feat mean in
       let maha := np_sqrt (np_dot (np_vecmat diff cov_inv) diff) in
       if fgtb maha (float_lit 3) then
         pos ← list_getitem positions i;
         f0 ← list_getitem feat 0;
         f1 ← list_getitem feat 1;
         f2 ← list_getitem feat 2;
         f3 ← list_getitem feat 3;
         Ok (anomalies ++
             [ {| position := pos;
                  mahalanobis_score := maha;
                  severity := if fgtb maha (float_lit 5) then "high" else "medium";
                  fv_mean_lifespan := f0;
                  fv_std_lifespan := f1;
                  fv_max_lifespan := f2;
                  fv_num_components := int_of_float f3 |} ])%list
       else Ok anomalies)
    acc = Ok l ->
  Forall (flagged positions) acc ->
  Forall (flagged positions) l /\ (length l <= length acc + length xs)%nat.
Proof.
  revert acc. induction xs as [|[i feat] xs IH]; intros acc Hloop Hacc.
  - simpl in Hloop. injection Hloop as <-. split; [done|lia].
  - cbn [for_each] in Hloop. cbv zeta in Hloop.
    set (maha := np_sqrt (np_dot (np_vecmat (zip_with fsub feat mean) cov_inv)
                                 (zip_with fsub feat mean))) in *.
    destruct (fgtb maha (float_lit 3)) eqn:Hgt.
    + destruct (list_getitem positions i) as [pos| |] eqn:Hpos; [|done..].
      destruct (list_getitem feat 0) as [f0| |]; [|done..].
      destruct (list_getitem feat 1) as [f1| |]; [|done..].
      destruct (list_getitem feat 2) as [f2| |]; [|done..].
      destruct (list_getitem feat 3) as [f3| |]; [|done..].
      simpl in Hloop. apply IH in Hloop as [Hl Hlen].
      * split; [done|]. rewrite length_app in Hlen. simpl in *. lia.
      * apply Forall_app. split; [done|]. constructor; [|constructor].
        split; [done|]. split; [done|]. simpl. by eapply list_getitem_elem.
    + simpl in Hloop. apply IH in Hloop as [Hl Hlen]; [|done].
      split; [done|]. simpl. lia.
Qed.

Lemma sliding_loop_positions (data : list (list float)) (n_channels window_size : Z)
    (starts : list Z) :
  forall (topo_features tf' : list (list float)) (positions pos' : list Z),
    for_each starts
      (fun start '(topo_features, positions) =>
         features ← window_features data n_channels window_size start;
         Ok ((topo_features ++ [features])%list,
             (positions ++ [start + window_size / 2])%list))
      (topo_features, positions)
    = Ok (tf', pos') ->
    pos' = (positions ++ map (fun start => start + window_size / 2) starts)%list /\
    length tf' = (length topo_features + length starts)%nat.
Proof.
  induction starts as [|start starts IH]; intros tf tf' pos pos' Hloop.
  - simpl in Hloop. injection Hloop as <- <-. rewrite app_nil_r. split; [done|simpl; lia].
  - cbn [for_each] in Hloop.
    destruct (window_features data n_channels window_size start) as [f| |]; [|done..].
    simpl in Hloop. apply IH in Hloop as [-> Hlen].
    rewrite <- app_assoc. split; [done|]. rewrite length_app in Hlen. simpl in *. lia.
Qed.

(** Whatever the detector reports was flagged by the Gaussian fit: every
    anomaly has a Mahalanobis score above 3, is graded ["high"] above 5 and
    ["medium"] otherwise, and sits at the centre [start + window_size // 2]
    of one of the windows; there are at most as many anomalies as
    windows. *)
Theorem reported_anomalies_are_outliers (booking_channels : list (string * list float))
    (window_size step : Z) (l : list anomaly) :
  detect_anomalies_tada booking_channels window_size step = Ok l ->
  l = [] \/
  exists starts,
    py_range 0 (common_length booking_channels - window_size) step = Ok starts /\
    (length l <= length starts)%nat /\
    Forall (fun a =>
              fgtb (mahalanobis_score a) (float_lit 3) = true /\
              severity a
                = (if fgtb (mahalanobis_score a) (float_lit 5) then "high" else "medium") /\
              exists start, start ∈ starts /\ position a = start + window_size / 2) l.
Proof.
  rewrite detect_anomalies_unfold. cbv zeta.
  case_decide; [intros [= <-]; by left|].
  unfold sliding_windows.
  destruct (py_range 0 (common_length booking_channels - window_size) step)
    as [starts| |] eqn:Hrange; [|done..].
  simpl.
  destruct (for_each starts _ _) as [[tf pos]| |] eqn:Hloop; [|done..].
  apply sliding_loop_positions in Hloop as [-> Hlen]. simpl in *.
  case_decide; [intros [= <-]; by left|].
  unfold flag_anomalies. cbv zeta.
  destruct (np_linalg_inv _) as [cov_inv| |]; [|done..]. simpl.
  intros Hflag. right. exists starts. split; [done|].
  apply flag_loop_spec in Hflag as [Hl Hlen']; [|constructor].
  split.
  - rewrite length_zip in Hlen'. simpl in Hlen'. lia.
  - eapply Forall_impl; [exact Hl|]. intros a (Hgt & Hsev & Hpos).
    split; [done|]. split; [done|].
    apply (list_elem_of_fmap (fun start => start + window_size / 2)) in Hpos
      as (start & -> & Hstart). by exists start.
Qed.

End AnomalyMore.

(** ** timeseries.py: periodicity and regime changes *)

(** A loop whose body returns or raises [ValueError] does the same. *)
Lemma for_each_value_error {A S : Type} (xs : list A) (body : A -> S -> res S) (s : S) :
  (forall x s', (exists s'', body x s' = Ok s'') \/ body x s' = Raise ValueError) ->
  (exists s', for_each xs body s = Ok s') \/ for_each xs body s = Raise ValueError.
Proof.
  intros Hbody. revert s. induction xs as [|x xs IH]; intros s; simpl; [left; by eexists|].
  destruct (Hbody x s) as [[s'' ->]| ->]; simpl; [apply IH|by right].
Qed.

Lemma mapM_res_ok {A B : Type} (f : A -> res B) (P : A -> B -> Prop) (l : list A) :
  (forall x, x ∈ l -> exists y, f x = Ok y /\ P x y) ->
  exists ys, mapM f l = Ok ys /\ Forall2 P l ys.
Proof.
  induction l as [|x l IH]; intros Hf.
  - exists []. split; [done|constructor].
  - destruct (Hf x) as (y & Hy & HP); [by left|].
    destruct IH as (ys & Hys & HF); [intros z Hz; apply Hf; by right|].
    exists (y :: ys). split; [|by constructor].
    simpl. rewrite Hy. simpl. rewrite Hys. done.
Qed.

Section TimeseriesMoreFacts.
Context `{BE : Backends} `{PC : !PointClouds} `{PS : !PySort}.

(** The embedding only ever raises [ValueError]. *)
Lemma takens_ok_or_value_error (time_series : list float) (delay dimension : Z) :
  (exists embedded, takens_embedding time_series delay dimension = Ok embedded) \/
  takens_embedding time_series delay dimension = Raise ValueError.
Proof.
  unfold takens_embedding. cbv zeta. case_decide; [by right|].
  unfold np_zeros. case_decide; [by right|]. simpl.
  apply for_each_value_error. intros i embedded. unfold set_column.
  case_decide; [left; by eexists|].
  destruct (py_slice _ _ _) as [|x [|y col]]; [by right|left; by eexists|by right].
Qed.

(** With a delay and a dimension of at least 1 and enough samples, the
    embedding returns its [n - (d-1)*tau] points. *)
Lemma takens_returns (time_series : list float) (delay dimension : Z) :
  1 <= delay -> 1 <= dimension ->
  0 < Z.of_nat (length time_series) - (dimension - 1) * delay ->
  exists embedded,
    takens_embedding time_series delay dimension = Ok embedded /\
    Z.of_nat (length embedded) = Z.of_nat (length time_series) - (dimension - 1) * delay.
Proof.
  intros Hdelay Hdim Hnum. unfold takens_embedding. cbv zeta.
  rewrite decide_False by lia. unfold np_zeros. rewrite decide_False by lia. simpl.
  set (num_points := Z.of_nat (length time_series) - (dimension - 1) * delay) in *.
  destruct (set_column_loop time_series delay (Z.to_nat num_points)
              (Z.to_nat dimension) (Z.to_nat dimension)
              (replicate (Z.to_nat num_points)
                 (replicate (Z.to_nat dimension) (float_lit 0))))
    as (embedded & Hloop & Hlen & _); [done|lia|subst num_points; lia| |].
  { split; [by rewrite length_replicate|]. split; [|intros; lia].
    intros row Hrow%elem_of_replicate. destruct Hrow as [-> _].
    by rewrite length_replicate. }
  rewrite !Z2Nat.id in Hloop by lia. exists embedded. split; [done|lia].
Qed.

(** The number of points of an embedding that was returned. *)
Lemma takens_length (time_series : list float) (delay dimension : Z)
    (embedded : list (list float)) :
  1 <= delay -> 1 <= dimension ->
  takens_embedding time_series delay dimension = Ok embedded ->
  0 < Z.of_nat (length time_series) - (dimension - 1) * delay /\
  Z.of_nat (length embedded) = Z.of_nat (length time_series) - (dimension - 1) * delay.
Proof.
  intros Hdelay Hdim Hemb.
  destruct (decide (0 < Z.of_nat (length time_series) - (dimension - 1) * delay))
    as [Hpos|Hneg].
  - split; [done|].
    destruct (takens_returns time_series delay dimension) as (e & He & Hlen); [done..|].
    rewrite Hemb in He. by injection He as <-.
  - unfold takens_embedding in Hemb. cbv zeta in Hemb.
    by rewrite decide_True in Hemb by lia.
Qed.

(** The index of lines 90 and 162 into the list ripser returned. *)
Lemma cloud_diagram (cloud : list (list float)) :
  ((2 <= length (ripser_cloud cloud 1))%nat ->
     exists dgm, list_getitem (ripser_cloud cloud 1) 1 = Ok dgm) /\
  ((length (ripser_cloud cloud 1) < 2)%nat ->
     list_getitem (A := diagram) (ripser_cloud cloud 1) 1 = Raise IndexError).
Proof.
  unfold list_getitem. rewrite decide_True by lia.
  destruct (ripser_cloud cloud 1) as [|d0 [|d1 rest]]; simpl;
    (split; [intros; try lia; by eexists|intros; try lia; done]).
Qed.

(** [range(0, stop, 0)] raises [ValueError]: with a step of 0 the regime
    detector raises for every series, and the anomaly detector as soon as it
    has its two channels. *)
Theorem zero_step_raises :
  (forall (time_series : list float) (window_size : Z),
     detect_regime_changes time_series window_size 0 = Raise ValueError) /\
  (forall (booking_channels : list (string * list float)) (window_size : Z),
     2 <= Z.of_nat (length booking_channels) ->
     detect_anomalies_tada booking_channels window_size 0 = Raise ValueError).
Proof.
  split.
  - intros ts ws. unfold detect_regime_changes, py_range. by rewrite decide_True.
  - intros channels ws Hn. rewrite detect_anomalies_unfold. cbv zeta.
    rewrite decide_False by lia. unfold sliding_windows, py_range.
    by rewrite decide_True.
Qed.

(** One candidate period: skipped when the series is shorter than three
    periods; otherwise the embedding returns its cloud, and the window is
    reported when ripser returned a diagram of dimension 1 for it, while
    the index of line 90 raises when it did not. *)
Lemma periodicity_of_window_spec (ts : list float) (window : Z)
    (results : list periodicity) :
  1 <= window ->
  (Z.of_nat (length ts) < 3 * window ->
     periodicity_of_window ts window results = Ok results) /\
  (3 * window <= Z.of_nat (length ts) ->
     exists cloud,
       takens_embedding ts window 2 = Ok cloud /\
       Z.of_nat (length cloud) = Z.of_nat (length ts) - window /\
       ((2 <= length (ripser_cloud cloud 1))%nat ->
          exists r, periodicity_of_window ts window results = Ok (results ++ [r])%list /\
                    period_days r = window /\ pd_label r = _period_label window) /\
       ((length (ripser_cloud cloud 1) < 2)%nat ->
          periodicity_of_window ts window results = Raise IndexError)).
Proof.
  intros Hw. unfold periodicity_of_window. split.
  - intros Hshort. by rewrite decide_True.
  - intros Hlong. rewrite decide_False by lia.
    destruct (takens_returns ts window 2) as (cloud & -> & Hlen); [done|lia|lia|].
    exists cloud. split; [done|]. split; [lia|]. simpl.
    destruct (cloud_diagram cloud) as [Hok Hraise]. split.
    + intros H2. destruct (Hok H2) as [dgm ->]. simpl.
      case_decide; eexists; (split; [done|]); done.
    + intros H2. by rewrite (Hraise H2).
Qed.

(** The diagrams of dimension 1 exist for the candidate periods [ws] that
    fit the series. *)
Definition clouds_have_h1 (ts : list float) (ws : list Z) : Prop :=
  forall w cloud,
    w ∈ ws -> 3 * w <= Z.of_nat (length ts) ->
    takens_embedding ts w 2 = Ok cloud ->
    (2 <= length (ripser_cloud cloud 1))%nat.

Lemma periodicity_loop_spec (ts : list float) (window_sizes : list Z)
    (results : list periodicity) :
  (forall w, w ∈ window_sizes -> 1 <= w) ->
  clouds_have_h1 ts window_sizes ->
  exists rs,
    for_each window_sizes (periodicity_of_window ts) results = Ok (results ++ rs)%list /\
    map period_days rs
      = filter (fun w => 3 * w <= Z.of_nat (length ts)) window_sizes /\
    Forall (fun r => pd_label r = _period_label (period_days r)) rs.
Proof.
  revert results. induction window_sizes as [|w ws IH]; intros results Hws Hh1.
  - exists []. by rewrite app_nil_r.
  - assert (exists r1,
              periodicity_of_window ts w results = Ok (results ++ r1)%list /\
              map period_days r1
                = (if decide (3 * w <= Z.of_nat (length ts)) then [w] else []) /\
              Forall (fun r => pd_label r = _period_label (period_days r)) r1)
      as (r1 & Hr1 & Hd1 & Hl1).
    { destruct (periodicity_of_window_spec ts w results) as [Hshort Hlong];
        [apply Hws; by left|].
      destruct (decide (3 * w <= Z.of_nat (length ts))) as [Hfit|Hnot].
      - destruct (Hlong Hfit) as (cloud & Hc & _ & Hok & _).
        destruct Hok as (r & Hr & Hp & Hl); [apply (Hh1 w); [by left|done..]|].
        exists [r]. split; [done|]. split; [by rewrite <- Hp|].
        constructor; [by rewrite Hp|constructor].
      - exists []. rewrite app_nil_r. split; [apply Hshort; lia|done]. }
    destruct (IH (results ++ r1)%list) as (r2 & Hr2 & Hd2 & Hl2).
    { intros w' Hw'. apply Hws. by right. }
    { intros w' cloud Hw'. apply Hh1. by right. }
    exists (r1 ++ r2)%list. simpl. rewrite Hr1. simpl. rewrite Hr2, app_assoc.
    split; [done|]. split; [|by apply Forall_app].
    rewrite map_app, Hd1, Hd2, filter_cons. by case_decide.
Qed.

Lemma periodicity_loop_raises (ts : list float) (window_sizes : list Z)
    (results : list periodicity) (w : Z) (cloud : list (list float)) :
  (forall w, w ∈ window_sizes -> 1 <= w) ->
  w ∈ window_sizes -> 3 * w <= Z.of_nat (length ts) ->
  takens_embedding ts w 2 = Ok cloud ->
  (length (ripser_cloud cloud 1) < 2)%nat ->
  for_each window_sizes (periodicity_of_window ts) results = Raise IndexError.
Proof.
  intros Hws Hw Hfit Hcloud Hshort. revert results Hws Hw.
  induction window_sizes as [|w0 ws IH]; intros results Hws Hw.
  - by apply elem_of_nil in Hw.
  - destruct (periodicity_of_window_spec ts w0 results) as [Hskip Hlong];
      [apply Hws; by left|].
    assert (Hrest : w ∈ ws ->
              forall results', for_each ws (periodicity_of_window ts) results'
                               = Raise IndexError).
    { intros Hin results'. apply IH; [|done]. intros w' Hw'. apply Hws. by right. }
    cbn [for_each].
    destruct (decide (3 * w0 <= Z.of_nat (length ts))) as [Hfit0|Hnot0].
    + destruct (Hlong Hfit0) as (cloud0 & Hc0 & _ & Hok & Hraise).
      destruct (decide (2 <= length (ripser_cloud cloud0 1))%nat) as [H2|H2].
      * destruct (Hok H2) as (r & -> & _). simpl.
        apply elem_of_cons in Hw as [->|Hin]; [|by apply Hrest].
        rewrite Hc0 in Hcloud. injection Hcloud as ->. lia.
      * rewrite Hraise by lia. done.
    + rewrite Hskip by lia. simpl.
      apply elem_of_cons in Hw as [->|Hin]; [lia|by apply Hrest].
Qed.

(** For a non-empty series and candidate periods of at least one day, the
    embedding of line 87 returns for every candidate of which the series
    holds three periods, and the detector has one way to fail: the index of
    line 90 raises [IndexError] when ripser returned fewer than two
    diagrams for one of these clouds.  When ripser returned two diagrams
    for each of them, the detector reports exactly these candidates, each
    once and each with the label of its period, in the order in which
    [sorted] arranges them. *)
Theorem periodicity_reports_fitting_windows (time_series : list float)
    (window_sizes : option (list Z)) :
  time_series ≠ [] ->
  (forall w, w ∈ default [7; 14; 30; 90; 365] window_sizes -> 1 <= w) ->
  let ts :=
    map (fun x => fdiv (fsub x (np_min time_series))
                       (fadd (fsub (np_max time_series) (np_min time_series))
                             (float_lit (1 # 10000000000))))
        time_series in
  let fitting :=
    filter (fun w => 3 * w <= Z.of_nat (length time_series))
           (default [7; 14; 30; 90; 365] window_sizes) in
  (forall w, w ∈ fitting ->
     exists cloud, takens_embedding ts w 2 = Ok cloud /\
                   Z.of_nat (length cloud) = Z.of_nat (length time_series) - w) /\
  ((forall w cloud, w ∈ fitting -> takens_embedding ts w 2 = Ok cloud ->
                    (2 <= length (ripser_cloud cloud 1))%nat) ->
     exists results,
       detect_periodicity_sw1pers time_series window_sizes = Ok results /\
       map period_days results ≡ₚ fitting /\
       Forall (fun r => pd_label r = _period_label (period_days r)) results) /\
  ((exists w cloud, w ∈ fitting /\ takens_embedding ts w 2 = Ok cloud /\
                    (length (ripser_cloud cloud 1) < 2)%nat) ->
     detect_periodicity_sw1pers time_series window_sizes = Raise IndexError).
Proof.
  intros Hts Hws ts fitting.
  assert (Hlen : length ts = length time_series) by (subst ts; by rewrite length_map).
  split; [|split].
  - intros w [Hw Hfit]%list_elem_of_filter.
    destruct (takens_returns ts w 2) as (cloud & Hc & Hl);
      [by apply Hws|lia|rewrite Hlen; pose proof (Hws w Hfit); lia|].
    exists cloud. split; [done|]. rewrite Hl, Hlen. lia.
  - intros Hh1. unfold detect_periodicity_sw1pers. cbv zeta.
    rewrite decide_False by done. fold ts.
    destruct (periodicity_loop_spec ts (default [7; 14; 30; 90; 365] window_sizes) [] Hws)
      as (rs & -> & Hd & Hl).
    { intros w cloud Hw Hfit. apply Hh1. apply list_elem_of_filter.
      split; [by rewrite <- Hlen|done]. }
    simpl. eexists. split; [done|]. split.
    + rewrite (sorted_desc_perm pd_persistence rs), Hd. subst fitting. by rewrite Hlen.
    + by rewrite (sorted_desc_perm pd_persistence rs).
  - intros (w & cloud & [Hfit Hw]%list_elem_of_filter & Hc & Hshort).
    unfold detect_periodicity_sw1pers. cbv zeta.
    rewrite decide_False by done. fold ts.
    rewrite (periodicity_loop_raises ts _ [] w cloud Hws Hw); [done| |done..].
    by rewrite Hlen.
Qed.

End TimeseriesMoreFacts.

Section RegimeFacts.
Context `{BE : Backends} `{PC : !PointClouds} `{PS : !PySort}.

(** A cloud of the size the windows are embedded to, for which ripser
    returned fewer than two diagrams. *)
Definition cloud_without_h1 (window_size : Z) : Prop :=
  exists cloud : list (list float),
    Z.of_nat (length cloud) = window_size - Z.max 1 (window_size / 7) /\
    (length (ripser_cloud cloud 1) < 2)%nat.

(** A full window gets a norm, unless ripser returned fewer than two
    diagrams for its cloud: the [ValueError] of an embedding that is too
    short is caught, and the index of line 162 is the only other step that
    can fail. *)
Lemma window_norm_outcome (time_series : list float) (window_size start : Z) :
  1 <= window_size -> 0 <= start ->
  start + window_size <= Z.of_nat (length time_series) ->
  (exists norm, window_norm time_series window_size start = Ok norm) \/
  (window_norm time_series window_size start = Raise IndexError /\
   cloud_without_h1 window_size).
Proof.
  intros Hws Hstart Hend. unfold window_norm. cbv zeta.
  set (window := py_slice time_series start (start + window_size)).
  assert (length window = Z.to_nat window_size) as Hlen.
  { subst window. rewrite py_slice_length by lia. f_equal. lia. }
  rewrite decide_False by (intros Hnil; rewrite Hnil in Hlen; simpl in Hlen; lia).
  destruct (fltb _ _); [left; by eexists|].
  set (w_norm := map _ window).
  destruct (takens_ok_or_value_error w_norm (Z.max 1 (window_size / 7)) 2)
    as [[cloud Hcloud]|Hraise]; [|rewrite Hraise; left; by eexists].
  rewrite Hcloud.
  destruct (takens_length w_norm (Z.max 1 (window_size / 7)) 2 cloud) as [_ Hsize];
    [lia|lia|done|].
  assert (Z.of_nat (length cloud) = window_size - Z.max 1 (window_size / 7)) as Hsize'.
  { rewrite Hsize. subst w_norm. rewrite length_map, Hlen. lia. }
  destruct (cloud_diagram cloud) as [Hok Hshort].
  destruct (decide (2 <= length (ripser_cloud cloud 1))%nat) as [H2|H2].
  - destruct (Hok H2) as [dgm ->]. simpl. left. case_decide; by eexists.
  - right. rewrite Hshort by lia. split; [done|]. exists cloud. split; [done|lia].
Qed.

Lemma norms_loop_spec (time_series : list float) (window_size : Z) (starts : list Z) :
  1 <= window_size ->
  (forall start, start ∈ starts ->
     0 <= start /\ start + window_size <= Z.of_nat (length time_series)) ->
  forall (norms : list float) (positions : list Z),
  (exists norms',
     for_each starts
       (fun start '(norms, positions) =>
          norm ← window_norm time_series window_size start;
          Ok ((norms ++ [norm])%list, (positions ++ [start + window_size / 2])%list))
       (norms, positions)
     = Ok (norms',
           (positions ++ map (fun start => start + window_size / 2) starts)%list) /\
     length norms' = (length norms + length starts)%nat) \/
  (for_each starts
     (fun start '(norms, positions) =>
        norm ← window_norm time_series window_size start;
        Ok ((norms ++ [norm])%list, (positions ++ [start + window_size / 2])%list))
     (norms, positions)
   = Raise IndexError /\
   cloud_without_h1 window_size).
Proof.
  intros Hws. induction starts as [|start starts IH]; intros Hstarts norms positions.
  - left. exists norms. rewrite app_nil_r. split; [done|simpl; lia].
  - cbn [for_each].
    destruct (window_norm_outcome time_series window_size start)
      as [[norm Hnorm]|[Hraise Hcloud]];
      [done|apply Hstarts; by left|apply Hstarts; by left| |].
    + rewrite Hnorm. simpl.
      destruct (IH ltac:(intros s Hs; apply Hstarts; by right)
                   (norms ++ [norm])%list (positions ++ [start + window_size / 2])%list)
        as [(norms' & Hloop & Hlen)|[Hloop Hcloud]].
      * left. exists norms'. rewrite Hloop, <- app_assoc. split; [done|].
        rewrite length_app in Hlen. simpl in *. lia.
      * right. by rewrite Hloop.
    + right. by rewrite Hraise.
Qed.

Lemma np_diff_length (a : list float) : length (np_diff a) = (length a - 1)%nat.
Proof.
  unfold np_diff. destruct a as [|x a]; [done|]. simpl. rewrite Nat.sub_0_r.
  revert x. induction a as [|y a IH]; intros x; simpl; [done|]. by rewrite IH.
Qed.

(** With a window of at least one sample and a step of at least 1 the
    regime detector examines the windows that start at
    [range(0, len - window_size, step)], and has one way to fail: the index
    of line 162 raises [IndexError] when ripser returned fewer than two
    diagrams for the cloud of a window, a cloud of
    [window_size - max(1, window_size // 7)] points.  Otherwise it returns:
    with fewer than three windows it reports nothing; every change point it
    reports sits at the centre [start + window_size // 2] of one of the
    windows, and there are fewer change points than windows.  In particular
    it returns whenever ripser returns two diagrams for the clouds of that
    size. *)
Theorem regime_changes_outcome (time_series : list float) (window_size step : Z) :
  1 <= window_size -> 1 <= step ->
  exists starts,
    py_range 0 (Z.of_nat (length time_series) - window_size) step = Ok starts /\
    ((exists l,
        detect_regime_changes time_series window_size step = Ok l /\
        (Z.of_nat (length starts) < 3 -> l = []) /\
        (l = [] \/ (length l < length starts)%nat) /\
        Forall (fun cp => exists start,
                  start ∈ starts /\ cp_position cp = start + window_size / 2) l) \/
     (detect_regime_changes time_series window_size step = Raise IndexError /\
      starts ≠ [] /\
      exists cloud : list (list float),
        Z.of_nat (length cloud) = window_size - Z.max 1 (window_size / 7) /\
        (length (ripser_cloud cloud 1) < 2)%nat)) /\
    ((forall cloud : list (list float),
        Z.of_nat (length cloud) = window_size - Z.max 1 (window_size / 7) ->
        (2 <= length (ripser_cloud cloud 1))%nat) ->
     exists l, detect_regime_changes time_series window_size step = Ok l).
Proof.
  intros Hws Hstep.
  destruct (py_range 0 (Z.of_nat (length time_series) - window_size) step)
    as [starts| |] eqn:Hrange;
    [|unfold py_range in Hrange; rewrite decide_False, decide_True in Hrange by lia;
      discriminate Hrange..].
  exists starts. split; [done|].
  match goal with |- ?A /\ _ => assert (Hmain : A) end.
  2:{ split; [exact Hmain|]. intros Hall.
      destruct Hmain as [(l & Hl & _)|(_ & _ & cloud & Hsize & Hshort)]; [by exists l|].
      pose proof (Hall cloud Hsize). lia. }
  unfold detect_regime_changes. rewrite Hrange. simpl.
  destruct (norms_loop_spec time_series window_size starts Hws) with (norms := @nil float)
    (positions := @nil Z) as [(norms & Hloop & Hlen)|[Hloop Hcloud]].
  { intros start Hs. pose proof (elem_of_py_range_pos _ _ _ _ Hrange ltac:(lia) Hs). lia. }
  2:{ right. rewrite Hloop. split; [done|]. split; [|exact Hcloud].
      intros ->. discriminate Hloop. }
  left. rewrite Hloop. simpl in *.
  set (positions := map (fun start => start + window_size / 2) starts).
  case_decide as Hfew.
  { exists []. split; [done|]. split; [done|]. split; [by left|constructor]. }
  set (diff := map np_abs (np_diff norms)).
  set (threshold := fadd (np_mean diff) (fmul (float_of_Z 2) (np_std diff))).
  destruct (fltb threshold _).
  { exists []. split; [done|]. split; [intros; lia|].
    split; [by left|constructor]. }
  set (change_indices := map fst (filter _ (zip (py_range1 (Z.of_nat (length diff))) diff))).
  assert (length diff = (length norms - 1)%nat) as Hdiff.
  { subst diff. by rewrite length_map, np_diff_length. }
  assert (forall i, i ∈ change_indices -> 0 <= i < Z.of_nat (length diff)) as Hidx.
  { intros i Hi. subst change_indices.
    apply (list_elem_of_fmap fst) in Hi as ([i' d] & -> & Hid).
    apply list_elem_of_filter in Hid as [_ Hid]. apply elem_of_zip_l in Hid.
    by apply elem_of_py_range1 in Hid. }
  destruct (mapM_res_ok
    (fun i =>
       pos ← list_getitem positions i;
       d ← list_getitem diff i;
       before ← list_getitem norms i;
       after ← list_getitem norms (i + 1);
       Ok {| cp_position := pos; cp_severity := fdiv d threshold;
             norm_before := before; norm_after := after |})
    (fun i cp => cp_position cp ∈ positions) change_indices) as (l & Hl & HF).
  { intros i Hi%Hidx.
    destruct (list_getitem_in_range positions i) as (pos & -> & Hpos).
    { subst positions. rewrite length_map. lia. }
    destruct (list_getitem_in_range diff i) as (d & -> & _); [lia|].
    destruct (list_getitem_in_range norms i) as (nb & -> & _); [lia|].
    destruct (list_getitem_in_range norms (i + 1)) as (na & -> & _); [lia|].
    simpl. eexists. split; [done|]. done. }
  exists l. split; [exact Hl|]. split; [intros; lia|]. split.
  - right. apply Forall2_length in HF. rewrite <- HF. subst change_indices.
    rewrite length_map.
    pose proof (length_filter (fun p : Z * float => fgtb (snd p) threshold = true)
                  (zip (py_range1 (Z.of_nat (length diff))) diff)) as Hf.
    rewrite length_zip in Hf. lia.
  - assert (Forall (fun cp => cp_position cp ∈ positions) l) as HP.
    { eapply Forall2_Forall_r; [exact HF|]. apply Forall_true. by intros i cp Hcp. }
    eapply Forall_impl; [exact HP|]. intros cp Hcp.
    apply (list_elem_of_fmap (fun start => start + window_size / 2)) in Hcp
      as (start & -> & Hstart). by exists start.
Qed.

End RegimeFacts.

Section TimeseriesMoreRuns.
Import Ref.

(** Two channels of fifteen samples that agree but for one sample, and
    windows of three: twelve windows, of which the two that hold the
    deviating sample are flagged, with a score between 3 and 5. *)
Lemma reported_anomalies_are_outliers_witness :
  exists l,
    detect_anomalies_tada [("online", online_channel); ("phone", phone_channel)] 3 1 = Ok l /\
    map position l = [11; 12] /\
    map severity l = ["medium"; "medium"] /\
    (l = [] \/
     exists starts,
       py_range 0 (common_length [("online", online_channel); ("phone", phone_channel)] - 3) 1
         = Ok starts /\
       (length l <= length starts)%nat /\
       Forall (fun a =>
                 fgtb (mahalanobis_score a) (float_lit 3) = true /\
                 severity a
                   = (if fgtb (mahalanobis_score a) (float_lit 5) then "high" else "medium") /\
                 exists start, start ∈ starts /\ position a = start + 3 / 2) l).
Proof.
  assert (match detect_anomalies_tada
                  [("online", online_channel); ("phone", phone_channel)] 3 1 with
          | Ok l => Some (map position l, map severity l)
          | _ => None
          end = Some ([11; 12], ["medium"; "medium"])) as Hrun
    by (vm_compute; reflexivity).
  destruct (detect_anomalies_tada
              [("online", online_channel); ("phone", phone_channel)] 3 1)
    as [l| |] eqn:E; [|discriminate Hrun..].
  injection Hrun as Hpos Hsev.
  exists l. split; [reflexivity|]. split; [exact Hpos|]. split; [exact Hsev|].
  exact (reported_anomalies_are_outliers
           [("online", online_channel); ("phone", phone_channel)] 3 1 l E).
Defined.

Lemma ref_ripser_cloud_length (cloud : list (list qfloat)) :
  length (ref_ripser_cloud cloud 1)
  = Z.to_nat (Z.min 2 (Z.of_nat (length cloud) - 1)).
Proof. unfold ref_ripser_cloud. by rewrite length_map, length_seqZ. Qed.

(** Five samples: a period of one day fits three times, a period of seven
    days does not; the cloud of the former has four points, and the
    detector reports it.  Three samples and a period of one day: the cloud
    has two points, the stand-in for ripser returns a single diagram, and
    the detector raises [IndexError]. *)
Lemma periodicity_reports_fitting_windows_witness :
  (exists results,
     detect_periodicity_sw1pers sample_series (Some [1; 7]) = Ok results /\
     map period_days results ≡ₚ [1] /\
     Forall (fun r => pd_label r = _period_label (period_days r)) results) /\
  detect_periodicity_sw1pers short_series (Some [1]) = Raise IndexError.
Proof.
  split.
  - destruct (periodicity_reports_fitting_windows sample_series (Some [1; 7]))
      as (Hclouds & Hok & _).
    + discriminate.
    + intros w Hw. simpl in Hw. rewrite !elem_of_cons, elem_of_nil in Hw. lia.
    + apply Hok. intros w cloud Hw Hcloud.
      destruct (Hclouds w Hw) as (cloud' & Hcloud' & Hlen).
      rewrite Hcloud in Hcloud'. injection Hcloud' as <-.
      apply list_elem_of_filter in Hw as [Hfit Hw].
      change (ripser_cloud cloud 1) with (ref_ripser_cloud cloud 1).
      rewrite ref_ripser_cloud_length.
      simpl in Hw, Hfit, Hlen. rewrite !elem_of_cons, elem_of_nil in Hw. lia.
  - destruct (periodicity_reports_fitting_windows short_series (Some [1]))
      as (Hclouds & _ & Hraise).
    + discriminate.
    + intros w Hw. simpl in Hw. rewrite !elem_of_cons, elem_of_nil in Hw. lia.
    + apply Hraise.
      assert (Hin : 1 ∈ filter (fun w => 3 * w <= Z.of_nat (length short_series))
                          (default [7; 14; 30; 90; 365] (Some [1]))).
      { apply list_elem_of_filter. split; [simpl; lia|]. simpl. by left. }
      destruct (Hclouds 1 Hin) as (cloud & Hcloud & Hlen).
      exists 1, cloud. split; [exact Hin|]. split; [exact Hcloud|].
      change (ripser_cloud cloud 1) with (ref_ripser_cloud cloud 1).
      rewrite ref_ripser_cloud_length. simpl in Hlen. lia.
Defined.

(** Eleven samples with a late jump and windows of four: seven windows, the
    last of which alone is not constant, and one change point, where the
    norm goes from 0 to 1.  Five samples and windows of two: the cloud of a
    window is a single point, the stand-in for ripser returns no diagram
    for it, and the detector raises [IndexError]. *)
Lemma regime_changes_outcome_witness :
  (exists starts l,
     py_range 0 (Z.of_nat (length jump_series) - 4) 1 = Ok starts /\
     detect_regime_changes jump_series 4 1 = Ok l /\
     map cp_position l = [7] /\
     map norm_before l = [Fin 0] /\
     map norm_after l = [Fin 1] /\
     (l = [] \/ (length l < length starts)%nat) /\
     Forall (fun cp => exists start, start ∈ starts /\ cp_position cp = start + 4 / 2) l) /\
  (detect_regime_changes sample_series 2 1 = Raise IndexError /\
   exists cloud : list (list (@float numpy)),
     Z.of_nat (length cloud) = 2 - Z.max 1 (2 / 7) /\
     (length (ripser_cloud cloud 1) < 2)%nat).
Proof.
  split.
  - assert (match detect_regime_changes jump_series 4 1 with
            | Ok l => Some (map cp_position l, map norm_before l, map norm_after l)
            | _ => None
            end = Some ([7], [Fin 0], [Fin 1])) as Hrun by (vm_compute; reflexivity).
    destruct (regime_changes_outcome jump_series 4 1) as (starts & Hstarts & Hout & _);
      [lia|lia|].
    exists starts.
    destruct Hout as [(l & Hl & _ & Hfew & Hpos)|(Hraise & _)];
      [|rewrite Hraise in Hrun; discriminate Hrun].
    exists l. rewrite Hl in Hrun. injection Hrun as H1 H2 H3.
    split; [exact Hstarts|]. split; [exact Hl|]. split; [exact H1|].
    split; [exact H2|]. split; [exact H3|]. split; [exact Hfew|exact Hpos].
  - assert (match detect_regime_changes sample_series 2 1 with
            | Raise e => Some e
            | _ => None
            end = Some IndexError) as Hrun by (vm_compute; reflexivity).
    destruct (regime_changes_outcome sample_series 2 1) as (starts & Hstarts & Hout & _);
      [lia|lia|].
    destruct Hout as [(l & Hl & _)|(Hraise & _ & Hcloud)];
      [rewrite Hl in Hrun; discriminate Hrun|].
    split; [exact Hraise|exact Hcloud].
Defined.

End TimeseriesMoreRuns.

(** ** vectorize.py: distances and images *)

Section VectorizeMoreFacts.
Context `{NP : NumPy} `{PD : !Persim} `{NG : !NumPyGrid}.

Lemma bottleneck_features_lookup (a b : gmap string diagram) (dim : string) :
  dim ∈ ["H0"; "H1"; "H2"] ->
  bottleneck_features a b !! dim
  = Some (bottleneck_distance (default [] (a !! dim)) (default [] (b !! dim))).
Proof.
  intros Hdim. unfold bottleneck_features. simpl.
  rewrite !elem_of_cons, elem_of_nil in Hdim.
  destruct Hdim as [->|[->|[->|[]]]].
  - rewrite !lookup_insert_ne by done. apply lookup_insert_eq.
  - rewrite lookup_insert_ne by done. apply lookup_insert_eq.
  - apply lookup_insert_eq.
Qed.

Lemma bottleneck_features_dom (a b : gmap string diagram) :
  dom (bottleneck_features a b) = ({[ "H0"; "H1"; "H2" ]} : gset string).
Proof.
  unfold bottleneck_features. simpl. rewrite !dom_insert_L, dom_empty_L.
  apply leibniz_equiv. intros k.
  rewrite !elem_of_union, !elem_of_singleton, elem_of_empty. tauto.
Qed.

(** The bottleneck features only depend on the intervals with a finite
    death of the dimensions [H0], [H1] and [H2]: intervals that never die,
    other keys and missing keys do not influence them.  The result has the
    keys [H0], [H1], [H2], and a dimension in which neither side has an
    interval with a finite death gets [0.0]. *)
Theorem bottleneck_features_finite_rows (a a' b b' : gmap string diagram) :
  (forall dim, dim ∈ ["H0"; "H1"; "H2"] ->
     finite_death_rows (default [] (a !! dim)) = finite_death_rows (default [] (a' !! dim))) ->
  (forall dim, dim ∈ ["H0"; "H1"; "H2"] ->
     finite_death_rows (default [] (b !! dim)) = finite_death_rows (default [] (b' !! dim))) ->
  bottleneck_features a b = bottleneck_features a' b' /\
  dom (bottleneck_features a b) = ({[ "H0"; "H1"; "H2" ]} : gset string) /\
  forall dim, dim ∈ ["H0"; "H1"; "H2"] ->
    finite_death_rows (default [] (a !! dim)) = [] ->
    finite_death_rows (default [] (b !! dim)) = [] ->
    bottleneck_features a b !! dim = Some (float_lit 0).
Proof.
  intros Ha Hb. split; [|split].
  - unfold bottleneck_features. simpl. unfold bottleneck_distance. cbv zeta.
    rewrite !Ha, !Hb by (rewrite !elem_of_cons; tauto). done.
  - apply bottleneck_features_dom.
  - intros dim Hdim HA HB. rewrite bottleneck_features_lookup by done.
    unfold bottleneck_distance. cbv zeta. rewrite HA, HB.
    rewrite decide_False; [done|]. simpl. lia.
Qed.

Lemma np_zeros_shape (rows cols : Z) :
  0 <= rows -> 0 <= cols ->
  np_zeros rows cols = Ok (replicate (Z.to_nat rows) (replicate (Z.to_nat cols) (float_lit 0))).
Proof. intros Hr Hc. unfold np_zeros. by rewrite decide_False by lia. Qed.

Lemma add_kernel_shape (n : nat) (b_grid p_grid : list float) (p_range sigma : float)
    (weight_fn : string) (img : list (list float)) (bp : float * float) :
  length b_grid = n -> length p_grid = n ->
  length img = n -> Forall (fun row => length row = n) img ->
  length (add_kernel b_grid p_grid p_range sigma weight_fn img bp) = n /\
  Forall (fun row => length row = n) (add_kernel b_grid p_grid p_range sigma weight_fn img bp).
Proof.
  intros Hb Hp Himg Hrows. unfold add_kernel. cbv zeta. split.
  - rewrite length_zip_with, length_map; lia.
  - apply Forall_forall. intros row Hrow.
    apply elem_of_zip_with in Hrow as (r & g & -> & Hr & Hg).
    apply (list_elem_of_fmap (fun b => map _ p_grid)) in Hg as (b0 & -> & _).
    rewrite Forall_forall in Hrows.
    rewrite length_zip_with, length_map, (Hrows r Hr); lia.
Qed.

Lemma foldl_add_kernel_shape (n : nat) (b_grid p_grid : list float) (p_range sigma : float)
    (weight_fn : string) (points : list (float * float)) (img : list (list float)) :
  length b_grid = n -> length p_grid = n ->
  length img = n -> Forall (fun row => length row = n) img ->
  length (foldl (add_kernel b_grid p_grid p_range sigma weight_fn) img points) = n /\
  Forall (fun row => length row = n)
         (foldl (add_kernel b_grid p_grid p_range sigma weight_fn) img points).
Proof.
  intros Hb Hp. revert img. induction points as [|bp points IH]; intros img Hlen Hrows; [done|].
  simpl. apply IH; by apply add_kernel_shape.
Qed.

(** The persistence image is a square of side [resolution]: a negative
    resolution raises [ValueError], and otherwise the image has
    [resolution] rows of [resolution] entries; a diagram without an
    interval of finite persistence gives the image of zeros. *)
Theorem persistence_image_shape (dgm : diagram) (resolution : Z) (sigma : float)
    (weight_fn : string) :
  (resolution < 0 ->
     persistence_image dgm resolution sigma weight_fn = Raise ValueError) /\
  (0 <= resolution ->
     exists img,
       persistence_image dgm resolution sigma weight_fn = Ok img /\
       length img = Z.to_nat resolution /\
       Forall (fun row => length row = Z.to_nat resolution) img) /\
  (0 <= resolution ->
     Forall (fun p => np_isfinite (fsub (snd p) (fst p)) = false) dgm ->
     persistence_image dgm resolution sigma weight_fn
     = Ok (replicate (Z.to_nat resolution)
             (replicate (Z.to_nat resolution) (float_lit 0)))).
Proof.
  assert (forall n : nat,
            length (replicate n (replicate n (float_lit 0))) = n /\
            Forall (fun row => length row = n) (replicate n (replicate n (float_lit 0))))
    as Hzeros.
  { intros n. split; [apply length_replicate|].
    apply Forall_forall. intros row [-> _]%elem_of_replicate. apply length_replicate. }
  unfold persistence_image. cbv zeta. split; [|split].
  - intros Hneg. unfold np_zeros. repeat case_decide; try done; lia.
  - intros Hres. rewrite np_zeros_shape by done.
    case_decide; [eexists; split; [done|apply Hzeros]|].
    case_decide; [eexists; split; [done|apply Hzeros]|].
    rewrite decide_False by lia. simpl. eexists. split; [done|].
    apply foldl_add_kernel_shape; try apply Hzeros; by apply np_linspace_length.
  - intros Hres Hinf. rewrite np_zeros_shape by done.
    case_decide as Hlen; [done|]. clear Hlen.
    rewrite decide_True; [done|].
    rewrite length_map. apply length_zero_iff_nil.
    induction Hinf as [|p l Hp _ IH]; [done|].
    simpl. rewrite filter_cons. simpl. rewrite decide_False; [exact IH|].
    rewrite Hp. done.
Qed.

End VectorizeMoreFacts.

Section VectorizeMoreRuns.
Import Ref.

(** An interval that never dies is as good as none. *)
Lemma bottleneck_features_finite_rows_witness :
  let a : gmap string (@diagram numpy) := {[ "H0" := [(Fin 0, Inf false)] ]} in
  bottleneck_features a ∅ = bottleneck_features ∅ ∅ /\
  dom (bottleneck_features a ∅) = ({[ "H0"; "H1"; "H2" ]} : gset string) /\
  forall dim, dim ∈ ["H0"; "H1"; "H2"] ->
    finite_death_rows (default [] (a !! dim)) = [] ->
    finite_death_rows (default [] ((∅ : gmap string (@diagram numpy)) !! dim)) = [] ->
    bottleneck_features a ∅ !! dim = Some (float_lit 0).
Proof.
  intros a. apply (bottleneck_features_finite_rows a ∅ ∅ ∅).
  - intros dim Hdim. rewrite !elem_of_cons, elem_of_nil in Hdim.
    destruct Hdim as [->|[->|[->|[]]]]; reflexivity.
  - intros dim _. reflexivity.
Defined.

End VectorizeMoreRuns.

(** ** simplicial.py: vendor and venue affinities *)

Lemma zip_map_elem {A B C : Type} (f : A -> B) (l : list A) (k : list C)
    (x : A) (y : B) (z : C) :
  (x, (y, z)) ∈ zip l (zip (map f l) k) -> x ∈ l /\ y = f x /\ z ∈ k.
Proof.
  revert k. induction l as [|a l IH]; intros [|c k] Hin; simpl in Hin;
    try by apply elem_of_nil in Hin.
  apply elem_of_cons in Hin as [[= -> -> ->]|Hin].
  - split; [by left|]. split; [done|by left].
  - apply IH in Hin as (Hx & Hy & Hz). split; [by right|]. split; [done|by right].
Qed.

(** The inner loop of lines 116-118. *)
Lemma count_vendors_spec (venue : string) (vids : list string)
    (counts : gmap (string * string) Z) (vendor_set : gset string) :
  let st := foldl (fun '(venue_vendor_counts, vendor_set) vid =>
                     (<[(venue, vid) := default 0 (venue_vendor_counts !! (venue, vid)) + 1]>
                        venue_vendor_counts,
                      {[vid]} ∪ vendor_set))
                  (counts, vendor_set) vids in
  (forall vd, vd ∈ snd st <-> vd ∈ vendor_set \/ vd ∈ vids) /\
  (forall k, default 0 (fst st !! k)
             = default 0 (counts !! k)
               + Z.of_nat (length (filter (fun p => p = k) (map (fun vid => (venue, vid)) vids)))).
Proof.
  revert counts vendor_set. induction vids as [|vid vids IH]; intros counts vendor_set; simpl.
  - split; [intros vd; rewrite elem_of_nil; tauto|]. intros k. lia.
  - destruct (IH (<[(venue, vid) := default 0 (counts !! (venue, vid)) + 1]> counts)
                 ({[vid]} ∪ vendor_set)) as [Hset Hcount].
    split.
    + intros vd. rewrite Hset, elem_of_union, elem_of_singleton, elem_of_cons. tauto.
    + intros k. rewrite Hcount. rewrite filter_cons.
      destruct (decide ((venue, vid) = k)) as [<-|Hne].
      * rewrite lookup_insert_eq. simpl. lia.
      * rewrite lookup_insert_ne by done. lia.
Qed.

Lemma count_loop_spec (bookings : list booking) :
  let st := foldl (fun st b => count_booking b st) (∅, ∅, ∅) bookings in
  (forall v, v ∈ snd st <-> exists b, b ∈ bookings /\ venue_id b = v) /\
  (forall vd, vd ∈ snd (fst st)
              <-> exists b, b ∈ bookings /\ vd ∈ default [] (vendor_ids b)) /\
  (forall v vd, default 0 (fst (fst st) !! (v, vd)) = pair_count bookings v vd).
Proof.
  induction bookings as [|b bookings IH] using rev_ind.
  - simpl. split; [|split].
    + intros v. rewrite elem_of_empty. split; [done|]. by intros (b & ?%elem_of_nil & _).
    + intros v. rewrite elem_of_empty. split; [done|]. by intros (b & ?%elem_of_nil & _).
    + intros v vd. by rewrite lookup_empty.
  - rewrite foldl_snoc. cbv zeta in IH.
    destruct (foldl (fun st b => count_booking b st) (∅, ∅, ∅) bookings)
      as [[counts vendor_set] venue_set].
    destruct IH as (Hvenue & Hvendor & Hcount). cbn [fst snd] in *.
    unfold count_booking.
    pose proof (count_vendors_spec (venue_id b) (default [] (vendor_ids b)) counts vendor_set)
      as Hinner. cbv zeta in Hinner.
    destruct (foldl _ (counts, vendor_set) (default [] (vendor_ids b))) as [counts' vendor_set'].
    destruct Hinner as [Hset' Hcount']. cbn [fst snd] in *.
    split; [|split].
    + intros v. rewrite elem_of_union, elem_of_singleton, Hvenue. split.
      * intros [->|(b' & Hb' & <-)].
        -- exists b. split; [apply elem_of_app; right; by left|done].
        -- exists b'. split; [apply elem_of_app; by left|done].
      * intros (b' & [Hb'| ->%list_elem_of_singleton]%elem_of_app & <-).
        -- right. by exists b'.
        -- by left.
    + intros vd. rewrite Hset', Hvendor. split.
      * intros [(b' & Hb' & Hvd)|Hvd].
        -- exists b'. split; [apply elem_of_app; by left|done].
        -- exists b. split; [apply elem_of_app; right; by left|done].
      * intros (b' & [Hb'| ->%list_elem_of_singleton]%elem_of_app & Hvd).
        -- left. by exists b'.
        -- by right.
    + intros v vd. rewrite Hcount', Hcount. unfold pair_count, venue_vendor_pairs.
      rewrite flat_map_app, filter_app, length_app. simpl. rewrite app_nil_r. lia.
Qed.

Section AffinityFacts.
Context `{SO : SetOrder} `{NP : NumPy} `{PS : !PySort}.

Lemma sorted_set_iter_elem (X : gset string) (x : string) :
  x ∈ sorted (set_iter X) <-> x ∈ X.
Proof. by rewrite sorted_Permutation, elem_of_set_iter. Qed.

Lemma sorted_set_iter_length (X : gset string) :
  length (sorted (set_iter X)) = size X.
Proof. by rewrite sorted_length, length_set_iter. Qed.

(** The affinity report.  When no booking lists a vendor (in particular
    without bookings) it is the empty report.  Otherwise it counts the
    distinct venues and vendors, lists at most 50 affinities, and every
    affinity it lists pairs a venue and a vendor of the bookings, has a
    score above 0.1, and carries as booking count the number of times the
    vendor is listed for the venue. *)
Theorem vendor_affinities_report (bookings : list booking) :
  let r := analyze_vendor_venue_affinities bookings in
  let venue_ids : gset string := list_to_set (map venue_id bookings) in
  let vendor_ids_ : gset string :=
    list_to_set (flat_map (fun b => default [] (vendor_ids b)) bookings) in
  ((forall b, b ∈ bookings -> default [] (vendor_ids b) = []) ->
     r = {| affinities := []; af_patterns := Some [];
            num_venues := None; num_vendors := None; density := None |}) /\
  ((exists b, b ∈ bookings /\ default [] (vendor_ids b) ≠ []) ->
     af_patterns r = None /\
     num_venues r = Some (Z.of_nat (size venue_ids)) /\
     num_vendors r = Some (Z.of_nat (size vendor_ids_)) /\
     is_Some (density r) /\
     (length (affinities r) <= 50)%nat /\
     Forall (fun a =>
               fgtb (affinity_score a) (float_lit (1 # 10)) = true /\
               af_venue_id a ∈ venue_ids /\ af_vendor_id a ∈ vendor_ids_ /\
               booking_count a
                 = int_of_float
                     (float_of_Z (pair_count bookings (af_venue_id a) (af_vendor_id a))))
            (affinities r)).
Proof.
  intros r venue_ids vendor_ids_. subst r. unfold analyze_vendor_venue_affinities.
  pose proof (count_loop_spec bookings) as Hloop. cbv zeta in Hloop.
  destruct (foldl (fun st b => count_booking b st) (∅, ∅, ∅) bookings)
    as [[counts vendor_set] venue_set].
  destruct Hloop as (Hvenue & Hvendor & Hcount). cbn [fst snd] in *.
  assert (venue_set = venue_ids) as ->.
  { apply leibniz_equiv. intros v. subst venue_ids.
    rewrite Hvenue, elem_of_list_to_set. rewrite (list_elem_of_fmap venue_id).
    split; intros (b & ? & ?); exists b; done. }
  assert (vendor_set = vendor_ids_) as ->.
  { apply leibniz_equiv. intros v. subst vendor_ids_.
    rewrite Hvendor, elem_of_list_to_set, list_elem_of_In, in_flat_map.
    split; intros (b & Hb & Hv); exists b.
    - by rewrite <- !list_elem_of_In.
    - by rewrite !list_elem_of_In. }
  assert (forall X : gset string, sorted (set_iter X) = [] <-> X = ∅) as Hnil.
  { intros X. split.
    - intros HX. apply leibniz_equiv. intros x. rewrite <- sorted_set_iter_elem, HX.
      rewrite elem_of_nil, elem_of_empty. done.
    - intros ->. rewrite set_iter_empty. done. }
  split.
  - intros Hnone. rewrite decide_True; [done|]. right. apply Hnil.
    apply leibniz_equiv. intros v. rewrite elem_of_empty. split; [|done].
    intros (b & Hb & Hv)%Hvendor. rewrite (Hnone b Hb) in Hv. by apply elem_of_nil in Hv.
  - intros (b0 & Hb0 & Hv0).
    rewrite decide_False.
    2:{ intros [H|H]; apply Hnil in H.
        - assert (venue_id b0 ∈ venue_ids) as Hin by (apply Hvenue; eauto).
          rewrite H in Hin. by apply elem_of_empty in Hin.
        - destruct (default [] (vendor_ids b0)) as [|vd l] eqn:E; [done|].
          assert (vd ∈ vendor_ids_) as Hin.
          { apply Hvendor. exists b0. split; [done|]. rewrite E. by left. }
          rewrite H in Hin. by apply elem_of_empty in Hin. }
    cbv zeta. cbn [af_patterns num_venues num_vendors density affinities].
    rewrite !sorted_set_iter_length.
    split; [done|]. split; [done|]. split; [done|]. split; [by eexists|].
    split; [rewrite length_take; lia|].
    apply Forall_forall. intros a Ha. apply elem_of_take in Ha as (i & Ha & _).
    apply list_elem_of_lookup_2 in Ha.
    rewrite (sorted_desc_perm affinity_score) in Ha.
    apply list_elem_of_In, in_flat_map in Ha as ([venue [row nrow]] & Hrow & Ha).
    apply in_flat_map in Ha as ([vendor [x nx]] & Hx & Ha).
    apply list_elem_of_In in Hrow, Hx.
    apply zip_map_elem in Hrow as (Hvenue' & -> & _).
    apply zip_map_elem in Hx as (Hvendor' & -> & _).
    destruct (fgtb nx (float_lit (1 # 10))) eqn:Hgt; [|by destruct Ha].
    destruct Ha as [<-|[]]. simpl.
    apply sorted_set_iter_elem in Hvenue', Hvendor'.
    split; [done|]. split; [done|]. split; [done|]. by rewrite Hcount.
Qed.

End AffinityFacts.
